(** * KCPlus: the [KCPSession] wrapper of [kcplus.hpp] over the KCP engine

    [kcplus.hpp] wraps the C engine declared in [<ikcp.h>] in a C++ class.
    The development has three layers:

    - the integer conversions the wrapper performs ([static_cast<int>],
      [static_cast<SizeType>], the implicit [SizeType -> long]);
    - the engine interface [Engine]: the functions of [<ikcp.h>] the wrapper
      calls, as a class, so that the wrapper is embedded once for every
      engine;
    - the wrapper itself, method by method, in a small monad carrying the
      session object, the allocator and the trace of callback invocations.

    The engine's source is not part of [kcplus.hpp]; module [Core] gives a
    model of it written from the specification, used to instantiate the
    interface. *)

From Stdlib Require Import ZArith List Lia Bool.
From Stdlib Require String.
From coqutil Require Import Byte Word.LittleEndianList.
Import ListNotations.
Local Open Scope Z_scope.

Set Implicit Arguments.

(** ** Machine integers *)

Definition bytes := list byte.

Definition INT_MAX : Z := 2 ^ 31 - 1.

(** [static_cast<int>(z)]: two's complement wrap-around to 32 bits. *)
Definition to_int (z : Z) : Z := (z + 2 ^ 31) mod 2 ^ 32 - 2 ^ 31.

(** Conversion to [long] (64 bits), as at the call of [ikcp_input]. *)
Definition to_long (z : Z) : Z := (z + 2 ^ 63) mod 2 ^ 64 - 2 ^ 63.

(** [static_cast<SizeType>(z)], [SizeType = std::size_t] of 64 bits. *)
Definition to_SizeType (z : Z) : Z := z mod 2 ^ 64.

Definition is_int (z : Z) : Prop := - 2 ^ 31 <= z < 2 ^ 31.
Definition is_SizeType (z : Z) : Prop := 0 <= z < 2 ^ 64.
Definition is_IUINT32 (z : Z) : Prop := 0 <= z < 2 ^ 32.

Definition len (b : bytes) : Z := Z.of_nat (length b).

(** ** The engine interface, [<ikcp.h>]

    One field per function the wrapper calls.  A function taking
    [ikcpcb *kcp] returns the control block it leaves behind; one taking
    [const ikcpcb *kcp] only reads it.  While it runs, the engine may call
    [kcp->output(buf, len, kcp, user)]; the calls it makes are returned as
    the list of their [(buf, len)] arguments, in order.  [ikcp_recv] stores
    into the caller's buffer, returned as it is after the call. *)

Definition emission : Type := bytes * Z.

Class Engine : Type := {
  ikcpcb : Type;
  ikcp_create : Z -> ikcpcb;
  ikcp_input : ikcpcb -> bytes -> Z -> ikcpcb * list emission * Z;
  ikcp_peeksize : ikcpcb -> Z;
  ikcp_recv : ikcpcb -> bytes -> Z -> ikcpcb * bytes * Z;
  ikcp_send : ikcpcb -> bytes -> Z -> ikcpcb * Z;
  ikcp_update : ikcpcb -> Z -> ikcpcb * list emission;
  ikcp_flush : ikcpcb -> ikcpcb * list emission;
  ikcp_check : ikcpcb -> Z -> Z;
  ikcp_setmtu : ikcpcb -> Z -> ikcpcb * Z;
  ikcp_wndsize : ikcpcb -> Z -> Z -> ikcpcb * Z;
  ikcp_waitsnd : ikcpcb -> Z;
  ikcp_nodelay : ikcpcb -> Z -> Z -> Z -> Z -> ikcpcb * Z
}.

(** ** Values of the wrapper *)

(** A callable held by a [std::function]; invoking it is recorded in the
    trace under this name.  [None] is the empty [std::function]
    ([nullptr]). *)
Definition callable := nat.
Definition OutputFunction := option callable.
Definition receiveCallback := option callable.

(** Storage obtained from [new char[n]]: the block and what it holds. *)
Record buffer : Type := { block : nat; contents : bytes }.

(** [struct Packet]: [data] is [None] for [nullptr]. *)
Record Packet : Type := { data : option buffer; size : Z }.

Inductive exception : Type :=
| runtime_error (what : String.string)
| bad_function_call.

Inductive event : Type :=
| Output (f : callable) (buf : bytes) (n : Z)
| Receive (f : callable) (packet : Packet).

Inductive outcome (A : Type) : Type :=
| Returns (a : A)
| Throws (e : exception)
| Aborts.
Arguments Throws {A} e.
Arguments Aborts {A}.

Definition NotChanged : Z := -1.

Module Messages.
Import String.
Definition inconsistency : string := "receive: Internal inconsistency error!"%string.
End Messages.

Section Wrapper.
Context {E : Engine}.

(** The data members of [class KCPSession]. *)
Record KCPSession : Type := {
  mKcp : ikcpcb;
  mOutputFunc : OutputFunction;
  mAsyncMode : bool;
  mReceiveFunc : receiveCallback
}.

(** What a method runs in: the object, the next block [new] hands out, and
    the invocations of the two callbacks so far. *)
Record process : Type := {
  this : KCPSession;
  brk : nat;
  trace : list event
}.

Definition M (A : Type) : Type := process -> outcome A * process.

Definition ret {A} (a : A) : M A := fun p => (Returns a, p).

Definition bind {A B} (m : M A) (k : A -> M B) : M B :=
  fun p =>
    match m p with
    | (Returns a, p') => k a p'
    | (Throws e, p') => (Throws e, p')
    | (Aborts, p') => (Aborts, p')
    end.

Definition throw {A} (e : exception) : M A := fun p => (Throws e, p).

(** [assert(c)] of [<cassert>]. *)
Definition assert (c : bool) : M unit :=
  fun p => if c then (Returns tt, p) else (Aborts, p).

Definition get_this : M KCPSession := fun p => (Returns (this p), p).

Definition put_this (s : KCPSession) : M unit :=
  fun p => (Returns tt, {| this := s; brk := brk p; trace := trace p |}).

Definition log (e : event) : M unit :=
  fun p => (Returns tt, {| this := this p; brk := brk p; trace := trace p ++ [e] |}).

(** [new char[n]] / [std::make_unique<char []>(n)]: a block never handed
    out before; the model zero-fills it, as [make_unique] does (plain
    [new] leaves the bytes indeterminate until [ikcp_recv] has stored the
    message).  The allocation is taken to succeed: [std::bad_alloc] is
    outside the model. *)
Definition new_array (n : Z) : M buffer :=
  fun p => (Returns {| block := brk p; contents := repeat Byte.x00 (Z.to_nat n) |},
            {| this := this p; brk := S (brk p); trace := trace p |}).

Definition set_mKcp (k : ikcpcb) : M unit :=
  fun p => put_this {| mKcp := k; mOutputFunc := mOutputFunc (this p);
                       mAsyncMode := mAsyncMode (this p);
                       mReceiveFunc := mReceiveFunc (this p) |} p.

End Wrapper.

Declare Scope kcp_scope.
Notation "x <- m ;; k" := (bind m (fun x => k))
  (at level 61, m at next level, right associativity) : kcp_scope.
Notation "m ;;; k" := (bind m (fun _ => k))
  (at level 61, right associativity) : kcp_scope.
Local Open Scope kcp_scope.

Section Methods.
Context {E : Engine}.

(** [KCPSession(IUINT32 conv)]: the initialiser list names [mKcp] and
    [mOutputFunc]; [mReceiveFunc] is default-constructed (empty);
    [mAsyncMode] has no initialiser, so it holds whatever its storage held,
    the argument [indeterminate]. *)
Definition new_KCPSession (conv : Z) (indeterminate : bool) : KCPSession :=
  {| mKcp := ikcp_create conv;
     mOutputFunc := None;
     mAsyncMode := indeterminate;
     mReceiveFunc := None |}.

Definition start (s : KCPSession) : process :=
  {| this := s; brk := 0%nat; trace := [] |}.

Definition setAsyncMode (AsyncMode : bool) : M unit :=
  s <- get_this ;;
  put_this {| mKcp := mKcp s; mOutputFunc := mOutputFunc s;
              mAsyncMode := AsyncMode; mReceiveFunc := mReceiveFunc s |}.

Definition setReceiveCallback (f : receiveCallback) : M unit :=
  s <- get_this ;;
  put_this {| mKcp := mKcp s; mOutputFunc := mOutputFunc s;
              mAsyncMode := mAsyncMode s; mReceiveFunc := f |}.

Definition setOutputFunction (f : OutputFunction) : M unit :=
  s <- get_this ;;
  put_this {| mKcp := mKcp s; mOutputFunc := f;
              mAsyncMode := mAsyncMode s; mReceiveFunc := mReceiveFunc s |}.

(** [operator()] of the two [std::function] members. *)
Definition call_output (f : OutputFunction) (buf : bytes) (n : Z) : M unit :=
  match f with
  | Some c => log (Output c buf n)
  | None => throw bad_function_call
  end.

Definition call_receive (f : receiveCallback) (packet : Packet) : M unit :=
  match f with
  | Some c => log (Receive c packet)
  | None => throw bad_function_call
  end.

Definition is_set (f : option callable) : bool :=
  match f with Some _ => true | None => false end.

(** [mOutputFuncRaw], installed as [mKcp->output] by the constructor. *)
Definition mOutputFuncRaw (buf : bytes) (n : Z) : M Z :=
  thisptr <- get_this ;;
  assert (is_set (mOutputFunc thisptr)) ;;;
  call_output (mOutputFunc thisptr) buf (to_SizeType n) ;;;
  ret 0.

(** The engine's calls of [kcp->output], one after the other. *)
Fixpoint output_calls (out : list emission) : M unit :=
  match out with
  | [] => ret tt
  | (buf, n) :: rest => mOutputFuncRaw buf n ;;; output_calls rest
  end.

Definition hasReceivablePacket (s : KCPSession) : bool :=
  0 <=? ikcp_peeksize (mKcp s).

Definition nextPacketSize (s : KCPSession) : Z :=
  let size := ikcp_peeksize (mKcp s) in
  if 0 <=? size then to_SizeType size else 0.

Definition receive : M Packet :=
  s <- get_this ;;
  if hasReceivablePacket s then
    let packetSize := nextPacketSize s in
    buf <- new_array packetSize ;;
    let '(k, stored, r) := ikcp_recv (mKcp s) (contents buf) (to_int packetSize) in
    set_mKcp k ;;;
    if negb (to_SizeType r =? packetSize) then
      throw (runtime_error Messages.inconsistency)
    else
      ret {| data := Some {| block := block buf; contents := stored |};
             size := packetSize |}
  else ret {| data := None; size := 0 |}.

Definition input (data : bytes) (size : Z) : M unit :=
  s <- get_this ;;
  let '(k, out, _) := ikcp_input (mKcp s) data (to_long size) in
  set_mKcp k ;;;
  output_calls out ;;;
  s' <- get_this ;;
  if mAsyncMode s' && hasReceivablePacket s' then
    packet <- receive ;;
    call_receive (mReceiveFunc s') packet
  else ret tt.

Definition send (data : bytes) (size : Z) : M unit :=
  s <- get_this ;;
  let '(k, _) := ikcp_send (mKcp s) data (to_int size) in
  set_mKcp k.

Definition update (currentTimestamp : Z) : M unit :=
  s <- get_this ;;
  let '(k, out) := ikcp_update (mKcp s) currentTimestamp in
  set_mKcp k ;;;
  output_calls out.

Definition flush : M unit :=
  s <- get_this ;;
  let '(k, out) := ikcp_flush (mKcp s) in
  set_mKcp k ;;;
  output_calls out.

Definition whenToUpdate (currentTimestamp : Z) : M Z :=
  s <- get_this ;;
  ret (ikcp_check (mKcp s) currentTimestamp).

Definition setMTU (mtu : Z) : M unit :=
  s <- get_this ;;
  let '(k, _) := ikcp_setmtu (mKcp s) mtu in
  set_mKcp k.

Definition setMaxSendWindowSize (sendWindow : Z) : M unit :=
  s <- get_this ;;
  let '(k, _) := ikcp_wndsize (mKcp s) sendWindow 0 in
  set_mKcp k.

Definition setMaxReceiveWindowSize (receiveWindow : Z) : M unit :=
  s <- get_this ;;
  let '(k, _) := ikcp_wndsize (mKcp s) 0 receiveWindow in
  set_mKcp k.

Definition getNumOfPendingPackets (s : KCPSession) : Z :=
  to_SizeType (ikcp_waitsnd (mKcp s)).

Definition setPropertiesPrivate (nodelay interval resend nc : Z) : M unit :=
  s <- get_this ;;
  let '(k, _) := ikcp_nodelay (mKcp s) nodelay interval resend nc in
  set_mKcp k.

Definition setNodelay (nodelay : bool) : M unit :=
  setPropertiesPrivate (if nodelay then 1 else 0) NotChanged NotChanged NotChanged.

Definition setInternalInterval (internalInterval : Z) : M unit :=
  setPropertiesPrivate NotChanged internalInterval NotChanged NotChanged.

Definition setFastResendThreshold (fastResendThreshold : Z) : M unit :=
  setPropertiesPrivate NotChanged NotChanged fastResendThreshold NotChanged.

Definition setCongestionControl (congestionControl : bool) : M unit :=
  setPropertiesPrivate NotChanged NotChanged NotChanged (if congestionControl then 0 else 1).

Definition setProperties (nodelay : bool) (internalInterval fastResendThreshold : Z)
    (congestionControl : bool) : M unit :=
  setNodelay nodelay ;;;
  setInternalInterval internalInterval ;;;
  setFastResendThreshold fastResendThreshold ;;;
  setCongestionControl congestionControl.

End Methods.

(** ** The engine, modelled from the specification

    [<ikcp.h>] and the engine behind it are not in [kcplus.hpp].  [Core]
    models the transport session engine component by component: segment
    codec, send window controller, receive reassembler, RTT estimator, ACK
    processor, congestion controller and session clock.  Sequence numbers,
    timestamps and windows are mathematical integers; the codec cuts them
    to their width on the wire. *)

Module Core.

(** *** Segment codec *)

Inductive command : Type := PUSH | ACK | WASK | WINS.

(** Modelled from the spec: the wire unit of the segment codec, whose
    declaration ([IKCPSEG] of [<ikcp.h>]) is missing.  The retransmit and
    skip counters are kept beside it, in [inflight]. *)
Record segment : Type := {
  conv : Z;
  cmd : command;
  frg : Z;
  wnd : Z;
  ts : Z;
  sn : Z;
  una : Z;
  payload : bytes
}.

Definition OVERHEAD : Z := 24.

Definition cmd_code (c : command) : Z :=
  match c with PUSH => 81 | ACK => 82 | WASK => 83 | WINS => 84 end.

Definition cmd_of_code (z : Z) : option command :=
  if z =? 81 then Some PUSH
  else if z =? 82 then Some ACK
  else if z =? 83 then Some WASK
  else if z =? 84 then Some WINS
  else None.

(** Modelled from the spec: the fixed-layout header of the missing codec,
    little-endian: conv (4 bytes), command (1), fragment count (1), window
    (2), timestamp (4), sequence number (4), una (4), payload length (4). *)
Definition header (s : segment) : bytes :=
  le_split 4 (conv s) ++ le_split 1 (cmd_code (cmd s)) ++ le_split 1 (frg s)
  ++ le_split 2 (wnd s) ++ le_split 4 (ts s) ++ le_split 4 (sn s)
  ++ le_split 4 (una s) ++ le_split 4 (len (payload s)).

(** Modelled from the spec: [encode] of the missing codec; it fails when
    the payload is longer than the maximum segment size. *)
Definition encode (mss : Z) (s : segment) : option bytes :=
  if mss <? len (payload s) then None else Some (header s ++ payload s).

Definition field (off n : nat) (b : bytes) : Z :=
  le_combine (firstn n (skipn off b)).

(** Modelled from the spec: [decode] of the missing codec; malformed when
    shorter than the header, when the declared payload length is not the
    number of bytes that remain, when the connection identifier is not the
    session's, or when the command is none of the four. *)
Definition decode (conv_id : Z) (b : bytes) : option segment :=
  if len b <? OVERHEAD then None
  else if negb (field 20 4 b =? len b - OVERHEAD) then None
  else if negb (field 0 4 b =? conv_id) then None
  else match cmd_of_code (field 4 1 b) with
       | None => None
       | Some c =>
           Some {| conv := field 0 4 b; cmd := c; frg := field 5 1 b;
                   wnd := field 6 2 b; ts := field 8 4 b; sn := field 12 4 b;
                   una := field 16 4 b; payload := skipn 24 b |}
       end.

(** *** Session state *)

(** An in-flight segment with its own retransmit deadline, RTO, count of
    later acknowledgments that skipped it, and count of transmissions. *)
Record inflight : Type := {
  seg : segment;
  resendts : Z;
  rto : Z;
  fastack : Z;
  xmit : Z
}.

Record config : Type := {
  mtu : Z;
  mss : Z;
  snd_wnd : Z;
  rcv_wnd : Z;
  nodelay : Z;
  interval : Z;
  fastresend : Z;
  nocwnd : Z
}.

Record sender : Type := {
  snd_una : Z;
  snd_nxt : Z;
  snd_queue : list segment;
  snd_buf : list inflight;
  rmt_wnd : Z;
  cwnd : Z;
  ssthresh : Z;
  incr : Z
}.

Record receiver : Type := {
  rcv_nxt : Z;
  rcv_buf : list segment;
  rcv_frags : list segment;
  rcv_queue : list bytes;
  acklist : list (Z * Z)
}.

Record estimator : Type := {
  rx_srtt : Z;
  rx_rttval : Z;
  rx_rto : Z
}.

(** Modelled from the spec: the session state ([ikcpcb] of [<ikcp.h>] is
    missing), grouped by the component that owns each part. *)
Record kcb : Type := {
  conv_id : Z;
  cfg : config;
  tx : sender;
  rx : receiver;
  rtt : estimator;
  current : Z;
  ts_probe : Z;
  probe_tell : bool
}.

Definition RTO_MAX : Z := 60000.
Definition BACKOFF_MAX : Z := 8.
Definition PROBE_WAIT : Z := 7000.
Definition SSTHRESH_MIN : Z := 2.

Definition default_config : config :=
  {| mtu := 1400; mss := 1400 - OVERHEAD; snd_wnd := 32; rcv_wnd := 128;
     nodelay := 0; interval := 100; fastresend := 2; nocwnd := 0 |}.

(** Modelled from the spec: session creation with a connection identifier
    ([ikcp_create] is missing); the defaults are the engine's tuning
    constants. *)
Definition create (c : Z) : kcb :=
  {| conv_id := c;
     cfg := default_config;
     tx := {| snd_una := 0; snd_nxt := 0; snd_queue := []; snd_buf := [];
              rmt_wnd := 128; cwnd := 1; ssthresh := SSTHRESH_MIN;
              incr := 1400 - OVERHEAD |};
     rx := {| rcv_nxt := 0; rcv_buf := []; rcv_frags := []; rcv_queue := [];
              acklist := [] |};
     rtt := {| rx_srtt := 0; rx_rttval := 0; rx_rto := 200 |};
     current := 0;
     ts_probe := 0;
     probe_tell := false |}.

Definition with_tx (k : kcb) (s : sender) : kcb :=
  {| conv_id := conv_id k; cfg := cfg k; tx := s; rx := rx k; rtt := rtt k;
     current := current k; ts_probe := ts_probe k; probe_tell := probe_tell k |}.

Definition with_rx (k : kcb) (r : receiver) : kcb :=
  {| conv_id := conv_id k; cfg := cfg k; tx := tx k; rx := r; rtt := rtt k;
     current := current k; ts_probe := ts_probe k; probe_tell := probe_tell k |}.

Definition with_rtt (k : kcb) (e : estimator) : kcb :=
  {| conv_id := conv_id k; cfg := cfg k; tx := tx k; rx := rx k; rtt := e;
     current := current k; ts_probe := ts_probe k; probe_tell := probe_tell k |}.

Definition with_cfg (k : kcb) (c : config) : kcb :=
  {| conv_id := conv_id k; cfg := c; tx := tx k; rx := rx k; rtt := rtt k;
     current := current k; ts_probe := ts_probe k; probe_tell := probe_tell k |}.

Definition with_current (k : kcb) (t : Z) : kcb :=
  {| conv_id := conv_id k; cfg := cfg k; tx := tx k; rx := rx k; rtt := rtt k;
     current := t; ts_probe := ts_probe k; probe_tell := probe_tell k |}.

Definition with_probe (k : kcb) (t : Z) (tell : bool) : kcb :=
  {| conv_id := conv_id k; cfg := cfg k; tx := tx k; rx := rx k; rtt := rtt k;
     current := current k; ts_probe := t; probe_tell := tell |}.

(** *** Send window controller: fragmentation *)

Fixpoint chunks (n size : nat) (m : bytes) : list bytes :=
  match n with
  | O => []
  | S n' => firstn size m :: chunks n' size (skipn size m)
  end.

Definition fragment_count (mss : Z) (m : bytes) : Z :=
  if len m <=? mss then 1 else (len m + mss - 1) / mss.

Definition fragments (mss : Z) (m : bytes) : list bytes :=
  chunks (Z.to_nat (fragment_count mss m)) (Z.to_nat mss) m.

(** Each fragment is tagged with the number of fragments that follow it,
    so the counts descend to 0 on the last. *)
Fixpoint tag (c : Z) (l : list bytes) : list segment :=
  match l with
  | [] => []
  | d :: rest =>
      {| conv := c; cmd := PUSH; frg := Z.of_nat (length rest); wnd := 0;
         ts := 0; sn := 0; una := 0; payload := d |} :: tag c rest
  end.

(** Modelled from the spec: enqueue-to-send of the missing engine; the
    message is cut into fragments of at most [mss] bytes appended to the
    send queue, unconditionally. *)
Definition send (k : kcb) (m : bytes) : kcb :=
  let s := tx k in
  with_tx k {| snd_una := snd_una s; snd_nxt := snd_nxt s;
               snd_queue := snd_queue s ++ tag (conv_id k) (fragments (mss (cfg k)) m);
               snd_buf := snd_buf s; rmt_wnd := rmt_wnd s; cwnd := cwnd s;
               ssthresh := ssthresh s; incr := incr s |}.

(** *** RTT estimator *)

Definition clamp (lo hi x : Z) : Z := Z.max lo (Z.min hi x).

(** Modelled from the spec: the RTT estimator of the missing engine; the
    first sample initialises, later ones move the averages by 1/8 and 1/4;
    RTO = srtt + 4 * rttvar within [interval, RTO_MAX]. *)
Definition rtt_update (c : config) (e : estimator) (sample : Z) : estimator :=
  let srtt := if rx_srtt e =? 0 then sample
              else rx_srtt e + (sample - rx_srtt e) / 8 in
  let rttvar := if rx_srtt e =? 0 then sample / 2
                else rx_rttval e + (Z.abs (sample - rx_srtt e) - rx_rttval e) / 4 in
  {| rx_srtt := srtt; rx_rttval := rttvar;
     rx_rto := clamp (interval c) RTO_MAX (srtt + 4 * rttvar) |}.

(** *** ACK processor *)

(** The send buffer is ordered by sequence number; [snd_una] is its first
    sequence number, or [snd_nxt] when nothing is in flight. *)
Definition set_buf (s : sender) (buf : list inflight) : sender :=
  {| snd_una := match buf with e :: _ => sn (seg e) | [] => snd_nxt s end;
     snd_nxt := snd_nxt s; snd_queue := snd_queue s; snd_buf := buf;
     rmt_wnd := rmt_wnd s; cwnd := cwnd s; ssthresh := ssthresh s;
     incr := incr s |}.

(** Modelled from the spec: cumulative acknowledgment of the missing ACK
    processor; every in-flight segment below [u] is confirmed delivered. *)
Definition ack_cumulative (u : Z) (s : sender) : sender :=
  set_buf s (filter (fun e => u <=? sn (seg e)) (snd_buf s)).

Definition outstanding (n : Z) (buf : list inflight) : bool :=
  existsb (fun e => sn (seg e) =? n) buf.

Definition skipped (n : Z) (e : inflight) : inflight :=
  if sn (seg e) <? n
  then {| seg := seg e; resendts := resendts e; rto := rto e;
          fastack := fastack e + 1; xmit := xmit e |}
  else e.

(** Modelled from the spec: selective acknowledgment of the missing ACK
    processor; exactly the segment [n] leaves the send buffer and every
    outstanding segment below it is skipped once more; an acknowledgment of
    a segment no longer in flight is ignored. *)
Definition ack_selective (n : Z) (s : sender) : sender :=
  if outstanding n (snd_buf s)
  then set_buf s (map (skipped n)
                      (filter (fun e => negb (sn (seg e) =? n)) (snd_buf s)))
  else s.

(** An RTT sample is taken from an acknowledgment of a segment in flight
    that was transmitted once. *)
Definition sampled (n : Z) (buf : list inflight) : bool :=
  existsb (fun e => (sn (seg e) =? n) && (xmit e =? 1)) buf.

Definition on_ack (k : kcb) (s : segment) : kcb :=
  let k1 := if sampled (sn s) (snd_buf (tx k)) && (ts s <=? current k)
            then with_rtt k (rtt_update (cfg k) (rtt k) (current k - ts s))
            else k in
  with_tx k1 (ack_selective (sn s) (tx k1)).

(** *** Congestion controller *)

(** Modelled from the spec: window growth of the missing congestion
    controller; below the threshold one segment per newly acknowledged
    segment, at or above it about one segment per window's worth. *)
Definition grow (c : config) (acked : Z) (s : sender) : sender :=
  if acked <=? 0 then s
  else if cwnd s <? ssthresh s
  then {| snd_una := snd_una s; snd_nxt := snd_nxt s; snd_queue := snd_queue s;
          snd_buf := snd_buf s; rmt_wnd := rmt_wnd s;
          cwnd := cwnd s + acked; ssthresh := ssthresh s;
          incr := (cwnd s + acked) * mss c |}
  else let i := incr s + acked * (mss c * mss c / incr s) in
       {| snd_una := snd_una s; snd_nxt := snd_nxt s; snd_queue := snd_queue s;
          snd_buf := snd_buf s; rmt_wnd := rmt_wnd s;
          cwnd := Z.max (cwnd s) (i / mss c); ssthresh := ssthresh s;
          incr := i |}.

(** Modelled from the spec: loss reaction of the missing congestion
    controller; the threshold drops to half the window, the window to its
    minimum after a timeout and to half after a fast retransmit; nothing
    happens when congestion control is disabled. *)
Definition on_loss (c : config) (timeout fast : bool) (s : sender) : sender :=
  if negb (nocwnd c =? 0) then s
  else if timeout
  then {| snd_una := snd_una s; snd_nxt := snd_nxt s; snd_queue := snd_queue s;
          snd_buf := snd_buf s; rmt_wnd := rmt_wnd s;
          cwnd := 1; ssthresh := Z.max SSTHRESH_MIN (cwnd s / 2);
          incr := mss c |}
  else if fast
  then {| snd_una := snd_una s; snd_nxt := snd_nxt s; snd_queue := snd_queue s;
          snd_buf := snd_buf s; rmt_wnd := rmt_wnd s;
          cwnd := Z.max 1 (cwnd s / 2); ssthresh := Z.max SSTHRESH_MIN (cwnd s / 2);
          incr := Z.max 1 (cwnd s / 2) * mss c |}
  else s.

(** The number of segments that may be outstanding: the smaller of the
    local send window and the peer's advertised window, and of the
    congestion window when congestion control is enabled. *)
Definition window (c : config) (s : sender) : Z :=
  let w := Z.min (snd_wnd c) (rmt_wnd s) in
  if nocwnd c =? 0 then Z.min (cwnd s) w else w.

(** *** Receive reassembler *)

Definition wnd_unused (k : kcb) : Z :=
  Z.max 0 (rcv_wnd (cfg k) - Z.of_nat (length (rcv_frags (rx k)))
           - Z.of_nat (length (rcv_queue (rx k)))).

(** The receive buffer is ordered by sequence number and holds each
    sequence number once. *)
Fixpoint insert (s : segment) (buf : list segment) : list segment :=
  match buf with
  | [] => [s]
  | x :: rest =>
      if sn s <? sn x then s :: buf
      else if sn s =? sn x then buf
      else x :: insert s rest
  end.

(** The run of the receive buffer that starts at [rcv_nxt] leaves it;
    a fragment with count 0 completes the message made of the fragments
    gathered so far, which joins the receive queue. *)
Fixpoint drain (buf : list segment) (r : receiver) : receiver :=
  match buf with
  | s :: rest =>
      if sn s =? rcv_nxt r then
        if frg s =? 0 then
          drain rest {| rcv_nxt := rcv_nxt r + 1; rcv_buf := rcv_buf r;
                        rcv_frags := [];
                        rcv_queue := rcv_queue r
                                     ++ [concat (map payload (rcv_frags r ++ [s]))];
                        acklist := acklist r |}
        else
          drain rest {| rcv_nxt := rcv_nxt r + 1; rcv_buf := rcv_buf r;
                        rcv_frags := rcv_frags r ++ [s];
                        rcv_queue := rcv_queue r; acklist := acklist r |}
      else {| rcv_nxt := rcv_nxt r; rcv_buf := buf; rcv_frags := rcv_frags r;
              rcv_queue := rcv_queue r; acklist := acklist r |}
  | [] => {| rcv_nxt := rcv_nxt r; rcv_buf := []; rcv_frags := rcv_frags r;
             rcv_queue := rcv_queue r; acklist := acklist r |}
  end.

Definition note_ack (r : receiver) (a : Z * Z) : receiver :=
  {| rcv_nxt := rcv_nxt r; rcv_buf := rcv_buf r; rcv_frags := rcv_frags r;
     rcv_queue := rcv_queue r; acklist := acklist r ++ [a] |}.

(** Modelled from the spec: arrival of a data segment at the missing
    receive reassembler; past capacity it is neither stored nor
    acknowledged, below [rcv_nxt] it is a duplicate and only acknowledged
    again. *)
Definition on_push (k : kcb) (s : segment) : kcb :=
  if sn s <? rcv_nxt (rx k) + wnd_unused k then
    let r := note_ack (rx k) (sn s, ts s) in
    if rcv_nxt r <=? sn s
    then with_rx k (drain (insert s (rcv_buf r)) r)
    else with_rx k r
  else k.

(** Modelled from the spec: [input] of the missing engine; a malformed
    datagram is dropped; otherwise the peer's window is recorded, the
    command is applied, then the cumulative acknowledgment, and the
    congestion window grows by what was newly acknowledged. *)
Definition input (k : kcb) (b : bytes) : kcb * Z :=
  match decode (conv_id k) b with
  | None => (k, -1)
  | Some s =>
      let t := tx k in
      let k1 := with_tx k {| snd_una := snd_una t; snd_nxt := snd_nxt t;
                             snd_queue := snd_queue t; snd_buf := snd_buf t;
                             rmt_wnd := wnd s; cwnd := cwnd t;
                             ssthresh := ssthresh t; incr := incr t |} in
      let k2 := match cmd s with
                | ACK => on_ack k1 s
                | PUSH => on_push k1 s
                | WASK => with_probe k1 (ts_probe k1) true
                | WINS => k1
                end in
      let t3 := ack_cumulative (una s) (tx k2) in
      (with_tx k2 (grow (cfg k2) (snd_una t3 - snd_una t) t3), 0)
  end.

(** *** Session clock: flush and tick *)

Definition blank (k : kcb) (c : command) : segment :=
  {| conv := conv_id k; cmd := c; frg := 0; wnd := wnd_unused k; ts := 0;
     sn := 0; una := rcv_nxt (rx k); payload := [] |}.

Definition ack_segment (k : kcb) (a : Z * Z) : segment :=
  {| conv := conv_id k; cmd := ACK; frg := 0; wnd := wnd_unused k;
     ts := snd a; sn := fst a; una := rcv_nxt (rx k); payload := [] |}.

Fixpoint number (nxt : Z) (l : list segment) : list inflight :=
  match l with
  | [] => []
  | s :: rest =>
      {| seg := {| conv := conv s; cmd := cmd s; frg := frg s; wnd := wnd s;
                   ts := ts s; sn := nxt; una := una s; payload := payload s |};
         resendts := 0; rto := 0; fastack := 0; xmit := 0 |}
      :: number (nxt + 1) rest
  end.

Inductive reason : Type := First | Timeout | Fast | Idle.

Definition why (k : kcb) (e : inflight) : reason :=
  if xmit e =? 0 then First
  else if resendts e <=? current k then Timeout
  else if (0 <? fastresend (cfg k)) && (fastresend (cfg k) <=? fastack e) then Fast
  else Idle.

Definition stamp (k : kcb) (s : segment) : segment :=
  {| conv := conv s; cmd := cmd s; frg := frg s; wnd := wnd_unused k;
     ts := current k; sn := sn s; una := rcv_nxt (rx k); payload := payload s |}.

(** The deadline of a first transmission is one RTO away, plus an eighth
    unless nodelay is on; each timeout multiplies the RTO by the number of
    transmissions, up to [BACKOFF_MAX]. *)
Definition resend (k : kcb) (e : inflight) : inflight :=
  match why k e with
  | First =>
      let r := rx_rto (rtt k) in
      let d := if nodelay (cfg k) =? 0 then r / 8 else 0 in
      {| seg := stamp k (seg e); resendts := current k + r + d; rto := r;
         fastack := 0; xmit := 1 |}
  | Timeout =>
      let r := rx_rto (rtt k) * Z.min (xmit e + 1) BACKOFF_MAX in
      {| seg := stamp k (seg e); resendts := current k + r; rto := r;
         fastack := 0; xmit := xmit e + 1 |}
  | Fast =>
      {| seg := stamp k (seg e); resendts := current k + rto e; rto := rto e;
         fastack := 0; xmit := xmit e + 1 |}
  | Idle => e
  end.

Definition is_idle (r : reason) : bool :=
  match r with Idle => true | _ => false end.
Definition is_timeout (r : reason) : bool :=
  match r with Timeout => true | _ => false end.
Definition is_fast (r : reason) : bool :=
  match r with Fast => true | _ => false end.

Definition transmissions (k : kcb) (buf : list inflight) : list segment :=
  map (fun e => seg (resend k e)) (filter (fun e => negb (is_idle (why k e))) buf).

(** One datagram per segment; a segment the codec refuses is not sent. *)
Definition wire (mss : Z) (l : list segment) : list bytes :=
  flat_map (fun s => match encode mss s with Some b => [b] | None => [] end) l.

(** Modelled from the spec: [flush] of the missing session clock; pending
    acknowledgments, the answer to a window probe, a window probe while
    the peer advertises no room, then the queued segments the window lets
    through and every in-flight segment that is due. *)
Definition flush (k : kcb) : kcb * list bytes :=
  let c := cfg k in
  let s := tx k in
  let acks := map (ack_segment k) (acklist (rx k)) in
  let tell := if probe_tell k then [blank k WINS] else [] in
  let ask := (rmt_wnd s =? 0) && (ts_probe k <=? current k) in
  let probes := if ask then [blank k WASK] else [] in
  let tp := if rmt_wnd s =? 0
            then (if ask then current k + PROBE_WAIT else ts_probe k)
            else 0 in
  let room := Z.to_nat (snd_una s + window c s - snd_nxt s) in
  let fresh := number (snd_nxt s) (firstn room (snd_queue s)) in
  let buf := snd_buf s ++ fresh in
  let s' := on_loss c
              (existsb (fun e => is_timeout (why k e)) buf)
              (existsb (fun e => is_fast (why k e)) buf)
              (set_buf {| snd_una := snd_una s;
                          snd_nxt := snd_nxt s + Z.of_nat (length fresh);
                          snd_queue := skipn room (snd_queue s);
                          snd_buf := snd_buf s; rmt_wnd := rmt_wnd s;
                          cwnd := cwnd s; ssthresh := ssthresh s;
                          incr := incr s |}
                       (map (resend k) buf)) in
  let r := rx k in
  (with_rx (with_tx (with_probe k tp false) s')
           {| rcv_nxt := rcv_nxt r; rcv_buf := rcv_buf r;
              rcv_frags := rcv_frags r; rcv_queue := rcv_queue r;
              acklist := [] |},
   wire (mss c) (acks ++ tell ++ probes ++ transmissions k buf)).

(** Modelled from the spec: [on_tick(now)] of the missing session clock;
    time advances and a flush follows. *)
Definition update (k : kcb) (now : Z) : kcb * list bytes :=
  flush (with_current k now).

(** Modelled from the spec: [time_until_next_action(now)] of the missing
    session clock; the earliest retransmit or window-probe deadline, and
    at the latest one interval from now. *)
Definition check (k : kcb) (now : Z) : Z :=
  let deadlines := map resendts (snd_buf (tx k))
                   ++ (if rmt_wnd (tx k) =? 0 then [ts_probe k] else []) in
  Z.max now (fold_right Z.min (now + interval (cfg k)) deadlines).

(** *** Drain *)

Definition peeksize (k : kcb) : Z :=
  match rcv_queue (rx k) with
  | m :: _ => len m
  | [] => -1
  end.

(** Modelled from the spec: [receive() -> message or empty] of the missing
    engine; the oldest reassembled message leaves the receive queue. *)
Definition recv (k : kcb) : kcb * option bytes :=
  let r := rx k in
  match rcv_queue r with
  | m :: q =>
      (with_rx k {| rcv_nxt := rcv_nxt r; rcv_buf := rcv_buf r;
                    rcv_frags := rcv_frags r; rcv_queue := q;
                    acklist := acklist r |}, Some m)
  | [] => (k, None)
  end.

(** *** Configuration *)

Definition keep_or (old new : Z) : Z := if 0 <=? new then new else old.

(** Modelled from the spec: the runtime tunables of the missing engine
    ([ikcp_nodelay]); a negative argument leaves its tunable as it is. *)
Definition set_nodelay (k : kcb) (n i r nc : Z) : kcb :=
  let c := cfg k in
  with_cfg k {| mtu := mtu c; mss := mss c; snd_wnd := snd_wnd c;
                rcv_wnd := rcv_wnd c;
                nodelay := keep_or (nodelay c) n;
                interval := keep_or (interval c) i;
                fastresend := keep_or (fastresend c) r;
                nocwnd := keep_or (nocwnd c) nc |}.

(** Modelled from the spec: the window sizes of the missing engine
    ([ikcp_wndsize]); 0 leaves a window as it is, a negative size is
    configuration misuse, reported with -1. *)
Definition set_wndsize (k : kcb) (s r : Z) : kcb * Z :=
  if (s <? 0) || (r <? 0) then (k, -1)
  else
    let c := cfg k in
    (with_cfg k {| mtu := mtu c; mss := mss c;
                   snd_wnd := if 0 <? s then s else snd_wnd c;
                   rcv_wnd := if 0 <? r then r else rcv_wnd c;
                   nodelay := nodelay c; interval := interval c;
                   fastresend := fastresend c; nocwnd := nocwnd c |}, 0).

(** Modelled from the spec: the maximum segment size of the missing engine
    is the MTU minus the header size ([ikcp_setmtu]); an MTU that leaves
    no room for payload is configuration misuse, reported with -1. *)
Definition set_mtu (k : kcb) (m : Z) : kcb * Z :=
  if m <=? OVERHEAD then (k, -1)
  else
    let c := cfg k in
    (with_cfg k {| mtu := m; mss := m - OVERHEAD; snd_wnd := snd_wnd c;
                   rcv_wnd := rcv_wnd c; nodelay := nodelay c;
                   interval := interval c; fastresend := fastresend c;
                   nocwnd := nocwnd c |}, 0).

Definition waitsnd (k : kcb) : Z :=
  Z.of_nat (length (snd_buf (tx k)) + length (snd_queue (tx k))).

(** *** The functions of [<ikcp.h>] over the model *)

Definition emit (out : list bytes) : list emission :=
  map (fun b => (b, len b)) out.

(** [ikcp_recv(kcp, buffer, len)]: -1 when nothing is receivable, -3 when
    the buffer is too small; otherwise the message is stored at the start
    of the buffer and its length returned. *)
Definition recv_into (k : kcb) (buffer : bytes) (n : Z) : kcb * bytes * Z :=
  match rcv_queue (rx k) with
  | [] => (k, buffer, -1)
  | m :: _ =>
      if n <? len m then (k, buffer, -3)
      else (fst (recv k), m ++ skipn (length m) buffer, len m)
  end.

(** [ikcp_send(kcp, buffer, len)]: the message is the first [len] bytes
    of the buffer; a negative length is refused with -1. *)
Definition send_from (k : kcb) (buffer : bytes) (n : Z) : kcb * Z :=
  if n <? 0 then (k, -1) else (send k (firstn (Z.to_nat n) buffer), 0).

Definition input_from (k : kcb) (buffer : bytes) (n : Z) : kcb * list emission * Z :=
  let '(k', r) := input k (firstn (Z.to_nat n) buffer) in (k', [], r).

End Core.

#[export] Instance core : Engine := {|
  ikcpcb := Core.kcb;
  ikcp_create := Core.create;
  ikcp_input := Core.input_from;
  ikcp_peeksize := Core.peeksize;
  ikcp_recv := Core.recv_into;
  ikcp_send := Core.send_from;
  ikcp_update := fun k t => let '(k', out) := Core.update k t in (k', Core.emit out);
  ikcp_flush := fun k => let '(k', out) := Core.flush k in (k', Core.emit out);
  ikcp_check := Core.check;
  ikcp_setmtu := Core.set_mtu;
  ikcp_wndsize := Core.set_wndsize;
  ikcp_waitsnd := Core.waitsnd;
  ikcp_nodelay := fun k n i r nc => (Core.set_nodelay k n i r nc, 0)
|}.

(** ** Vocabulary of the statements *)

Section Vocabulary.
Context {E : Engine}.

(** What the sink [g] is handed for the engine's calls [out]. *)
Definition sink_calls (g : callable) (out : list emission) : list event :=
  map (fun e => Output g (fst e) (to_SizeType (snd e))) out.

(** A call of a [const] method: it reads the object and leaves the process
    as it is. *)
Definition const_call {A} (f : KCPSession -> A) : M A :=
  fun p => (Returns (f (this p)), p).

(** The size [ikcp_recv] reports for the next message equals the size
    [ikcp_peeksize] announced for it, whatever the buffer holds. *)
Definition consistent (k : ikcpcb) : Prop :=
  forall buffer, snd (ikcp_recv k buffer (ikcp_peeksize k)) = ikcp_peeksize k.

(** The public methods, as a caller may invoke them one after the other. *)
Inductive call : Type :=
| CallSetAsyncMode (AsyncMode : bool)
| CallSetReceiveCallback (f : receiveCallback)
| CallSetOutputFunction (f : OutputFunction)
| CallInput (data : bytes) (size : Z)
| CallReceive
| CallSend (data : bytes) (size : Z)
| CallUpdate (currentTimestamp : Z)
| CallFlush
| CallSetMTU (mtu : Z)
| CallSetMaxSendWindowSize (sendWindow : Z)
| CallSetMaxReceiveWindowSize (receiveWindow : Z)
| CallSetProperties (nodelay : bool) (internalInterval fastResendThreshold : Z)
    (congestionControl : bool).

Definition perform (c : call) : M unit :=
  match c with
  | CallSetAsyncMode b => setAsyncMode b
  | CallSetReceiveCallback f => setReceiveCallback f
  | CallSetOutputFunction f => setOutputFunction f
  | CallInput d n => input d n
  | CallReceive => receive ;;; ret tt
  | CallSend d n => send d n
  | CallUpdate t => update t
  | CallFlush => flush
  | CallSetMTU m => setMTU m
  | CallSetMaxSendWindowSize w => setMaxSendWindowSize w
  | CallSetMaxReceiveWindowSize w => setMaxReceiveWindowSize w
  | CallSetProperties n i r c => setProperties n i r c
  end.

(** A caller that catches whatever a method throws and goes on; a failed
    assertion ends the process. *)
Fixpoint run (l : list call) (p : process) : outcome unit * process :=
  match l with
  | [] => (Returns tt, p)
  | c :: rest =>
      match perform c p with
      | (Aborts, p') => (Aborts, p')
      | (_, p') => run rest p'
      end
  end.

Definition installs_output (c : call) : bool :=
  match c with CallSetOutputFunction _ => true | _ => false end.

Definition is_output (e : event) : bool :=
  match e with Output _ _ _ => true | Receive _ _ => false end.

Definition is_receive (e : event) : bool :=
  match e with Receive _ _ => true | Output _ _ _ => false end.

(** The engine's calls of [kcp->output] during a method. *)
Definition engine_output (c : call) (s : KCPSession) : list emission :=
  match c with
  | CallInput d n => snd (fst (ikcp_input (mKcp s) d (to_long n)))
  | CallUpdate t => snd (ikcp_update (mKcp s) t)
  | CallFlush => snd (ikcp_flush (mKcp s))
  | _ => []
  end.

(** The calls with which a session sends and receives. *)
Definition transfers (c : call) : bool :=
  match c with
  | CallInput _ _ | CallSend _ _ | CallUpdate _ | CallFlush => true
  | _ => false
  end.

(** What the sink was handed, as byte sequences with their lengths. *)
Definition outputs (tr : list event) : list emission :=
  flat_map (fun e => match e with
                     | Output _ buf n => [(buf, n)]
                     | Receive _ _ => []
                     end) tr.

(** The part of the trace a method added. *)
Definition added (p p' : process) : list event :=
  skipn (length (trace p)) (trace p').

(** Every byte sequence in [l] is fed into [input]. *)
Fixpoint feed (l : list emission) : M unit :=
  match l with
  | [] => ret tt
  | (buf, n) :: rest => input buf n ;;; feed rest
  end.

(** One exchange between two sessions at time [t]: A ticks and what its
    sink was handed goes into B's input; B ticks and what its sink was
    handed goes into A's input. *)
Definition round (t : Z) (ab : process * process) : option (process * process) :=
  let '(a, b) := ab in
  match update t a with
  | (Returns _, a1) =>
      match feed (outputs (added a a1)) b with
      | (Returns _, b1) =>
          match update t b1 with
          | (Returns _, b2) =>
              match feed (outputs (added b1 b2)) a1 with
              | (Returns _, a2) => Some (a2, b2)
              | _ => None
              end
          | _ => None
          end
      | _ => None
      end
  | _ => None
  end.

Fixpoint rounds (ticks : list Z) (ab : process * process) : option (process * process) :=
  match ticks with
  | [] => Some ab
  | t :: rest =>
      match round t ab with
      | Some ab' => rounds rest ab'
      | None => None
      end
  end.

(** A session is quiescent when a tick hands nothing to its sink. *)
Definition quiescent (p : process) : Prop :=
  forall t, is_IUINT32 t ->
    exists p', update t p = (Returns tt, p') /\ added p p' = [].

End Vocabulary.

(** The tunables of an engine, as far as they can be observed, and what
    [<ikcp.h>] promises about the arguments the wrapper passes for "leave
    as it is": a negative argument of [ikcp_nodelay], a zero argument of
    [ikcp_wndsize].  An argument that is not negative is put in force; for
    the interval an engine may do so only within bounds of its own,
    [interval_min] and [interval_max]. *)
Class Tunables (E : Engine) : Type := {
  get_nodelay : ikcpcb -> Z;
  get_interval : ikcpcb -> Z;
  get_fastresend : ikcpcb -> Z;
  get_nocwnd : ikcpcb -> Z;
  get_snd_wnd : ikcpcb -> Z;
  get_rcv_wnd : ikcpcb -> Z;
  interval_min : Z;
  interval_max : Z
}.

Record keeps_unchanged (E : Engine) (T : Tunables E) : Prop := {
  nodelay_kept : forall k n i r c, n < 0 ->
    get_nodelay (fst (ikcp_nodelay k n i r c)) = get_nodelay k;
  interval_kept : forall k n i r c, i < 0 ->
    get_interval (fst (ikcp_nodelay k n i r c)) = get_interval k;
  fastresend_kept : forall k n i r c, r < 0 ->
    get_fastresend (fst (ikcp_nodelay k n i r c)) = get_fastresend k;
  nocwnd_kept : forall k n i r c, c < 0 ->
    get_nocwnd (fst (ikcp_nodelay k n i r c)) = get_nocwnd k;
  nodelay_set : forall k n i r c, 0 <= n ->
    get_nodelay (fst (ikcp_nodelay k n i r c)) = n;
  fastresend_set : forall k n i r c, 0 <= r ->
    get_fastresend (fst (ikcp_nodelay k n i r c)) = r;
  nocwnd_set : forall k n i r c, 0 <= c ->
    get_nocwnd (fst (ikcp_nodelay k n i r c)) = c;
  snd_wnd_kept : forall k r,
    get_snd_wnd (fst (ikcp_wndsize k 0 r)) = get_snd_wnd k;
  rcv_wnd_kept : forall k s,
    get_rcv_wnd (fst (ikcp_wndsize k s 0)) = get_rcv_wnd k;
  interval_set : forall k n i r c, interval_min <= i <= interval_max ->
    get_interval (fst (ikcp_nodelay k n i r c)) = i
}.

#[export] Instance core_tunables : Tunables core := {|
  get_nodelay := fun k => Core.nodelay (Core.cfg k);
  get_interval := fun k => Core.interval (Core.cfg k);
  get_fastresend := fun k => Core.fastresend (Core.cfg k);
  get_nocwnd := fun k => Core.nocwnd (Core.cfg k);
  get_snd_wnd := fun k => Core.snd_wnd (Core.cfg k);
  get_rcv_wnd := fun k => Core.rcv_wnd (Core.cfg k);
  interval_min := 0;
  interval_max := INT_MAX
|}.

(** An engine in the state the comment in [receive] describes:
    [ikcp_recv] reports one byte while [ikcp_peeksize] announced two. *)
Definition torn : Engine := {|
  ikcpcb := unit;
  ikcp_create := fun _ => tt;
  ikcp_input := fun k _ _ => (k, [], 0);
  ikcp_peeksize := fun _ => 2;
  ikcp_recv := fun k buffer _ => (k, buffer, 1);
  ikcp_send := fun k _ _ => (k, 0);
  ikcp_update := fun k _ => (k, []);
  ikcp_flush := fun k => (k, []);
  ikcp_check := fun _ t => t;
  ikcp_setmtu := fun k _ => (k, 0);
  ikcp_wndsize := fun k _ _ => (k, 0);
  ikcp_waitsnd := fun _ => 0;
  ikcp_nodelay := fun k _ _ _ _ => (k, 0)
|}.

(** ** Concrete sessions over the modelled engine *)

Definition abc : bytes := [Byte.x61; Byte.x62; Byte.x63].

(** The datagram a peer with connection identifier 7 emits at time 10 for
    the message [abc]: one data segment, sequence number 0, last
    fragment. *)
Definition abc_segment : Core.segment :=
  {| Core.conv := 7; Core.cmd := Core.PUSH; Core.frg := 0; Core.wnd := 128;
     Core.ts := 10; Core.sn := 0; Core.una := 0; Core.payload := abc |}.

Definition abc_datagram : bytes := Core.header abc_segment ++ abc.

(** The same for the empty message. *)
Definition empty_segment : Core.segment :=
  {| Core.conv := 7; Core.cmd := Core.PUSH; Core.frg := 0; Core.wnd := 128;
     Core.ts := 10; Core.sn := 0; Core.una := 0; Core.payload := [] |}.

Definition empty_datagram : bytes := Core.header empty_segment.

(** A message of [2^31] bytes, one more than an [int] can count. *)
Definition two_gib : bytes := repeat Byte.x00 (Z.to_nat (2 ^ 31)).

(** Two callables, for the sink and for the receive callback. *)
Definition sink : callable := 1%nat.
Definition callback : callable := 2%nat.

(** A session with a sink, and one that polls with [receive]. *)
Definition sender_session (conv : Z) (indeterminate : bool) (g : callable) : process :=
  snd (setOutputFunction (Some g) (start (new_KCPSession conv indeterminate))).

Definition polling_session (conv : Z) (indeterminate : bool) (g : callable) : process :=
  snd ((setOutputFunction (Some g) ;;; setAsyncMode false)
         (start (new_KCPSession conv indeterminate))).

Definition async_session (conv : Z) (indeterminate : bool) (g f : callable) : process :=
  snd ((setOutputFunction (Some g) ;;; setReceiveCallback (Some f) ;;; setAsyncMode true)
         (start (new_KCPSession conv indeterminate))).

(** The polling session once the datagrams have gone through [input]. *)
Definition abc_arrived : process :=
  snd (input abc_datagram 27 (polling_session 7 false sink)).

Definition empty_arrived : process :=
  snd (input empty_datagram 24 (polling_session 7 false sink)).

(** A session over the torn engine. *)
Definition torn_session : @process torn :=
  @start torn (@new_KCPSession torn 7 false).

(** ** Frames of the monad *)

Section Frames.
Context {E : Engine}.

(** The process [recv] leaves: the engine's new control block, one more
    block handed out. *)
Definition after_recv (p : process) (k : ikcpcb) : process :=
  {| this := {| mKcp := k; mOutputFunc := mOutputFunc (this p);
                mAsyncMode := mAsyncMode (this p);
                mReceiveFunc := mReceiveFunc (this p) |};
     brk := S (brk p);
     trace := trace p |}.

Definition with_mKcp (p : process) (k : ikcpcb) : process :=
  {| this := {| mKcp := k; mOutputFunc := mOutputFunc (this p);
                mAsyncMode := mAsyncMode (this p);
                mReceiveFunc := mReceiveFunc (this p) |};
     brk := brk p;
     trace := trace p |}.

(** [m] relates every process it starts in to the one it leaves. *)
Definition preserves (R : process -> process -> Prop) {A} (m : M A) : Prop :=
  forall p, R p (snd (m p)).

(** The sink stays as it is, and while there is none it is never invoked. *)
Definition sink_untouched (p p' : process) : Prop :=
  mOutputFunc (this p') = mOutputFunc (this p)
  /\ (mOutputFunc (this p) = None ->
      filter is_output (trace p') = filter is_output (trace p)).

(** While async mode is off it stays off and the receive callback is not
    invoked. *)
Definition sync_kept (p p' : process) : Prop :=
  mAsyncMode (this p) = false ->
  mAsyncMode (this p') = false
  /\ filter is_receive (trace p') = filter is_receive (trace p).

(** The engine's control block a method leaves behind. *)
Definition engine_after (m : M unit) (p : process) : ikcpcb :=
  mKcp (this (snd (m p))).

End Frames.

(** ** Vocabulary of the round trip *)

(** A segment whose fields fit their widths on the wire. *)
Definition wire_ok (s : Core.segment) : Prop :=
  0 <= Core.conv s < 2 ^ 32 /\ 0 <= Core.frg s < 2 ^ 8 /\ 0 <= Core.wnd s < 2 ^ 16
  /\ 0 <= Core.ts s < 2 ^ 32 /\ 0 <= Core.sn s < 2 ^ 32 /\ 0 <= Core.una s < 2 ^ 32
  /\ len (Core.payload s) < 2 ^ 32.

(** The datagram of a segment that fits the maximum segment size. *)
Definition enc (s : Core.segment) : bytes := Core.header s ++ Core.payload s.

(** The datagrams of [l] go through the engine's [input] one after the
    other. *)
Definition inputs (K : Core.kcb) (l : list bytes) : Core.kcb :=
  fold_left (fun K b => fst (Core.input K b)) l K.

(** The segments the window lets through at a flush. *)
Definition promoted (K : Core.kcb) : list Core.inflight :=
  Core.number (Core.snd_nxt (Core.tx K))
    (firstn (Z.to_nat (Core.snd_una (Core.tx K)
                       + Core.window (Core.cfg K) (Core.tx K)
                       - Core.snd_nxt (Core.tx K)))
       (Core.snd_queue (Core.tx K))).

(** A message is within the configured limits when its fragments fit the
    receive window. *)
Definition within_limits (m : bytes) : Prop :=
  Core.fragment_count (Core.mss Core.default_config) m
  <= Core.rcv_wnd Core.default_config.

(** The process [p] holds the engine [K] and has the sink [g]. *)
Definition hosts (g : callable) (K : Core.kcb) (p : @process core) : Prop :=
  mKcp (this p) = K /\ mOutputFunc (this p) = Some g.

Definition idle_receiver : Core.receiver :=
  {| Core.rcv_nxt := 0; Core.rcv_buf := []; Core.rcv_frags := [];
     Core.rcv_queue := []; Core.acklist := [] |}.

Section Trip.
Variables (c : Z) (m : bytes).

(** The fragments of the message [m] on a session with connection
    identifier [c] and the default configuration. *)
Definition pieces : list bytes := Core.fragments (Core.mss Core.default_config) m.
Definition count : nat := length pieces.

(** Fragment [i] as it waits in the send queue, as the sender transmits
    it at time [t], and the acknowledgment [a] of a receiver that
    advertises the window [w] and expects [u] next. *)
Definition queued (i : nat) : Core.segment :=
  {| Core.conv := c; Core.cmd := Core.PUSH; Core.frg := Z.of_nat (count - 1 - i);
     Core.wnd := 0; Core.ts := 0; Core.sn := 0; Core.una := 0;
     Core.payload := nth i pieces [] |}.

Definition data_segment (t : Z) (i : nat) : Core.segment :=
  {| Core.conv := c; Core.cmd := Core.PUSH; Core.frg := Z.of_nat (count - 1 - i);
     Core.wnd := 128; Core.ts := t; Core.sn := Z.of_nat i; Core.una := 0;
     Core.payload := nth i pieces [] |}.

Definition ack_of (w u : Z) (a : Z * Z) : Core.segment :=
  {| Core.conv := c; Core.cmd := Core.ACK; Core.frg := 0; Core.wnd := w;
     Core.ts := snd a; Core.sn := fst a; Core.una := u; Core.payload := [] |}.

(** What the receiver advertises with [k] fragments taken in. *)
Definition advertised (k : nat) : Z :=
  if (k <? count)%nat then 128 - Z.of_nat k else 127.

(** The sending engine with the first [k] fragments promoted and what is
    still in flight below [k]; and with nothing in flight. *)
Definition sender_mid (k : nat) (A : Core.kcb) : Prop :=
  Core.conv_id A = c /\ Core.cfg A = Core.default_config
  /\ Core.rx A = idle_receiver /\ Core.probe_tell A = false
  /\ Core.snd_nxt (Core.tx A) = Z.of_nat k
  /\ Core.snd_queue (Core.tx A) = map queued (seq k (count - k))
  /\ Forall (fun e => Core.sn (Core.seg e) < Z.of_nat k) (Core.snd_buf (Core.tx A))
  /\ 1 <= Core.cwnd (Core.tx A).

Definition sender_at (k : nat) (A : Core.kcb) : Prop :=
  sender_mid k A /\ Core.snd_buf (Core.tx A) = []
  /\ Core.snd_una (Core.tx A) = Z.of_nat k /\ 1 <= Core.rmt_wnd (Core.tx A) < 2 ^ 16.

(** The receiving engine with the first [k] fragments taken in and the
    acknowledgments [acks] pending. *)
Definition receiver_at (k : nat) (acks : list (Z * Z)) (B : Core.kcb) : Prop :=
  Core.conv_id B = c /\ Core.cfg B = Core.default_config
  /\ Core.probe_tell B = false
  /\ Core.snd_queue (Core.tx B) = [] /\ Core.snd_buf (Core.tx B) = []
  /\ 1 <= Core.rmt_wnd (Core.tx B)
  /\ Core.rcv_nxt (Core.rx B) = Z.of_nat k /\ Core.rcv_buf (Core.rx B) = []
  /\ Core.acklist (Core.rx B) = acks
  /\ ((k < count)%nat /\ map Core.payload (Core.rcv_frags (Core.rx B)) = firstn k pieces
      /\ Core.rcv_queue (Core.rx B) = []
      \/ k = count /\ Core.rcv_frags (Core.rx B) = [] /\ Core.rcv_queue (Core.rx B) = [m]).

(** The two sessions between exchanges. *)
Definition sending (k : nat) (g : callable) (p : @process core) : Prop :=
  mOutputFunc (this p) = Some g /\ sender_at k (mKcp (this p)).

Definition polling (k : nat) (g : callable) (p : @process core) : Prop :=
  mOutputFunc (this p) = Some g /\ mAsyncMode (this p) = false
  /\ receiver_at k [] (mKcp (this p)).

End Trip.

(** The invocations of the receive callback in a trace. *)
Definition delivered (p : @process core) : list event :=
  filter is_receive (trace p).

Section TripAsync.
Variables (c : Z) (m : bytes).

(** The receiving engine once the message has been taken out of it. *)
Definition receiver_done (acks : list (Z * Z)) (B : Core.kcb) : Prop :=
  Core.conv_id B = c /\ Core.cfg B = Core.default_config
  /\ Core.probe_tell B = false
  /\ Core.snd_queue (Core.tx B) = [] /\ Core.snd_buf (Core.tx B) = []
  /\ 1 <= Core.rmt_wnd (Core.tx B)
  /\ Core.rcv_nxt (Core.rx B) = Z.of_nat (count m) /\ Core.rcv_buf (Core.rx B) = []
  /\ Core.acklist (Core.rx B) = acks
  /\ Core.rcv_frags (Core.rx B) = [] /\ Core.rcv_queue (Core.rx B) = [].

(** The packet that carries the message in the block [b]. *)
Definition carries (b : nat) : Packet :=
  {| data := Some {| block := b; contents := m |}; size := len m |}.

(** Session B in async mode with the receive callback [f]: until the last
    fragment is in, nothing has been delivered and the next block is
    [b0]; from then on the callback has been handed the message, once,
    in the block [b0], and the engine holds it no more. *)
Definition calling (k : nat) (acks : list (Z * Z)) (g f : callable) (b0 : nat)
    (p : @process core) : Prop :=
  mOutputFunc (this p) = Some g /\ mAsyncMode (this p) = true
  /\ mReceiveFunc (this p) = Some f
  /\ ((k < count m)%nat /\ receiver_at c m k acks (mKcp (this p))
      /\ brk p = b0 /\ delivered p = []
      \/ k = count m /\ receiver_done acks (mKcp (this p))
         /\ delivered p = [Receive f (carries b0)]).

End TripAsync.

(** ** Vocabulary of the session invariants *)

Definition sets_mode (c : call) : bool :=
  match c with CallSetAsyncMode _ => true | _ => false end.

Definition sets_callback (c : call) : bool :=
  match c with CallSetReceiveCallback _ => true | _ => false end.

(** The calls that configure the session: the sink, the mode, the receive
    callback. *)
Definition configures (c : call) : bool :=
  installs_output c || sets_mode c || sets_callback c.

(** [setOutputFunction(nullptr)]. *)
Definition uninstalls_output (c : call) : bool :=
  match c with CallSetOutputFunction None => true | _ => false end.

(** Whether a packet carries a buffer ([data != nullptr]). *)
Definition has_data (packet : Packet) : bool :=
  match data packet with Some _ => true | None => false end.

Section Invocations.
Context {E : Engine}.

(** What the sink of [s] is handed for the engine's calls [out]; nothing
    when [out] is empty. *)
Definition handed (s : KCPSession) (out : list emission) : list event :=
  match mOutputFunc s with
  | Some g => sink_calls g out
  | None => []
  end.

(** The event is an invocation the session [s] is configured for: of its
    sink, or, in async mode, of its receive callback. *)
Definition invokes (s : KCPSession) (e : event) : Prop :=
  match e with
  | Output f _ _ => mOutputFunc s = Some f
  | Receive f _ => mAsyncMode s = true /\ mReceiveFunc s = Some f
  end.

(** The sink, the mode and the receive callback stay as they are, and
    the trace gains only invocations the session is configured for. *)
Definition configured (p p' : process) : Prop :=
  mOutputFunc (this p') = mOutputFunc (this p)
  /\ mAsyncMode (this p') = mAsyncMode (this p)
  /\ mReceiveFunc (this p') = mReceiveFunc (this p)
  /\ exists x, trace p' = trace p ++ x /\ Forall (invokes (this p)) x.

(** The engine's control block after the four calls of [ikcp_nodelay]
    that [setProperties] makes. *)
Definition after_setProperties (k : ikcpcb) (nodelay : bool)
    (internalInterval fastResendThreshold : Z) (congestionControl : bool) : ikcpcb :=
  let k1 := fst (ikcp_nodelay k (if nodelay then 1 else 0)
                   NotChanged NotChanged NotChanged) in
  let k2 := fst (ikcp_nodelay k1 NotChanged internalInterval NotChanged NotChanged) in
  let k3 := fst (ikcp_nodelay k2 NotChanged NotChanged fastResendThreshold NotChanged) in
  fst (ikcp_nodelay k3 NotChanged NotChanged NotChanged
         (if congestionControl then 0 else 1)).

End Invocations.

(** A session in async mode with a sink and no receive callback, and one
    over the torn engine in async mode with both. *)
Definition deaf_session : process :=
  snd ((setOutputFunction (Some sink) ;;; setAsyncMode true)
         (start (new_KCPSession 7 false))).

Definition torn_async_session : @process torn :=
  snd ((setOutputFunction (Some sink) ;;; setReceiveCallback (Some callback)
        ;;; setAsyncMode true)
         (@start torn (@new_KCPSession torn 7 false))).

(** * Properties *)

(** ** The integer conversions *)

Lemma to_SizeType_id (z : Z) : 0 <= z < 2 ^ 64 -> to_SizeType z = z.
Proof. intros H. unfold to_SizeType. apply Z.mod_small. exact H. Qed.

Lemma to_int_id (z : Z) : is_int z -> to_int z = z.
Proof.
  unfold is_int, to_int. intros H.
  rewrite Z.mod_small by lia. lia.
Qed.

Lemma to_long_id (z : Z) : - 2 ^ 63 <= z < 2 ^ 63 -> to_long z = z.
Proof.
  unfold to_long. intros H.
  rewrite Z.mod_small by lia. lia.
Qed.

(** An [int] converted to [SizeType] equals a size below [2^31] exactly
    when the two are the same number: a negative [int] becomes a size of
    at least [2^63]. *)
Lemma to_SizeType_eqb (r n : Z) :
  is_int r -> 0 <= n < 2 ^ 31 -> (to_SizeType r =? n) = (r =? n).
Proof.
  unfold is_int, to_SizeType. intros Hr Hn.
  destruct (Z_lt_le_dec r 0) as [Hneg | Hpos].
  - replace (r mod 2 ^ 64) with (r + 2 ^ 64).
    + destruct (Z.eqb_spec (r + 2 ^ 64) n), (Z.eqb_spec r n); try reflexivity; lia.
    + apply Z.mod_unique with (q := -1); lia.
  - rewrite Z.mod_small by lia. reflexivity.
Qed.

Lemma skipn_length_app {A} (l x : list A) : skipn (length l) (l ++ x) = x.
Proof. induction l as [| a l IH]; simpl; [reflexivity | exact IH]. Qed.

Section WrapperFacts.
Context {E : Engine}.

Lemma process_eta (p : process) :
  {| this := this p; brk := brk p; trace := trace p |} = p.
Proof. destruct p; reflexivity. Qed.

Lemma session_eta (s : KCPSession) :
  {| mKcp := mKcp s; mOutputFunc := mOutputFunc s; mAsyncMode := mAsyncMode s;
     mReceiveFunc := mReceiveFunc s |} = s.
Proof. destruct s; reflexivity. Qed.

Lemma added_app (p p' : process) (x : list event) :
  trace p' = trace p ++ x -> added p p' = x.
Proof. intros H. unfold added. rewrite H. apply skipn_length_app. Qed.

(** *** The sink adapter *)

Lemma mOutputFuncRaw_set (g : callable) (buf : bytes) (n : Z) (p : process) :
  mOutputFunc (this p) = Some g ->
  mOutputFuncRaw buf n p =
  (Returns 0, {| this := this p; brk := brk p;
                 trace := trace p ++ [Output g buf (to_SizeType n)] |}).
Proof.
  intros H. unfold mOutputFuncRaw, bind, get_this, assert, call_output, log, ret.
  rewrite H. reflexivity.
Qed.

Lemma mOutputFuncRaw_unset (buf : bytes) (n : Z) (p : process) :
  mOutputFunc (this p) = None -> mOutputFuncRaw buf n p = (Aborts, p).
Proof.
  intros H. unfold mOutputFuncRaw, bind, get_this, assert.
  rewrite H. reflexivity.
Qed.

Lemma output_calls_set (g : callable) (out : list emission) :
  forall p, mOutputFunc (this p) = Some g ->
  output_calls out p =
  (Returns tt, {| this := this p; brk := brk p;
                  trace := trace p ++ sink_calls g out |}).
Proof.
  induction out as [| [buf n] out IH]; intros p H; simpl.
  - unfold ret. rewrite app_nil_r, process_eta. reflexivity.
  - unfold bind at 1. rewrite (mOutputFuncRaw_set buf n p H).
    rewrite IH by exact H. simpl. rewrite <- app_assoc. reflexivity.
Qed.

Lemma output_calls_unset (out : list emission) (p : process) :
  mOutputFunc (this p) = None -> out <> [] -> output_calls out p = (Aborts, p).
Proof.
  intros H Hne. destruct out as [| [buf n] out]; [congruence |].
  simpl. unfold bind. rewrite (mOutputFuncRaw_unset buf n p H). reflexivity.
Qed.

Lemma output_calls_nil (p : process) : output_calls [] p = (Returns tt, p).
Proof. reflexivity. Qed.

Lemma sink_calls_lengths (g : callable) (out : list emission) :
  Forall (fun e => 0 <= snd e < 2 ^ 31) out ->
  sink_calls g out = map (fun e => Output g (fst e) (snd e)) out.
Proof.
  intros H. unfold sink_calls. apply map_ext_in. intros e He.
  rewrite Forall_forall in H. rewrite to_SizeType_id; [reflexivity |].
  specialize (H e He). lia.
Qed.

(** What [update] and [flush] do once a sink is installed. *)
Lemma flush_set (g : callable) (p : process) :
  mOutputFunc (this p) = Some g ->
  flush p =
  (Returns tt,
   {| this := {| mKcp := fst (ikcp_flush (mKcp (this p)));
                 mOutputFunc := mOutputFunc (this p);
                 mAsyncMode := mAsyncMode (this p);
                 mReceiveFunc := mReceiveFunc (this p) |};
      brk := brk p;
      trace := trace p ++ sink_calls g (snd (ikcp_flush (mKcp (this p)))) |}).
Proof.
  intros H. unfold flush, bind at 1, get_this.
  destruct (ikcp_flush (mKcp (this p))) as [k out]. simpl.
  unfold bind, set_mKcp, put_this.
  rewrite output_calls_set with (g := g) by exact H. reflexivity.
Qed.

Lemma update_set (g : callable) (t : Z) (p : process) :
  mOutputFunc (this p) = Some g ->
  update t p =
  (Returns tt,
   {| this := {| mKcp := fst (ikcp_update (mKcp (this p)) t);
                 mOutputFunc := mOutputFunc (this p);
                 mAsyncMode := mAsyncMode (this p);
                 mReceiveFunc := mReceiveFunc (this p) |};
      brk := brk p;
      trace := trace p ++ sink_calls g (snd (ikcp_update (mKcp (this p)) t)) |}).
Proof.
  intros H. unfold update, bind at 1, get_this.
  destruct (ikcp_update (mKcp (this p)) t) as [k out]. simpl.
  unfold bind, set_mKcp, put_this.
  rewrite output_calls_set with (g := g) by exact H. reflexivity.
Qed.

(** With a sink [g] installed, the adapter [mOutputFuncRaw] hands each
    buffer the engine emits to [g] once, bytes and length as they are, and
    returns 0 to the engine; [flush] and [update] therefore add to the
    trace one sink invocation per engine emission, in the engine's order,
    none merged and none repeated. *)
Lemma sink_adapter_forwards (g : callable) (p : process) (t : Z) :
  mOutputFunc (this p) = Some g ->
  (forall buf n, 0 <= n < 2 ^ 31 ->
     mOutputFuncRaw buf n p =
     (Returns 0, {| this := this p; brk := brk p;
                    trace := trace p ++ [Output g buf n] |}))
  /\ (Forall (fun e => 0 <= snd e < 2 ^ 31) (snd (ikcp_flush (mKcp (this p)))) ->
      exists p', flush p = (Returns tt, p')
        /\ mKcp (this p') = fst (ikcp_flush (mKcp (this p)))
        /\ added p p' = map (fun e => Output g (fst e) (snd e))
                            (snd (ikcp_flush (mKcp (this p)))))
  /\ (Forall (fun e => 0 <= snd e < 2 ^ 31) (snd (ikcp_update (mKcp (this p)) t)) ->
      exists p', update t p = (Returns tt, p')
        /\ mKcp (this p') = fst (ikcp_update (mKcp (this p)) t)
        /\ added p p' = map (fun e => Output g (fst e) (snd e))
                            (snd (ikcp_update (mKcp (this p)) t))).
Proof.
  intros H. split; [| split].
  - intros buf n Hn. rewrite (mOutputFuncRaw_set buf n p H).
    rewrite to_SizeType_id by lia. reflexivity.
  - intros Hout. eexists. split; [apply (flush_set p H) |].
    split; [reflexivity |].
    apply added_app. simpl. rewrite sink_calls_lengths by exact Hout. reflexivity.
  - intros Hout. eexists. split; [apply (update_set t p H) |].
    split; [reflexivity |].
    apply added_app. simpl. rewrite sink_calls_lengths by exact Hout. reflexivity.
Qed.

End WrapperFacts.

Section FrameFacts.
Context {E : Engine}.

Lemma preserves_bind (R : process -> process -> Prop) {A B} (m : M A) (k : A -> M B) :
  (forall p, R p p) ->
  (forall p q r, R p q -> R q r -> R p r) ->
  preserves R m -> (forall a, preserves R (k a)) -> preserves R (bind m k).
Proof.
  intros Hrefl Htrans Hm Hk p. unfold bind.
  specialize (Hm p). destruct (m p) as [[a | e |] p1]; simpl in *.
  - eapply Htrans; [exact Hm | apply Hk].
  - exact Hm.
  - exact Hm.
Qed.

Lemma sink_untouched_refl (p : process) : sink_untouched p p.
Proof. split; auto. Qed.

Lemma sink_untouched_trans (p q r : process) :
  sink_untouched p q -> sink_untouched q r -> sink_untouched p r.
Proof.
  intros [H1 H2] [H3 H4]. split.
  - congruence.
  - intros H. rewrite H4 by congruence. auto.
Qed.

Lemma sync_kept_refl (p : process) : sync_kept p p.
Proof. intros H. split; auto. Qed.

Lemma sync_kept_trans (p q r : process) :
  sync_kept p q -> sync_kept q r -> sync_kept p r.
Proof.
  intros H1 H2 H. destruct (H1 H) as [Hq Hqt]. destruct (H2 Hq) as [Hr Hrt].
  split; [exact Hr | congruence].
Qed.

Lemma filter_snoc_false {A} (f : A -> bool) (l : list A) (x : A) :
  f x = false -> filter f (l ++ [x]) = filter f l.
Proof. intros H. rewrite filter_app. simpl. rewrite H. apply app_nil_r. Qed.

Ltac frame_bind :=
  apply preserves_bind;
  [ apply sink_untouched_refl | apply sink_untouched_trans | | intros ].

Ltac frame_prim :=
  let p := fresh "p" in
  intros p; split; simpl; auto.

Lemma sink_untouched_output_calls (out : list emission) :
  preserves sink_untouched (output_calls out).
Proof.
  intros p. destruct (mOutputFunc (this p)) as [g |] eqn:H.
  - rewrite (output_calls_set out p H). split; simpl; [reflexivity | congruence].
  - destruct out as [| e out].
    + apply sink_untouched_refl.
    + rewrite output_calls_unset by (auto; discriminate). apply sink_untouched_refl.
Qed.

Lemma sink_untouched_set_mKcp (k : ikcpcb) : preserves sink_untouched (set_mKcp k).
Proof. frame_prim. Qed.

Lemma sink_untouched_get_this : preserves sink_untouched get_this.
Proof. frame_prim. Qed.

Lemma sink_untouched_ret {A} (a : A) : preserves sink_untouched (ret a).
Proof. frame_prim. Qed.

Lemma sink_untouched_throw {A} (e : exception) : preserves sink_untouched (@throw E A e).
Proof. frame_prim. Qed.

Lemma sink_untouched_new_array (n : Z) : preserves sink_untouched (new_array n).
Proof. frame_prim. Qed.

Lemma sink_untouched_call_receive (f : receiveCallback) (packet : Packet) :
  preserves sink_untouched (call_receive f packet).
Proof.
  destruct f as [c |]; simpl; [| apply sink_untouched_throw].
  intros p. split; simpl; [reflexivity |]. intros _.
  apply filter_snoc_false. reflexivity.
Qed.

Lemma sink_untouched_receive : preserves sink_untouched receive.
Proof.
  unfold receive. frame_bind; [apply sink_untouched_get_this |].
  destruct (hasReceivablePacket a); [| apply sink_untouched_ret].
  frame_bind; [apply sink_untouched_new_array |].
  destruct (ikcp_recv _ _ _) as [[k stored] r].
  frame_bind; [apply sink_untouched_set_mKcp |].
  destruct (negb _); [apply sink_untouched_throw | apply sink_untouched_ret].
Qed.

Lemma sink_untouched_input (d : bytes) (n : Z) : preserves sink_untouched (input d n).
Proof.
  unfold input. frame_bind; [apply sink_untouched_get_this |].
  destruct (ikcp_input _ _ _) as [[k out] r].
  frame_bind; [apply sink_untouched_set_mKcp |].
  frame_bind; [apply sink_untouched_output_calls |].
  frame_bind; [apply sink_untouched_get_this |].
  destruct (_ && _); [| apply sink_untouched_ret].
  frame_bind; [apply sink_untouched_receive | apply sink_untouched_call_receive].
Qed.

Lemma sink_untouched_engine_call {A} (f : KCPSession -> ikcpcb * A) :
  preserves sink_untouched (s <- get_this ;; let '(k, _) := f s in set_mKcp k).
Proof.
  frame_bind; [apply sink_untouched_get_this |].
  destruct (f a) as [k r]. apply sink_untouched_set_mKcp.
Qed.

Lemma sink_untouched_setPropertiesPrivate (n i r c : Z) :
  preserves sink_untouched (setPropertiesPrivate n i r c).
Proof.
  unfold setPropertiesPrivate.
  apply (sink_untouched_engine_call (fun s => ikcp_nodelay (mKcp s) n i r c)).
Qed.

Lemma sink_untouched_perform (c : call) :
  installs_output c = false -> preserves sink_untouched (perform c).
Proof.
  destruct c; simpl; intros Hc; try discriminate.
  - frame_prim.
  - frame_prim.
  - apply sink_untouched_input.
  - frame_bind; [apply sink_untouched_receive | apply sink_untouched_ret].
  - apply (sink_untouched_engine_call (fun s => ikcp_send (mKcp s) data0 (to_int size0))).
  - unfold update. frame_bind; [apply sink_untouched_get_this |].
    destruct (ikcp_update _ _) as [k out].
    frame_bind; [apply sink_untouched_set_mKcp | apply sink_untouched_output_calls].
  - unfold flush. frame_bind; [apply sink_untouched_get_this |].
    destruct (ikcp_flush _) as [k out].
    frame_bind; [apply sink_untouched_set_mKcp | apply sink_untouched_output_calls].
  - apply (sink_untouched_engine_call (fun s => ikcp_setmtu (mKcp s) mtu)).
  - apply (sink_untouched_engine_call (fun s => ikcp_wndsize (mKcp s) sendWindow 0)).
  - apply (sink_untouched_engine_call (fun s => ikcp_wndsize (mKcp s) 0 receiveWindow)).
  - unfold setProperties, setNodelay, setInternalInterval, setFastResendThreshold,
      setCongestionControl.
    repeat (frame_bind; [apply sink_untouched_setPropertiesPrivate |]).
    apply sink_untouched_setPropertiesPrivate.
Qed.

Lemma sink_untouched_run (calls : list call) :
  forallb (fun c => negb (installs_output c)) calls = true ->
  forall p, sink_untouched p (snd (run calls p)).
Proof.
  induction calls as [| c calls IH]; simpl; intros H p.
  - apply sink_untouched_refl.
  - apply andb_true_iff in H. destruct H as [Hc Hrest].
    apply negb_true_iff in Hc.
    pose proof (sink_untouched_perform c Hc p) as Hp.
    destruct (perform c p) as [[[] | e |] p1]; simpl in *.
    + eapply sink_untouched_trans; [exact Hp | apply IH; exact Hrest].
    + eapply sink_untouched_trans; [exact Hp | apply IH; exact Hrest].
    + exact Hp.
Qed.

(** An engine emission with no sink installed fails the assertion. *)
Lemma perform_unset_aborts (c : call) (p : process) :
  mOutputFunc (this p) = None ->
  engine_output c (this p) <> [] -> fst (perform c p) = Aborts.
Proof.
  intros H Hout. destruct c; simpl in Hout; try congruence; simpl.
  - unfold input, bind at 1, get_this.
    destruct (ikcp_input _ _ _) as [[k out] r]. simpl in *.
    unfold bind at 1, set_mKcp, put_this. unfold bind at 1.
    rewrite output_calls_unset by assumption. reflexivity.
  - unfold update, bind at 1, get_this.
    destruct (ikcp_update _ _) as [k out]. simpl in *.
    unfold bind, set_mKcp, put_this.
    rewrite output_calls_unset by assumption. reflexivity.
  - unfold flush, bind at 1, get_this.
    destruct (ikcp_flush _) as [k out]. simpl in *.
    unfold bind, set_mKcp, put_this.
    rewrite output_calls_unset by assumption. reflexivity.
Qed.

(** C9.  The constructor leaves [mOutputFunc] null and no method but
    [setOutputFunction] changes it: after any calls that do not install a
    sink the stored output function is still null, no sink was invoked,
    and a method during which the engine emits a segment ([input],
    [update] or [flush]) ends in the failed assertion of the adapter, not
    in a silent drop. *)
Theorem emission_before_setOutputFunction_aborts
    (conv : Z) (indeterminate : bool) (calls : list call) (c : call) :
  forallb (fun c => negb (installs_output c)) calls = true ->
  mOutputFunc (new_KCPSession conv indeterminate) = None
  /\ mOutputFunc (this (snd (run calls (start (new_KCPSession conv indeterminate))))) = None
  /\ filter is_output
       (trace (snd (run calls (start (new_KCPSession conv indeterminate))))) = []
  /\ (engine_output c
        (this (snd (run calls (start (new_KCPSession conv indeterminate))))) <> [] ->
      fst (perform c (snd (run calls (start (new_KCPSession conv indeterminate)))))
      = Aborts).
Proof.
  intros H.
  destruct (sink_untouched_run calls H (start (new_KCPSession conv indeterminate)))
    as [H1 H2].
  simpl in H1, H2. specialize (H2 eq_refl).
  split; [reflexivity |]. split; [exact H1 |]. split; [exact H2 |].
  apply perform_unset_aborts. exact H1.
Qed.

End FrameFacts.

Section ReceiveFacts.
Context {E : Engine}.

Lemma hasReceivablePacket_true (s : KCPSession) :
  0 <= ikcp_peeksize (mKcp s) -> hasReceivablePacket s = true.
Proof. intros H. unfold hasReceivablePacket. apply Z.leb_le. exact H. Qed.

Lemma hasReceivablePacket_false (s : KCPSession) :
  ikcp_peeksize (mKcp s) < 0 -> hasReceivablePacket s = false.
Proof. intros H. unfold hasReceivablePacket. apply Z.leb_gt. exact H. Qed.

Lemma nextPacketSize_some (s : KCPSession) :
  0 <= ikcp_peeksize (mKcp s) < 2 ^ 31 ->
  nextPacketSize s = ikcp_peeksize (mKcp s).
Proof.
  intros H. unfold nextPacketSize.
  destruct (Z.leb_spec 0 (ikcp_peeksize (mKcp s))); [| lia].
  apply to_SizeType_id. lia.
Qed.

Lemma nextPacketSize_none (s : KCPSession) :
  ikcp_peeksize (mKcp s) < 0 -> nextPacketSize s = 0.
Proof.
  intros H. unfold nextPacketSize.
  destruct (Z.leb_spec 0 (ikcp_peeksize (mKcp s))); [lia | reflexivity].
Qed.

Lemma receive_none (p : process) :
  ikcp_peeksize (mKcp (this p)) < 0 ->
  receive p = (Returns {| data := None; size := 0 |}, p).
Proof.
  intros H. unfold receive, bind, get_this.
  rewrite hasReceivablePacket_false by exact H. reflexivity.
Qed.

(** [receive] when a message is announced: the buffer is a new block of
    the announced size, and the comparison of the two sizes decides
    between the packet and the exception. *)
Lemma receive_some (p : process) (k : ikcpcb) (stored : bytes) (r : Z) :
  0 <= ikcp_peeksize (mKcp (this p)) < 2 ^ 31 ->
  ikcp_recv (mKcp (this p))
            (repeat Byte.x00 (Z.to_nat (ikcp_peeksize (mKcp (this p)))))
            (ikcp_peeksize (mKcp (this p))) = (k, stored, r) ->
  receive p =
  (if to_SizeType r =? ikcp_peeksize (mKcp (this p))
   then Returns {| data := Some {| block := brk p; contents := stored |};
                   size := ikcp_peeksize (mKcp (this p)) |}
   else Throws (runtime_error Messages.inconsistency),
   after_recv p k).
Proof.
  intros Hn Hrecv. unfold receive, bind at 1, get_this.
  rewrite hasReceivablePacket_true by lia.
  rewrite nextPacketSize_some by exact Hn.
  unfold bind at 1, new_array.
  rewrite to_int_id by (unfold is_int; lia).
  cbn [contents block]. rewrite Hrecv.
  unfold bind, set_mKcp, put_this, throw, ret, after_recv. simpl.
  destruct (to_SizeType r =? ikcp_peeksize (mKcp (this p))); reflexivity.
Qed.

(** [receive] when the engine is consistent and announces a message. *)
Lemma receive_consistent (p : process) :
  0 <= ikcp_peeksize (mKcp (this p)) < 2 ^ 31 ->
  consistent (mKcp (this p)) ->
  exists k stored,
    ikcp_recv (mKcp (this p))
              (repeat Byte.x00 (Z.to_nat (ikcp_peeksize (mKcp (this p)))))
              (ikcp_peeksize (mKcp (this p)))
    = (k, stored, ikcp_peeksize (mKcp (this p)))
    /\ receive p =
       (Returns {| data := Some {| block := brk p; contents := stored |};
                   size := ikcp_peeksize (mKcp (this p)) |}, after_recv p k).
Proof.
  intros Hn Hcons.
  pose proof (Hcons (repeat Byte.x00 (Z.to_nat (ikcp_peeksize (mKcp (this p))))))
    as Hr.
  destruct (ikcp_recv _ _ _) as [[k stored] r] eqn:Hrecv. simpl in Hr. subst r.
  exists k, stored. split; [reflexivity |].
  rewrite (receive_some p) with (k := k) (stored := stored)
                                (r := ikcp_peeksize (mKcp (this p)))
    by (try lia; exact Hrecv).
  rewrite to_SizeType_id by lia. rewrite Z.eqb_refl. reflexivity.
Qed.

(** C2.  [receive] on a session whose engine is consistent returns an
    empty result or a message: with no message receivable, the packet
    with null data and size 0, the process as it was; with a message
    receivable, a packet whose size is the message's length and whose
    data is what the engine stored into a block handed out by this very
    call, never before and never again. *)
Theorem receive_returns_message_or_empty (p : process) :
  is_int (ikcp_peeksize (mKcp (this p))) ->
  consistent (mKcp (this p)) ->
  (ikcp_peeksize (mKcp (this p)) < 0 ->
   receive p = (Returns {| data := None; size := 0 |}, p))
  /\ (0 <= ikcp_peeksize (mKcp (this p)) ->
      exists k stored p',
        ikcp_recv (mKcp (this p))
                  (repeat Byte.x00 (Z.to_nat (ikcp_peeksize (mKcp (this p)))))
                  (ikcp_peeksize (mKcp (this p)))
        = (k, stored, ikcp_peeksize (mKcp (this p)))
        /\ receive p =
           (Returns {| data := Some {| block := brk p; contents := stored |};
                       size := ikcp_peeksize (mKcp (this p)) |}, p')
        /\ mKcp (this p') = k
        /\ brk p' = S (brk p)
        /\ trace p' = trace p).
Proof.
  intros Hint Hcons. split.
  - apply receive_none.
  - intros Hn. unfold is_int in Hint.
    destruct (receive_consistent p) as (k & stored & Hrecv & Hreceive);
      [lia | exact Hcons |].
    exists k, stored, (after_recv p k). repeat split; assumption.
Qed.

(** C3.  When a message is announced and the size [ikcp_recv] reports
    differs from the announced one, [receive] throws the runtime error
    instead of returning a packet; when nothing is announced, or the two
    sizes agree, it returns. *)
Theorem receive_throws_on_inconsistency (p : process) :
  is_int (ikcp_peeksize (mKcp (this p))) ->
  is_int (snd (ikcp_recv (mKcp (this p))
                 (repeat Byte.x00 (Z.to_nat (ikcp_peeksize (mKcp (this p)))))
                 (ikcp_peeksize (mKcp (this p))))) ->
  (0 <= ikcp_peeksize (mKcp (this p)) ->
   snd (ikcp_recv (mKcp (this p))
          (repeat Byte.x00 (Z.to_nat (ikcp_peeksize (mKcp (this p)))))
          (ikcp_peeksize (mKcp (this p))))
   <> ikcp_peeksize (mKcp (this p)) ->
   fst (receive p) = Throws (runtime_error Messages.inconsistency))
  /\ (ikcp_peeksize (mKcp (this p)) < 0
      \/ snd (ikcp_recv (mKcp (this p))
                (repeat Byte.x00 (Z.to_nat (ikcp_peeksize (mKcp (this p)))))
                (ikcp_peeksize (mKcp (this p))))
         = ikcp_peeksize (mKcp (this p)) ->
      exists packet, fst (receive p) = Returns packet).
Proof.
  intros Hn Hr. unfold is_int in Hn.
  destruct (ikcp_recv _ _ _) as [[k stored] r] eqn:Hrecv. simpl in *.
  split.
  - intros H0 Hne.
    rewrite (receive_some p) with (k := k) (stored := stored) (r := r)
      by (try lia; exact Hrecv).
    rewrite to_SizeType_eqb by (try assumption; lia).
    destruct (Z.eqb_spec r (ikcp_peeksize (mKcp (this p)))); [contradiction |].
    reflexivity.
  - intros H.
    destruct (Z_lt_le_dec (ikcp_peeksize (mKcp (this p))) 0) as [Hneg | Hpos].
    + rewrite receive_none by exact Hneg. eexists. reflexivity.
    + destruct H as [H | H]; [lia |].
      rewrite (receive_some p) with (k := k) (stored := stored) (r := r)
        by (try lia; exact Hrecv).
      rewrite to_SizeType_eqb by (try assumption; lia).
      rewrite H, Z.eqb_refl. eexists. reflexivity.
Qed.

(** C5, as amended.  [nextPacketSize] returns the length of the next
    receivable message when there is one and 0 when there is none, which
    an empty message also gives; [hasReceivablePacket] tells whether there
    is one.  Both are [const]: calling them leaves the process as it is,
    and [receive] after them does what it does without them. *)
Theorem probes_report_without_removing (p : process) :
  is_int (ikcp_peeksize (mKcp (this p))) ->
  (0 <= ikcp_peeksize (mKcp (this p)) ->
   hasReceivablePacket (this p) = true
   /\ nextPacketSize (this p) = ikcp_peeksize (mKcp (this p)))
  /\ (ikcp_peeksize (mKcp (this p)) < 0 ->
      hasReceivablePacket (this p) = false /\ nextPacketSize (this p) = 0)
  /\ snd (const_call hasReceivablePacket p) = p
  /\ snd (const_call nextPacketSize p) = p
  /\ (const_call hasReceivablePacket ;;; const_call nextPacketSize ;;; receive) p
     = receive p.
Proof.
  intros Hn. unfold is_int in Hn. split; [| split; [| repeat split]].
  - intros H. split.
    + apply hasReceivablePacket_true. exact H.
    + apply nextPacketSize_some. lia.
  - intros H. split.
    + apply hasReceivablePacket_false. exact H.
    + apply nextPacketSize_none. exact H.
Qed.

(** [input] once the engine has applied the datagram. *)
Lemma input_unfold (d : bytes) (n : Z) (g : callable) (p : process) :
  mOutputFunc (this p) = Some g ->
  input d n p =
  (let k := fst (fst (ikcp_input (mKcp (this p)) d (to_long n))) in
   let out := snd (fst (ikcp_input (mKcp (this p)) d (to_long n))) in
   let p1 := {| this := {| mKcp := k; mOutputFunc := mOutputFunc (this p);
                           mAsyncMode := mAsyncMode (this p);
                           mReceiveFunc := mReceiveFunc (this p) |};
                brk := brk p;
                trace := trace p ++ sink_calls g out |} in
   if mAsyncMode (this p) && hasReceivablePacket (this p1)
   then (packet <- receive ;; call_receive (mReceiveFunc (this p)) packet) p1
   else (Returns tt, p1)).
Proof.
  intros H. unfold input, bind at 1, get_this.
  destruct (ikcp_input _ _ _) as [[k out] r]. simpl.
  unfold bind at 1, set_mKcp, put_this. unfold bind at 1.
  rewrite output_calls_set with (g := g) by exact H. simpl.
  unfold bind at 1, get_this. simpl.
  destruct (mAsyncMode (this p) && _); reflexivity.
Qed.

(** C6.  In async mode, with a sink [g] and a receive callback [f]
    installed: when a message is receivable once the engine has applied
    the inbound bytes, [input] takes it with [receive] and invokes [f]
    with it before it returns; when none is receivable, [input] returns
    without invoking [f]. *)
Theorem input_invokes_receive_callback
    (d : bytes) (n : Z) (g f : callable) (p : process) :
  mAsyncMode (this p) = true ->
  mOutputFunc (this p) = Some g ->
  mReceiveFunc (this p) = Some f ->
  is_int (ikcp_peeksize (fst (fst (ikcp_input (mKcp (this p)) d (to_long n))))) ->
  consistent (fst (fst (ikcp_input (mKcp (this p)) d (to_long n)))) ->
  (0 <= ikcp_peeksize (fst (fst (ikcp_input (mKcp (this p)) d (to_long n)))) ->
   exists k stored p',
     ikcp_recv (fst (fst (ikcp_input (mKcp (this p)) d (to_long n))))
       (repeat Byte.x00
          (Z.to_nat (ikcp_peeksize (fst (fst (ikcp_input (mKcp (this p)) d (to_long n)))))))
       (ikcp_peeksize (fst (fst (ikcp_input (mKcp (this p)) d (to_long n)))))
     = (k, stored, ikcp_peeksize (fst (fst (ikcp_input (mKcp (this p)) d (to_long n)))))
     /\ input d n p = (Returns tt, p')
     /\ mKcp (this p') = k
     /\ added p p' =
        sink_calls g (snd (fst (ikcp_input (mKcp (this p)) d (to_long n))))
        ++ [Receive f
              {| data := Some {| block := brk p; contents := stored |};
                 size := ikcp_peeksize
                           (fst (fst (ikcp_input (mKcp (this p)) d (to_long n)))) |}])
  /\ (ikcp_peeksize (fst (fst (ikcp_input (mKcp (this p)) d (to_long n)))) < 0 ->
      exists p',
        input d n p = (Returns tt, p')
        /\ mKcp (this p') = fst (fst (ikcp_input (mKcp (this p)) d (to_long n)))
        /\ added p p' =
           sink_calls g (snd (fst (ikcp_input (mKcp (this p)) d (to_long n))))).
Proof.
  intros Hmode Hout Hcb Hint Hcons.
  rewrite (input_unfold d n p Hout). rewrite Hmode, Hcb.
  destruct (ikcp_input (mKcp (this p)) d (to_long n)) as [[k1 out] r1].
  simpl fst in *. simpl snd in *. cbv zeta. split.
  - intros H0.
    set (p1 := {| this := _; brk := brk p; trace := trace p ++ sink_calls g out |}).
    assert (Hk1 : mKcp (this p1) = k1) by reflexivity.
    rewrite hasReceivablePacket_true by (rewrite Hk1; exact H0). simpl andb.
    unfold is_int in Hint.
    destruct (receive_consistent p1) as (k & stored & Hrecv & Hreceive);
      [rewrite Hk1; lia | rewrite Hk1; exact Hcons |].
    rewrite Hk1 in Hrecv, Hreceive.
    exists k, stored.
    eexists. split; [exact Hrecv |]. unfold bind. rewrite Hreceive.
    unfold call_receive, log. split; [reflexivity |].
    split; [reflexivity |].
    apply added_app. subst p1. simpl.
    rewrite <- app_assoc. reflexivity.
  - intros Hneg.
    rewrite hasReceivablePacket_false by (simpl; exact Hneg). simpl andb. cbv iota.
    eexists. split; [reflexivity |]. split; [reflexivity |].
    apply added_app. reflexivity.
Qed.

End ReceiveFacts.

Section ModeFacts.
Context {E : Engine}.

Lemma output_calls_frame (out : list emission) (p : process) :
  this (snd (output_calls out p)) = this p
  /\ brk (snd (output_calls out p)) = brk p
  /\ filter is_receive (trace (snd (output_calls out p))) = filter is_receive (trace p).
Proof.
  destruct (mOutputFunc (this p)) as [g |] eqn:H.
  - rewrite (output_calls_set out p H). simpl. repeat split.
    rewrite filter_app.
    replace (filter is_receive (sink_calls g out)) with (@nil event).
    + apply app_nil_r.
    + unfold sink_calls. induction out; simpl; auto.
  - destruct out as [| e out].
    + repeat split.
    + rewrite output_calls_unset by (auto; discriminate). repeat split.
Qed.

Lemma sync_kept_engine_call (f : KCPSession -> ikcpcb * list emission) :
  preserves sync_kept
    (s <- get_this ;; let '(k, out) := f s in set_mKcp k ;;; output_calls out).
Proof.
  intros p. unfold bind at 1, get_this. cbv beta iota.
  destruct (f (this p)) as [k out].
  unfold bind, set_mKcp, put_this.
  match goal with |- context [output_calls out ?q] =>
    destruct (output_calls_frame out q) as (Hthis & _ & Htrace);
    destruct (output_calls out q) as [[[] | e |] p1]
  end; intros Hsync; simpl in *; rewrite ?Hthis; simpl; auto.
Qed.

Lemma sync_kept_input (d : bytes) (n : Z) : preserves sync_kept (input d n).
Proof.
  intros p. unfold input, bind at 1, get_this. cbv beta iota.
  destruct (ikcp_input _ _ _) as [[k out] r].
  unfold bind at 1, set_mKcp, put_this. unfold bind at 1.
  match goal with |- context [output_calls out ?q] =>
    destruct (output_calls_frame out q) as (Hthis & _ & Htrace);
    destruct (output_calls out q) as [[[] | e |] p1]
  end; intros Hsync; simpl in *; auto; try (rewrite Hthis; simpl; auto).
  unfold bind, get_this. rewrite Hthis. simpl. rewrite Hsync. simpl.
  rewrite Hthis. simpl. auto.
Qed.

Lemma sync_kept_perform (c : call) :
  transfers c = true -> preserves sync_kept (perform c).
Proof.
  destruct c; simpl; intros Hc; try discriminate.
  - apply sync_kept_input.
  - intros p. unfold send, bind, get_this.
    destruct (ikcp_send _ _ _) as [k r]. intros Hsync. simpl. auto.
  - apply (sync_kept_engine_call (fun s => ikcp_update (mKcp s) currentTimestamp)).
  - apply (sync_kept_engine_call (fun s => ikcp_flush (mKcp s))).
Qed.

(** With async mode off, no sequence of [input], [send], [update] and
    [flush] invokes the receive callback. *)
Lemma sync_kept_run (calls : list call) :
  forallb transfers calls = true -> forall p, sync_kept p (snd (run calls p)).
Proof.
  induction calls as [| c calls IH]; simpl; intros H p.
  - apply sync_kept_refl.
  - apply andb_true_iff in H. destruct H as [Hc Hrest].
    pose proof (sync_kept_perform c Hc p) as Hp.
    destruct (perform c p) as [[[] | e |] p1]; simpl in *.
    + eapply sync_kept_trans; [exact Hp | apply IH; exact Hrest].
    + eapply sync_kept_trans; [exact Hp | apply IH; exact Hrest].
    + exact Hp.
Qed.

Lemma input_sync (d : bytes) (n : Z) (g : callable) (p : process) :
  mOutputFunc (this p) = Some g ->
  mAsyncMode (this p) = false ->
  input d n p =
  (Returns tt,
   {| this := {| mKcp := fst (fst (ikcp_input (mKcp (this p)) d (to_long n)));
                 mOutputFunc := mOutputFunc (this p);
                 mAsyncMode := mAsyncMode (this p);
                 mReceiveFunc := mReceiveFunc (this p) |};
      brk := brk p;
      trace := trace p
               ++ sink_calls g (snd (fst (ikcp_input (mKcp (this p)) d (to_long n)))) |}).
Proof.
  intros Hout Hsync. rewrite (input_unfold d n p Hout). rewrite Hsync. reflexivity.
Qed.

End ModeFacts.

Section TunableFacts.
Context {E : Engine} {T : Tunables E}.

Lemma engine_after_setPropertiesPrivate (n i r c : Z) (p : process) :
  engine_after (setPropertiesPrivate n i r c) p
  = fst (ikcp_nodelay (mKcp (this p)) n i r c).
Proof.
  unfold engine_after, setPropertiesPrivate, bind, get_this.
  destruct (ikcp_nodelay _ _ _ _ _) as [k z]. reflexivity.
Qed.

Lemma engine_after_setMaxSendWindowSize (w : Z) (p : process) :
  engine_after (setMaxSendWindowSize w) p = fst (ikcp_wndsize (mKcp (this p)) w 0).
Proof.
  unfold engine_after, setMaxSendWindowSize, bind, get_this.
  destruct (ikcp_wndsize _ _ _) as [k z]. reflexivity.
Qed.

Lemma engine_after_setMaxReceiveWindowSize (w : Z) (p : process) :
  engine_after (setMaxReceiveWindowSize w) p = fst (ikcp_wndsize (mKcp (this p)) 0 w).
Proof.
  unfold engine_after, setMaxReceiveWindowSize, bind, get_this.
  destruct (ikcp_wndsize _ _ _) as [k z]. reflexivity.
Qed.

(** C8.  Over an engine that leaves a tunable as it is when handed the
    "not changed" argument and puts the others in force: [setNodelay],
    [setInternalInterval], [setFastResendThreshold] and
    [setCongestionControl] each leave the other three of nodelay,
    interval, fast-resend threshold and congestion control as they were
    and set their own: [setNodelay] and [setCongestionControl] to what
    was asked, [setInternalInterval] to an interval within the engine's
    bounds, [setFastResendThreshold] to a threshold that is not negative;
    [setMaxSendWindowSize] leaves the receive window and
    [setMaxReceiveWindowSize] the send window as they were. *)
Theorem setters_leave_other_tunables (p : process) (b : bool) (v : Z) :
  keeps_unchanged T ->
  (get_nodelay (engine_after (setNodelay b) p) = (if b then 1 else 0)
   /\ get_interval (engine_after (setNodelay b) p) = get_interval (mKcp (this p))
   /\ get_fastresend (engine_after (setNodelay b) p) = get_fastresend (mKcp (this p))
   /\ get_nocwnd (engine_after (setNodelay b) p) = get_nocwnd (mKcp (this p)))
  /\ (get_nodelay (engine_after (setInternalInterval v) p) = get_nodelay (mKcp (this p))
      /\ get_fastresend (engine_after (setInternalInterval v) p)
         = get_fastresend (mKcp (this p))
      /\ get_nocwnd (engine_after (setInternalInterval v) p) = get_nocwnd (mKcp (this p))
      /\ (interval_min <= v <= interval_max ->
          get_interval (engine_after (setInternalInterval v) p) = v))
  /\ (get_nodelay (engine_after (setFastResendThreshold v) p) = get_nodelay (mKcp (this p))
      /\ get_interval (engine_after (setFastResendThreshold v) p)
         = get_interval (mKcp (this p))
      /\ get_nocwnd (engine_after (setFastResendThreshold v) p) = get_nocwnd (mKcp (this p))
      /\ (0 <= v -> get_fastresend (engine_after (setFastResendThreshold v) p) = v))
  /\ (get_nocwnd (engine_after (setCongestionControl b) p) = (if b then 0 else 1)
      /\ get_nodelay (engine_after (setCongestionControl b) p) = get_nodelay (mKcp (this p))
      /\ get_interval (engine_after (setCongestionControl b) p)
         = get_interval (mKcp (this p))
      /\ get_fastresend (engine_after (setCongestionControl b) p)
         = get_fastresend (mKcp (this p)))
  /\ get_rcv_wnd (engine_after (setMaxSendWindowSize v) p) = get_rcv_wnd (mKcp (this p))
  /\ get_snd_wnd (engine_after (setMaxReceiveWindowSize v) p) = get_snd_wnd (mKcp (this p)).
Proof.
  intros [Hn Hi Hr Hc Hns Hrs Hcs Hsw Hrw His].
  unfold setNodelay, setInternalInterval, setFastResendThreshold, setCongestionControl.
  rewrite !engine_after_setPropertiesPrivate.
  rewrite engine_after_setMaxSendWindowSize, engine_after_setMaxReceiveWindowSize.
  assert (Hneg : NotChanged < 0) by (unfold NotChanged; lia).
  repeat split;
    try (apply Hn; exact Hneg); try (apply Hi; exact Hneg);
    try (apply Hr; exact Hneg); try (apply Hc; exact Hneg);
    try apply Hsw; try apply Hrw.
  - apply Hns. destruct b; lia.
  - apply His.
  - apply Hrs.
  - apply Hcs. destruct b; lia.
Qed.

End TunableFacts.

(** ** The wrapper over the modelled engine *)

Lemma core_consistent (k : Core.kcb) : consistent (E := core) k.
Proof.
  intros buffer. simpl. unfold Core.recv_into, Core.peeksize.
  destruct (Core.rcv_queue (Core.rx k)) as [| m q]; [reflexivity |].
  rewrite Z.ltb_irrefl. reflexivity.
Qed.

Lemma core_keeps_unchanged : keeps_unchanged core_tunables.
Proof.
  split; simpl; intros; unfold Core.keep_or;
    try (destruct (Z.leb_spec 0 n); [lia | reflexivity]);
    try (destruct (Z.leb_spec 0 i); [lia | reflexivity]);
    try (destruct (Z.leb_spec 0 r); [lia | reflexivity]);
    try (destruct (Z.leb_spec 0 c); [lia | reflexivity]);
    try (destruct (Z.leb_spec 0 n); [reflexivity | lia]);
    try (destruct (Z.leb_spec 0 r); [reflexivity | lia]);
    try (destruct (Z.leb_spec 0 c); [reflexivity | lia]);
    try (destruct (Z.leb_spec 0 i); [reflexivity | lia]).
  - unfold Core.set_wndsize. simpl.
    destruct (r <? 0); simpl; reflexivity.
  - unfold Core.set_wndsize.
    destruct (s <? 0); simpl; reflexivity.
Qed.

Lemma lengths_checked (out : list emission) :
  forallb (fun e => (0 <=? snd e) && (snd e <? 2 ^ 31)) out = true ->
  Forall (fun e => 0 <= snd e < 2 ^ 31) out.
Proof.
  intros H. apply Forall_forall. intros e He.
  rewrite forallb_forall in H. specialize (H e He).
  apply andb_true_iff in H. destruct H as [H1 H2].
  apply Z.leb_le in H1. apply Z.ltb_lt in H2. lia.
Qed.

Lemma emission_before_setOutputFunction_aborts_witness :
  fst (perform (CallUpdate 10)
         (snd (run [CallSend abc 3] (start (new_KCPSession 7 false))))) = Aborts.
Proof.
  refine (proj2 (proj2 (proj2 (emission_before_setOutputFunction_aborts
                                 7 false [CallSend abc 3] (CallUpdate 10) eq_refl))) _).
  vm_compute. discriminate.
Defined.

Lemma receive_returns_message_or_empty_witness :
  exists k stored p',
    ikcp_recv (mKcp (this abc_arrived))
      (repeat Byte.x00 (Z.to_nat (ikcp_peeksize (mKcp (this abc_arrived)))))
      (ikcp_peeksize (mKcp (this abc_arrived)))
    = (k, stored, ikcp_peeksize (mKcp (this abc_arrived)))
    /\ receive abc_arrived =
       (Returns {| data := Some {| block := brk abc_arrived; contents := stored |};
                   size := ikcp_peeksize (mKcp (this abc_arrived)) |}, p')
    /\ mKcp (this p') = k
    /\ brk p' = S (brk abc_arrived)
    /\ trace p' = trace abc_arrived.
Proof.
  refine (proj2 (receive_returns_message_or_empty abc_arrived _ _) _).
  - vm_compute. split; [discriminate | reflexivity].
  - apply core_consistent.
  - vm_compute. discriminate.
Defined.

Lemma receive_throws_on_inconsistency_witness :
  fst (receive torn_session) = Throws (runtime_error Messages.inconsistency).
Proof.
  refine (proj1 (receive_throws_on_inconsistency torn_session _ _) _ _).
  - vm_compute. split; [discriminate | reflexivity].
  - vm_compute. split; [discriminate | reflexivity].
  - vm_compute. discriminate.
  - vm_compute. discriminate.
Defined.

Lemma probes_report_without_removing_witness :
  hasReceivablePacket (this abc_arrived) = true
  /\ nextPacketSize (this abc_arrived) = ikcp_peeksize (mKcp (this abc_arrived)).
Proof.
  refine (proj1 (probes_report_without_removing abc_arrived _) _).
  - vm_compute. split; [discriminate | reflexivity].
  - vm_compute. discriminate.
Defined.

(** C5, the counterexample.  The datagram of the empty message is what a
    sender emits for it; once it has arrived a message is receivable, and
    [nextPacketSize] returns 0 as it does on the session nothing has
    arrived at. *)
Lemma nextPacketSize_does_not_tell_none :
  outputs (trace (snd ((send [] 0 ;;; update 10) (sender_session 7 false sink))))
  = [(empty_datagram, 24)]
  /\ hasReceivablePacket (this (polling_session 7 false sink)) = false
  /\ hasReceivablePacket (this empty_arrived) = true
  /\ nextPacketSize (this (polling_session 7 false sink)) = 0
  /\ nextPacketSize (this empty_arrived) = 0.
Proof. vm_compute. repeat split. Qed.

Lemma setters_leave_other_tunables_witness :
  (get_nodelay (engine_after (setInternalInterval 20) (sender_session 7 false sink))
   = get_nodelay (mKcp (this (sender_session 7 false sink)))
   /\ get_fastresend (engine_after (setInternalInterval 20) (sender_session 7 false sink))
      = get_fastresend (mKcp (this (sender_session 7 false sink)))
   /\ get_nocwnd (engine_after (setInternalInterval 20) (sender_session 7 false sink))
      = get_nocwnd (mKcp (this (sender_session 7 false sink)))
   /\ get_interval (engine_after (setInternalInterval 20) (sender_session 7 false sink))
      = 20)
  /\ get_rcv_wnd (engine_after (setMaxSendWindowSize 20) (sender_session 7 false sink))
     = get_rcv_wnd (mKcp (this (sender_session 7 false sink))).
Proof.
  pose proof (@setters_leave_other_tunables core core_tunables
                (sender_session 7 false sink) true 20 core_keeps_unchanged)
    as (_ & (H1 & H2 & H3 & H4) & _ & _ & H5 & _).
  split; [| exact H5].
  split; [exact H1 |]. split; [exact H2 |]. split; [exact H3 |].
  apply H4. change (0 <= 20 <= INT_MAX). unfold INT_MAX. lia.
Defined.

Lemma input_invokes_receive_callback_witness :
  exists k stored p',
    ikcp_recv (fst (fst (ikcp_input (mKcp (this (async_session 7 false sink callback)))
                           abc_datagram (to_long 27))))
      (repeat Byte.x00
         (Z.to_nat (ikcp_peeksize
                      (fst (fst (ikcp_input (mKcp (this (async_session 7 false sink callback)))
                                   abc_datagram (to_long 27)))))))
      (ikcp_peeksize (fst (fst (ikcp_input (mKcp (this (async_session 7 false sink callback)))
                                  abc_datagram (to_long 27)))))
    = (k, stored,
       ikcp_peeksize (fst (fst (ikcp_input (mKcp (this (async_session 7 false sink callback)))
                                  abc_datagram (to_long 27)))))
    /\ input abc_datagram 27 (async_session 7 false sink callback) = (Returns tt, p')
    /\ mKcp (this p') = k
    /\ added (async_session 7 false sink callback) p' =
       sink_calls sink (snd (fst (ikcp_input (mKcp (this (async_session 7 false sink callback)))
                                 abc_datagram (to_long 27))))
       ++ [Receive callback
             {| data := Some {| block := brk (async_session 7 false sink callback);
                                contents := stored |};
                size := ikcp_peeksize
                          (fst (fst (ikcp_input (mKcp (this (async_session 7 false sink callback)))
                                       abc_datagram (to_long 27)))) |}].
Proof.
  refine (proj1 (input_invokes_receive_callback abc_datagram 27
                   (async_session 7 false sink callback)
                   (g := sink) (f := callback) eq_refl eq_refl eq_refl _ _) _).
  - vm_compute. split; [discriminate | reflexivity].
  - apply core_consistent.
  - vm_compute. discriminate.
Defined.

(** What [input] of the datagram hands the callback of the async
    session. *)
Lemma input_abc_async :
  trace (snd (input abc_datagram 27 (async_session 7 false sink callback)))
  = [Receive callback {| data := Some {| block := 0; contents := abc |}; size := 3 |}].
Proof. vm_compute. reflexivity. Qed.

(** C10, at the failing input.  On a session fresh from the constructor
    whose [mAsyncMode], never initialised, reads as true, [input] of a
    datagram that completes a message takes the message with [receive]
    and invokes the receive callback: the empty one throws, and the
    message is gone; one that was installed is handed the message.  Had
    the member read as false, nothing would have been invoked and the
    message would wait for [receive]. *)
Theorem input_on_fresh_session_invokes_callback :
  fst (run [CallInput abc_datagram 27] (start (new_KCPSession 7 true))) = Returns tt
  /\ fst (input abc_datagram 27 (start (new_KCPSession 7 true)))
     = Throws bad_function_call
  /\ hasReceivablePacket
       (this (snd (input abc_datagram 27 (start (new_KCPSession 7 true))))) = false
  /\ trace (snd ((setReceiveCallback (Some callback) ;;; input abc_datagram 27)
                   (start (new_KCPSession 7 true))))
     = [Receive callback {| data := Some {| block := 0; contents := abc |}; size := 3 |}]
  /\ fst (input abc_datagram 27 (start (new_KCPSession 7 false))) = Returns tt
  /\ trace (snd (input abc_datagram 27 (start (new_KCPSession 7 false)))) = []
  /\ hasReceivablePacket
       (this (snd (input abc_datagram 27 (start (new_KCPSession 7 false))))) = true.
Proof. vm_compute. repeat split. Qed.

(** C4, the counterexample.  [send] of a message of [2^31] bytes hands the
    engine the length [-2^31]; the call returns and the session is as it
    was, nothing queued.  [setMaxSendWindowSize] of a negative size, which
    the engine reports with -1, returns the same way. *)
Lemma send_beyond_INT_MAX_admits_nothing :
  len two_gib = 2 ^ 31
  /\ to_int (2 ^ 31) = - 2 ^ 31
  /\ send two_gib (2 ^ 31) (sender_session 7 false sink)
     = (Returns tt, sender_session 7 false sink)
  /\ getNumOfPendingPackets (this (sender_session 7 false sink)) = 0
  /\ snd (ikcp_wndsize (mKcp (this (sender_session 7 false sink))) (-1) 0) = -1
  /\ setMaxSendWindowSize (-1) (sender_session 7 false sink)
     = (Returns tt, sender_session 7 false sink).
Proof.
  split.
  { unfold len, two_gib. rewrite repeat_length. rewrite Z2Nat.id by lia. reflexivity. }
  split; [reflexivity |].
  split.
  { unfold send, bind, get_this.
    change (ikcp_send (mKcp (this (sender_session 7 false sink))) two_gib (to_int (2 ^ 31)))
      with (Core.send_from (mKcp (this (sender_session 7 false sink))) two_gib
              (to_int (2 ^ 31))).
    unfold Core.send_from.
    replace (to_int (2 ^ 31) <? 0) with true by reflexivity.
    reflexivity. }
  repeat split.
Qed.

Section SendFacts.

(** C4, as amended.  For every byte sequence and every size up to
    [INT_MAX], [send] returns and the engine has appended the fragments of
    the message, the first [size] bytes of the buffer, to the send queue.
    For every size [send] returns without a failure and invokes nothing,
    and so do the configuration setters, whatever the engine reports. *)
Theorem send_admits_up_to_INT_MAX (d : bytes) (n : Z) (p : @process core) :
  0 <= n <= INT_MAX ->
  send d n p
  = (Returns tt, with_mKcp p (Core.send (mKcp (this p)) (firstn (Z.to_nat n) d)))
  /\ Core.snd_queue (Core.tx (engine_after (send d n) p))
     = Core.snd_queue (Core.tx (mKcp (this p)))
       ++ Core.tag (Core.conv_id (mKcp (this p)))
            (Core.fragments (Core.mss (Core.cfg (mKcp (this p))))
               (firstn (Z.to_nat n) d))
  /\ (forall n', fst (send d n' p) = Returns tt
                 /\ trace (snd (send d n' p)) = trace p)
  /\ (forall v, fst (setMTU v p) = Returns tt
                /\ fst (setMaxSendWindowSize v p) = Returns tt
                /\ fst (setMaxReceiveWindowSize v p) = Returns tt
                /\ trace (snd (setMTU v p)) = trace p
                /\ trace (snd (setMaxSendWindowSize v p)) = trace p
                /\ trace (snd (setMaxReceiveWindowSize v p)) = trace p).
Proof.
  intros Hn. unfold INT_MAX in Hn.
  assert (Hsend : send d n p
    = (Returns tt, with_mKcp p (Core.send (mKcp (this p)) (firstn (Z.to_nat n) d)))).
  { unfold send, bind, get_this. rewrite to_int_id by (unfold is_int; lia).
    change (ikcp_send (mKcp (this p)) d n) with (Core.send_from (mKcp (this p)) d n).
    unfold Core.send_from.
    destruct (Z.ltb_spec n 0); [lia |]. reflexivity. }
  split; [exact Hsend |]. split.
  { unfold engine_after. rewrite Hsend. reflexivity. }
  split.
  { intros n'. unfold send, bind, get_this.
    destruct (ikcp_send _ _ _) as [k r]. split; reflexivity. }
  intros v. unfold setMTU, setMaxSendWindowSize, setMaxReceiveWindowSize, bind, get_this.
  destruct (ikcp_setmtu _ _) as [k1 r1].
  destruct (ikcp_wndsize (mKcp (this p)) v 0) as [k2 r2].
  destruct (ikcp_wndsize (mKcp (this p)) 0 v) as [k3 r3].
  repeat split.
Qed.

End SendFacts.

Lemma send_admits_up_to_INT_MAX_witness :
  send abc 3 (sender_session 7 false sink)
  = (Returns tt,
     with_mKcp (sender_session 7 false sink)
       (Core.send (mKcp (this (sender_session 7 false sink))) (firstn (Z.to_nat 3) abc))).
Proof.
  refine (proj1 (send_admits_up_to_INT_MAX abc (sender_session 7 false sink) (n := 3) _)).
  unfold INT_MAX. lia.
Defined.

(** ** The modelled engine: codec *)

Lemma len_app (a b : bytes) : len (a ++ b) = len a + len b.
Proof. unfold len. rewrite length_app. lia. Qed.

Lemma len_header (s : Core.segment) : len (Core.header s) = 24.
Proof. reflexivity. Qed.

Lemma field_conv s : Core.field 0 4 (Core.header s ++ Core.payload s) = Core.conv s mod 2 ^ 32.
Proof. exact (le_combine_split 4 (Core.conv s)). Qed.
Lemma field_cmd s : Core.field 4 1 (Core.header s ++ Core.payload s) = Core.cmd_code (Core.cmd s) mod 2 ^ 8.
Proof. exact (le_combine_split 1 (Core.cmd_code (Core.cmd s))). Qed.
Lemma field_frg s : Core.field 5 1 (Core.header s ++ Core.payload s) = Core.frg s mod 2 ^ 8.
Proof. exact (le_combine_split 1 (Core.frg s)). Qed.
Lemma field_wnd s : Core.field 6 2 (Core.header s ++ Core.payload s) = Core.wnd s mod 2 ^ 16.
Proof. exact (le_combine_split 2 (Core.wnd s)). Qed.
Lemma field_ts s : Core.field 8 4 (Core.header s ++ Core.payload s) = Core.ts s mod 2 ^ 32.
Proof. exact (le_combine_split 4 (Core.ts s)). Qed.
Lemma field_sn s : Core.field 12 4 (Core.header s ++ Core.payload s) = Core.sn s mod 2 ^ 32.
Proof. exact (le_combine_split 4 (Core.sn s)). Qed.
Lemma field_una s : Core.field 16 4 (Core.header s ++ Core.payload s) = Core.una s mod 2 ^ 32.
Proof. exact (le_combine_split 4 (Core.una s)). Qed.
Lemma field_len s : Core.field 20 4 (Core.header s ++ Core.payload s) = len (Core.payload s) mod 2 ^ 32.
Proof. exact (le_combine_split 4 (len (Core.payload s))). Qed.

Lemma cmd_of_code_code c : Core.cmd_of_code (Core.cmd_code c mod 2 ^ 8) = Some c.
Proof. destruct c; reflexivity. Qed.

Lemma decode_encode (s : Core.segment) :
  wire_ok s -> Core.decode (Core.conv s) (Core.header s ++ Core.payload s) = Some s.
Proof.
  intros (Hc & Hf & Hw & Ht & Hs & Hu & Hl).
  unfold Core.decode.
  rewrite field_conv, field_cmd, field_frg, field_wnd, field_ts, field_sn, field_una, field_len.
  rewrite len_app, len_header. unfold Core.OVERHEAD.
  assert (Hp : 0 <= len (Core.payload s)) by (unfold len; lia).
  destruct (Z.ltb_spec (24 + len (Core.payload s)) 24); [lia |].
  rewrite (Z.mod_small (Core.conv s)), (Z.mod_small (Core.frg s)), (Z.mod_small (Core.wnd s)),
    (Z.mod_small (Core.ts s)), (Z.mod_small (Core.sn s)), (Z.mod_small (Core.una s)),
    (Z.mod_small (len (Core.payload s))) by lia.
  replace (24 + len (Core.payload s) - 24) with (len (Core.payload s)) by lia.
  rewrite !Z.eqb_refl. simpl negb. cbv iota.
  rewrite cmd_of_code_code.
  destruct s; reflexivity.
Qed.


(** ** The modelled engine: fragmentation *)

Lemma concat_chunks (n size : nat) : forall m : bytes,
  (length m <= n * size)%nat -> concat (Core.chunks n size m) = m.
Proof.
  induction n as [| n IH]; intros m H; simpl.
  - destruct m; [reflexivity | simpl in H; lia].
  - rewrite IH.
    + apply firstn_skipn.
    + rewrite length_skipn. lia.
Qed.

Lemma length_chunks (n size : nat) : forall m : bytes, length (Core.chunks n size m) = n.
Proof. induction n as [| n IH]; intros m; simpl; [reflexivity | now rewrite IH]. Qed.

Lemma chunks_bounded (n size : nat) : forall m : bytes,
  Forall (fun p => (length p <= size)%nat) (Core.chunks n size m).
Proof.
  induction n as [| n IH]; intros m; simpl; constructor.
  - apply firstn_le_length.
  - apply IH.
Qed.

Lemma fragment_count_pos (mss : Z) (m : bytes) : 0 < mss -> 1 <= Core.fragment_count mss m.
Proof.
  intros H. unfold Core.fragment_count.
  destruct (Z.leb_spec (len m) mss); [lia |].
  apply Z.div_le_lower_bound; lia.
Qed.

Lemma fragment_count_covers (mss : Z) (m : bytes) :
  0 < mss -> len m <= Core.fragment_count mss m * mss.
Proof.
  intros H. unfold Core.fragment_count.
  destruct (Z.leb_spec (len m) mss); [lia |].
  pose proof (Z.div_mod (len m + mss - 1) mss ltac:(lia)) as Hd.
  pose proof (Z.mod_pos_bound (len m + mss - 1) mss H) as Hm.
  nia.
Qed.

Lemma fragment_count_bound (mss : Z) (m : bytes) (n : Z) :
  0 < mss -> 1 <= n -> len m <= n * mss -> Core.fragment_count mss m <= n.
Proof.
  intros H Hn Hl. unfold Core.fragment_count.
  destruct (Z.leb_spec (len m) mss); [lia |].
  apply Z.lt_succ_r. apply Z.div_lt_upper_bound; [lia |]. nia.
Qed.

Lemma concat_fragments (mss : Z) (m : bytes) :
  0 < mss -> concat (Core.fragments mss m) = m.
Proof.
  intros H. unfold Core.fragments. apply concat_chunks.
  pose proof (fragment_count_covers m H) as Hc.
  pose proof (fragment_count_pos m H) as Hp.
  unfold len in Hc.
  apply Nat2Z.inj_le. rewrite Nat2Z.inj_mul, !Z2Nat.id by lia. exact Hc.
Qed.

Lemma tag_seq (c : Z) (l : list bytes) :
  Core.tag c l
  = map (fun i => {| Core.conv := c; Core.cmd := Core.PUSH;
                     Core.frg := Z.of_nat (length l - 1 - i); Core.wnd := 0;
                     Core.ts := 0; Core.sn := 0; Core.una := 0;
                     Core.payload := nth i l [] |}) (seq 0 (length l)).
Proof.
  induction l as [| d l IH]; [reflexivity |].
  simpl. f_equal.
  - f_equal. f_equal. lia.
  - rewrite IH. rewrite <- seq_shift, map_map. apply map_ext_in.
    intros i Hi. apply in_seq in Hi. f_equal. f_equal. lia.
Qed.

Lemma number_seq (f : nat -> Core.segment) (j : nat) : forall k,
  Core.number (Z.of_nat k) (map f (seq k j))
  = map (fun i => {| Core.seg := {| Core.conv := Core.conv (f i); Core.cmd := Core.cmd (f i);
                                    Core.frg := Core.frg (f i); Core.wnd := Core.wnd (f i);
                                    Core.ts := Core.ts (f i); Core.sn := Z.of_nat i;
                                    Core.una := Core.una (f i);
                                    Core.payload := Core.payload (f i) |};
                     Core.resendts := 0; Core.rto := 0; Core.fastack := 0;
                     Core.xmit := 0 |}) (seq k j).
Proof.
  induction j as [| j IH]; intros k; [reflexivity |].
  simpl. f_equal.
  replace (Z.of_nat k + 1) with (Z.of_nat (S k)) by lia. apply IH.
Qed.

(** ** The modelled engine: flush and input *)

Lemma number_xmit (l : list Core.segment) : forall z,
  Forall (fun e => Core.xmit e = 0) (Core.number z l).
Proof. induction l as [| s l IH]; intros z; simpl; constructor; auto. Qed.

Lemma why_fresh (K : Core.kcb) (e : Core.inflight) :
  Core.xmit e = 0 -> Core.why K e = Core.First.
Proof. intros H. unfold Core.why. rewrite H. reflexivity. Qed.

Lemma transmissions_fresh (K : Core.kcb) (l : list Core.inflight) :
  Forall (fun e => Core.xmit e = 0) l ->
  Core.transmissions K l = map (fun e => Core.stamp K (Core.seg e)) l.
Proof.
  intros H. unfold Core.transmissions.
  induction H as [| e l He Hl IH]; [reflexivity |].
  cbn [filter map]. rewrite (why_fresh K e He). cbn [Core.is_idle negb map].
  unfold Core.resend at 1. rewrite (why_fresh K e He). cbn [Core.seg].
  f_equal. exact IH.
Qed.

Lemma no_timeout_fresh (K : Core.kcb) (l : list Core.inflight) :
  Forall (fun e => Core.xmit e = 0) l ->
  existsb (fun e => Core.is_timeout (Core.why K e)) l = false
  /\ existsb (fun e => Core.is_fast (Core.why K e)) l = false.
Proof.
  intros H. induction H as [| e l He Hl [IH1 IH2]]; [split; reflexivity |].
  simpl. rewrite (why_fresh K e He), IH1, IH2. split; reflexivity.
Qed.

Lemma on_loss_none (c : Core.config) (s : Core.sender) : Core.on_loss c false false s = s.
Proof. unfold Core.on_loss. destruct (negb _); reflexivity. Qed.

Lemma wire_app (mss : Z) (l l' : list Core.segment) :
  Core.wire mss (l ++ l') = Core.wire mss l ++ Core.wire mss l'.
Proof. unfold Core.wire. apply flat_map_app. Qed.

Lemma wire_all (mss : Z) (l : list Core.segment) :
  Forall (fun s => len (Core.payload s) <= mss) l ->
  Core.wire mss l = map (fun s => Core.header s ++ Core.payload s) l.
Proof.
  intros H. induction H as [| s l Hs Hl IH]; [reflexivity |].
  unfold Core.wire in *. simpl. unfold Core.encode at 1.
  destruct (Z.ltb_spec mss (len (Core.payload s))); [lia |].
  simpl. f_equal. exact IH.
Qed.

(** A flush with nothing in flight, no probe to answer and a peer that
    advertises room: acknowledgments, then the promoted segments. *)
Lemma flush_quiet (K : Core.kcb) :
  Core.probe_tell K = false ->
  1 <= Core.rmt_wnd (Core.tx K) ->
  Core.snd_buf (Core.tx K) = [] ->
  exists K',
    Core.flush K
    = (K', Core.wire (Core.mss (Core.cfg K)) (map (Core.ack_segment K) (Core.acklist (Core.rx K)))
           ++ Core.wire (Core.mss (Core.cfg K))
                (map (fun e => Core.stamp K (Core.seg e)) (promoted K)))
    /\ Core.conv_id K' = Core.conv_id K /\ Core.cfg K' = Core.cfg K
    /\ Core.probe_tell K' = false /\ Core.current K' = Core.current K
    /\ Core.rcv_nxt (Core.rx K') = Core.rcv_nxt (Core.rx K)
    /\ Core.rcv_buf (Core.rx K') = Core.rcv_buf (Core.rx K)
    /\ Core.rcv_frags (Core.rx K') = Core.rcv_frags (Core.rx K)
    /\ Core.rcv_queue (Core.rx K') = Core.rcv_queue (Core.rx K)
    /\ Core.acklist (Core.rx K') = []
    /\ Core.snd_nxt (Core.tx K') = Core.snd_nxt (Core.tx K) + Z.of_nat (length (promoted K))
    /\ Core.snd_queue (Core.tx K')
       = skipn (Z.to_nat (Core.snd_una (Core.tx K)
                          + Core.window (Core.cfg K) (Core.tx K)
                          - Core.snd_nxt (Core.tx K)))
           (Core.snd_queue (Core.tx K))
    /\ Core.snd_buf (Core.tx K') = map (Core.resend K) (promoted K)
    /\ Core.rmt_wnd (Core.tx K') = Core.rmt_wnd (Core.tx K)
    /\ Core.cwnd (Core.tx K') = Core.cwnd (Core.tx K)
    /\ (promoted K = [] ->
        Core.snd_una (Core.tx K') = Core.snd_nxt (Core.tx K)).
Proof.
  intros Htell Hrw Hbuf. unfold Core.flush. fold (promoted K).
  rewrite Htell, Hbuf. simpl app.
  destruct (Z.eqb_spec (Core.rmt_wnd (Core.tx K)) 0) as [H0 | _]; [lia |].
  simpl andb. cbv iota. simpl app.
  destruct (no_timeout_fresh K (number_xmit _ _ : Forall _ (promoted K))) as [H1 H2].
  rewrite H1, H2, on_loss_none.
  rewrite (transmissions_fresh K (number_xmit _ _ : Forall _ (promoted K))).
  rewrite wire_app.
  eexists. split; [reflexivity |].
  cbn. repeat split.
  intros Hp. rewrite Hp. simpl. lia.
Qed.

Lemma firstn_seq (n : nat) : forall start len,
  firstn n (seq start len) = seq start (Nat.min n len).
Proof.
  induction n as [| n IH]; intros start len; [reflexivity |].
  destruct len as [| len]; [reflexivity |].
  simpl. f_equal. apply IH.
Qed.

Lemma resend_sn (K : Core.kcb) (e : Core.inflight) :
  Core.sn (Core.seg (Core.resend K e)) = Core.sn (Core.seg e).
Proof. unfold Core.resend. destruct (Core.why K e); reflexivity. Qed.

Lemma grow_frame (cf : Core.config) (a : Z) (s : Core.sender) :
  Core.snd_una (Core.grow cf a s) = Core.snd_una s
  /\ Core.snd_nxt (Core.grow cf a s) = Core.snd_nxt s
  /\ Core.snd_queue (Core.grow cf a s) = Core.snd_queue s
  /\ Core.snd_buf (Core.grow cf a s) = Core.snd_buf s
  /\ Core.rmt_wnd (Core.grow cf a s) = Core.rmt_wnd s
  /\ (1 <= Core.cwnd s -> 1 <= Core.cwnd (Core.grow cf a s)).
Proof.
  unfold Core.grow. destruct (Z.leb_spec a 0); [repeat split; auto |].
  destruct (Core.cwnd s <? Core.ssthresh s); simpl; repeat split; lia.
Qed.

Lemma on_push_frame (K : Core.kcb) (s : Core.segment) :
  Core.conv_id (Core.on_push K s) = Core.conv_id K
  /\ Core.cfg (Core.on_push K s) = Core.cfg K
  /\ Core.tx (Core.on_push K s) = Core.tx K
  /\ Core.probe_tell (Core.on_push K s) = Core.probe_tell K.
Proof.
  unfold Core.on_push.
  destruct (_ <? _); [| repeat split].
  destruct (_ <=? _); repeat split.
Qed.

(** The segment the receiver waits for arrives: it is acknowledged and
    joins the fragments gathered so far, completing a message when it is
    the last fragment. *)
Lemma on_push_next (K : Core.kcb) (s : Core.segment) :
  Core.sn s = Core.rcv_nxt (Core.rx K) ->
  Core.rcv_buf (Core.rx K) = [] ->
  1 <= Core.wnd_unused K ->
  Core.rx (Core.on_push K s)
  = {| Core.rcv_nxt := Core.rcv_nxt (Core.rx K) + 1;
       Core.rcv_buf := [];
       Core.rcv_frags := if Core.frg s =? 0 then []
                         else Core.rcv_frags (Core.rx K) ++ [s];
       Core.rcv_queue := if Core.frg s =? 0
                         then Core.rcv_queue (Core.rx K)
                              ++ [concat (map Core.payload
                                            (Core.rcv_frags (Core.rx K) ++ [s]))]
                         else Core.rcv_queue (Core.rx K);
       Core.acklist := Core.acklist (Core.rx K) ++ [(Core.sn s, Core.ts s)] |}.
Proof.
  intros Hsn Hbuf Hw. unfold Core.on_push.
  destruct (Z.ltb_spec (Core.sn s) (Core.rcv_nxt (Core.rx K) + Core.wnd_unused K)); [| lia].
  unfold Core.note_ack. cbn [Core.rcv_nxt Core.rcv_buf].
  destruct (Z.leb_spec (Core.rcv_nxt (Core.rx K)) (Core.sn s)); [| lia].
  rewrite Hbuf. cbn [Core.insert Core.drain Core.rx Core.with_rx Core.rcv_nxt].
  rewrite Hsn, Z.eqb_refl.
  destruct (Core.frg s =? 0); reflexivity.
Qed.

Lemma ack_cumulative_idle (u : Z) (s : Core.sender) :
  Core.snd_buf s = [] ->
  Core.snd_queue (Core.ack_cumulative u s) = Core.snd_queue s
  /\ Core.snd_buf (Core.ack_cumulative u s) = []
  /\ Core.rmt_wnd (Core.ack_cumulative u s) = Core.rmt_wnd s
  /\ Core.snd_nxt (Core.ack_cumulative u s) = Core.snd_nxt s
  /\ Core.snd_una (Core.ack_cumulative u s) = Core.snd_nxt s
  /\ Core.cwnd (Core.ack_cumulative u s) = Core.cwnd s.
Proof.
  intros H. unfold Core.ack_cumulative. rewrite H. simpl. repeat split.
Qed.


Lemma inputs_cons (K : Core.kcb) (b : bytes) (l : list bytes) :
  inputs K (b :: l) = inputs (fst (Core.input K b)) l.
Proof. reflexivity. Qed.

Lemma skipped_sn (n : Z) (e : Core.inflight) :
  Core.sn (Core.seg (Core.skipped n e)) = Core.sn (Core.seg e).
Proof. unfold Core.skipped. destruct (_ <? _); reflexivity. Qed.

Lemma ack_selective_frame (n z : Z) (s : Core.sender) :
  Core.snd_nxt (Core.ack_selective n s) = Core.snd_nxt s
  /\ Core.snd_queue (Core.ack_selective n s) = Core.snd_queue s
  /\ Core.rmt_wnd (Core.ack_selective n s) = Core.rmt_wnd s
  /\ Core.cwnd (Core.ack_selective n s) = Core.cwnd s
  /\ (Forall (fun e => Core.sn (Core.seg e) < z) (Core.snd_buf s) ->
      Forall (fun e => Core.sn (Core.seg e) < z) (Core.snd_buf (Core.ack_selective n s))).
Proof.
  unfold Core.ack_selective. destruct (Core.outstanding n (Core.snd_buf s)).
  - simpl. repeat split. intros H. apply Forall_forall. intros e He.
    apply in_map_iff in He. destruct He as (e0 & <- & He0).
    apply filter_In in He0. destruct He0 as [He0 _].
    rewrite skipped_sn. rewrite Forall_forall in H. auto.
  - repeat split. auto.
Qed.

Lemma ack_cumulative_all (u : Z) (s : Core.sender) :
  Forall (fun e => Core.sn (Core.seg e) < u) (Core.snd_buf s) ->
  Core.snd_queue (Core.ack_cumulative u s) = Core.snd_queue s
  /\ Core.snd_buf (Core.ack_cumulative u s) = []
  /\ Core.rmt_wnd (Core.ack_cumulative u s) = Core.rmt_wnd s
  /\ Core.snd_nxt (Core.ack_cumulative u s) = Core.snd_nxt s
  /\ Core.snd_una (Core.ack_cumulative u s) = Core.snd_nxt s
  /\ Core.cwnd (Core.ack_cumulative u s) = Core.cwnd s.
Proof.
  intros H. unfold Core.ack_cumulative.
  replace (filter _ (Core.snd_buf s)) with (@nil Core.inflight).
  - simpl. repeat split.
  - symmetry. induction H as [| e l He Hl IH]; [reflexivity |].
    simpl. destruct (Z.leb_spec u (Core.sn (Core.seg e))); [lia | exact IH].
Qed.

Lemma on_ack_frame (K : Core.kcb) (s : Core.segment) :
  Core.conv_id (Core.on_ack K s) = Core.conv_id K
  /\ Core.cfg (Core.on_ack K s) = Core.cfg K
  /\ Core.rx (Core.on_ack K s) = Core.rx K
  /\ Core.probe_tell (Core.on_ack K s) = Core.probe_tell K
  /\ Core.tx (Core.on_ack K s) = Core.ack_selective (Core.sn s) (Core.tx K).
Proof.
  unfold Core.on_ack. destruct (_ && _); repeat split.
Qed.


Lemma core_update_fst (K : Core.kcb) (t : Z) :
  fst (@ikcp_update core K t) = fst (Core.update K t).
Proof. cbn [ikcp_update core]. destruct (Core.update K t); reflexivity. Qed.

Lemma core_update_snd (K : Core.kcb) (t : Z) :
  snd (@ikcp_update core K t) = Core.emit (snd (Core.update K t)).
Proof. cbn [ikcp_update core]. destruct (Core.update K t); reflexivity. Qed.

Lemma core_input_fst (K : Core.kcb) (d : bytes) (n : Z) :
  fst (fst (@ikcp_input core K d n)) = fst (Core.input K (firstn (Z.to_nat n) d)).
Proof.
  cbn [ikcp_input core]. unfold Core.input_from.
  destruct (Core.input K _); reflexivity.
Qed.

Lemma core_input_snd (K : Core.kcb) (d : bytes) (n : Z) :
  snd (fst (@ikcp_input core K d n)) = [].
Proof.
  cbn [ikcp_input core]. unfold Core.input_from.
  destruct (Core.input K _); reflexivity.
Qed.

Lemma core_flush_fst (K : Core.kcb) :
  fst (@ikcp_flush core K) = fst (Core.flush K).
Proof. cbn [ikcp_flush core]. destruct (Core.flush K); reflexivity. Qed.

Lemma core_flush_snd (K : Core.kcb) :
  snd (@ikcp_flush core K) = Core.emit (snd (Core.flush K)).
Proof. cbn [ikcp_flush core]. destruct (Core.flush K); reflexivity. Qed.

(** ** One segment per sink invocation *)

(** What goes on the wire are the encodings of the segments that fit. *)
Lemma wire_enc (mss : Z) (l : list Core.segment) :
  Core.wire mss l
  = map enc (filter (fun s => negb (mss <? len (Core.payload s))) l).
Proof.
  induction l as [| s l IH]; [reflexivity |].
  unfold Core.wire in *. cbn [flat_map filter]. rewrite IH.
  unfold Core.encode. destruct (mss <? len (Core.payload s)); reflexivity.
Qed.

(** Every buffer a flush emits is the encoding of one segment. *)
Lemma flush_segments (K : Core.kcb) :
  exists segs,
    snd (Core.flush K) = map enc segs
    /\ Forall (fun s => Core.encode (Core.mss (Core.cfg K)) s = Some (enc s)) segs.
Proof.
  unfold Core.flush. cbv zeta. cbn [snd]. rewrite wire_enc.
  eexists. split; [reflexivity |].
  apply Forall_forall. intros s Hs. apply filter_In in Hs. destruct Hs as [_ Hs].
  unfold Core.encode, enc. apply negb_true_iff in Hs. rewrite Hs. reflexivity.
Qed.

Lemma encode_len (mss : Z) (s : Core.segment) :
  Core.encode mss s = Some (enc s) ->
  len (enc s) = Core.OVERHEAD + len (Core.payload s)
  /\ len (Core.payload s) <= mss.
Proof.
  unfold Core.encode, enc. rewrite len_app, len_header.
  destruct (Z.ltb_spec mss (len (Core.payload s))); [discriminate |].
  intros _. unfold Core.OVERHEAD. split; [reflexivity | assumption].
Qed.

Lemma sink_calls_segments (g : callable) (mss : Z) (segs : list Core.segment) :
  mss < 2 ^ 31 - Core.OVERHEAD ->
  Forall (fun s => Core.encode mss s = Some (enc s)) segs ->
  sink_calls g (Core.emit (map enc segs))
  = map (fun s => Output g (enc s) (Core.OVERHEAD + len (Core.payload s))) segs.
Proof.
  intros Hmss H. unfold sink_calls, Core.emit. rewrite !map_map.
  apply map_ext_in. intros s Hs. cbn [fst snd].
  rewrite Forall_forall in H. destruct (@encode_len mss s (H s Hs)) as [Hl Hp].
  rewrite Hl. rewrite to_SizeType_id; [reflexivity |].
  unfold Core.OVERHEAD, len in *. lia.
Qed.

(** C7.  With a sink [g] installed, over every engine: the adapter
    [mOutputFuncRaw] hands each buffer the engine emits to [g] once,
    bytes and length as they are, and returns 0 to the engine, so that
    [flush] and [update] add to the trace one sink invocation per engine
    emission, in the engine's order, none merged and none repeated.  And
    over the modelled engine, whose maximum segment size leaves the
    length of a datagram within an [int]: the buffers a [flush] or an
    [update] emits are the encodings of segments, one segment each, which
    the codec reads back as that segment when its fields fit their
    widths, and what the sink is handed, call by call, is one such
    encoding with its length, header and payload. *)
Theorem output_forwarded_unchanged
    (E : Engine) (q : @process E) (p : @process core) (g : callable) (t : Z) :
  mOutputFunc (this q) = Some g ->
  mOutputFunc (this p) = Some g ->
  Core.mss (Core.cfg (mKcp (this p))) < 2 ^ 31 - Core.OVERHEAD ->
  ((forall buf n, 0 <= n < 2 ^ 31 ->
      mOutputFuncRaw buf n q =
      (Returns 0, {| this := this q; brk := brk q;
                     trace := trace q ++ [Output g buf n] |}))
   /\ (Forall (fun e => 0 <= snd e < 2 ^ 31) (snd (ikcp_flush (mKcp (this q)))) ->
       exists q', flush q = (Returns tt, q')
         /\ mKcp (this q') = fst (ikcp_flush (mKcp (this q)))
         /\ added q q' = map (fun e => Output g (fst e) (snd e))
                             (snd (ikcp_flush (mKcp (this q)))))
   /\ (Forall (fun e => 0 <= snd e < 2 ^ 31) (snd (ikcp_update (mKcp (this q)) t)) ->
       exists q', update t q = (Returns tt, q')
         /\ mKcp (this q') = fst (ikcp_update (mKcp (this q)) t)
         /\ added q q' = map (fun e => Output g (fst e) (snd e))
                             (snd (ikcp_update (mKcp (this q)) t))))
  /\ (exists segs p',
        flush p = (Returns tt, p')
        /\ mKcp (this p') = fst (Core.flush (mKcp (this p)))
        /\ snd (Core.flush (mKcp (this p))) = map enc segs
        /\ Forall (fun s => Core.encode (Core.mss (Core.cfg (mKcp (this p)))) s
                            = Some (enc s)) segs
        /\ Forall (fun s => wire_ok s -> Core.decode (Core.conv s) (enc s) = Some s) segs
        /\ added p p'
           = map (fun s => Output g (enc s) (Core.OVERHEAD + len (Core.payload s))) segs)
  /\ (exists segs p',
        update t p = (Returns tt, p')
        /\ mKcp (this p') = fst (Core.update (mKcp (this p)) t)
        /\ snd (Core.update (mKcp (this p)) t) = map enc segs
        /\ Forall (fun s => Core.encode (Core.mss (Core.cfg (mKcp (this p)))) s
                            = Some (enc s)) segs
        /\ Forall (fun s => wire_ok s -> Core.decode (Core.conv s) (enc s) = Some s) segs
        /\ added p p'
           = map (fun s => Output g (enc s) (Core.OVERHEAD + len (Core.payload s))) segs).
Proof.
  intros Hq Hp Hmss. split; [exact (sink_adapter_forwards q t Hq) |]. split.
  - destruct (flush_segments (mKcp (this p))) as (segs & Hout & Henc).
    exists segs. eexists. split; [apply (flush_set p Hp) |].
    cbn [this mKcp trace]. split; [apply core_flush_fst |].
    split; [exact Hout |]. split; [exact Henc |].
    split; [apply Forall_forall; intros s _; apply decode_encode |].
    apply added_app. cbn [trace]. rewrite core_flush_snd, Hout.
    rewrite (@sink_calls_segments g _ segs Hmss Henc). reflexivity.
  - destruct (flush_segments (Core.with_current (mKcp (this p)) t))
      as (segs & Hout & Henc).
    change (Core.flush (Core.with_current (mKcp (this p)) t))
      with (Core.update (mKcp (this p)) t) in Hout.
    change (Core.cfg (Core.with_current (mKcp (this p)) t))
      with (Core.cfg (mKcp (this p))) in Henc.
    exists segs. eexists. split; [apply (update_set t p Hp) |].
    cbn [this mKcp trace]. split; [apply core_update_fst |].
    split; [exact Hout |]. split; [exact Henc |].
    split; [apply Forall_forall; intros s _; apply decode_encode |].
    apply added_app. cbn [trace]. rewrite core_update_snd, Hout.
    rewrite (@sink_calls_segments g _ segs Hmss Henc). reflexivity.
Qed.

Lemma output_forwarded_unchanged_witness :
  exists segs p',
    update 10 (snd (send abc 3 (sender_session 7 false sink))) = (Returns tt, p')
    /\ mKcp (this p')
       = fst (Core.update (mKcp (this (snd (send abc 3 (sender_session 7 false sink))))) 10)
    /\ snd (Core.update (mKcp (this (snd (send abc 3 (sender_session 7 false sink))))) 10)
       = map enc segs
    /\ Forall (fun s => Core.encode
                          (Core.mss (Core.cfg (mKcp (this (snd (send abc 3
                                                            (sender_session 7 false sink)))))))
                          s = Some (enc s)) segs
    /\ Forall (fun s => wire_ok s -> Core.decode (Core.conv s) (enc s) = Some s) segs
    /\ added (snd (send abc 3 (sender_session 7 false sink))) p'
       = map (fun s => Output sink (enc s) (Core.OVERHEAD + len (Core.payload s))) segs.
Proof.
  refine (proj2 (proj2 (@output_forwarded_unchanged core
                          (snd (send abc 3 (sender_session 7 false sink)))
                          (snd (send abc 3 (sender_session 7 false sink)))
                          sink 10 eq_refl eq_refl _))).
  vm_compute. reflexivity.
Defined.

Lemma firstn_len (d : bytes) : len d < 2 ^ 31 -> firstn (Z.to_nat (to_long (len d))) d = d.
Proof.
  intros H. rewrite to_long_id by (unfold len in *; lia).
  unfold len. rewrite Nat2Z.id. apply firstn_all.
Qed.

Lemma outputs_sink_calls (g : callable) (out : list bytes) :
  Forall (fun b => len b < 2 ^ 31) out ->
  outputs (sink_calls g (Core.emit out)) = Core.emit out.
Proof.
  intros H. induction H as [| b l Hb Hl IH]; [reflexivity |].
  unfold outputs, sink_calls, Core.emit in *. cbn [map flat_map fst snd app].
  rewrite IH. rewrite to_SizeType_id by (unfold len in *; lia). reflexivity.
Qed.

(** [update] of a process that hosts an engine. *)
Lemma update_hosts (g : callable) (K : Core.kcb) (p : @process core) (t : Z) :
  hosts g K p -> Forall (fun b => len b < 2 ^ 31) (snd (Core.update K t)) ->
  exists p',
    update t p = (Returns tt, p')
    /\ hosts g (fst (Core.update K t)) p'
    /\ outputs (added p p') = Core.emit (snd (Core.update K t))
    /\ mAsyncMode (this p') = mAsyncMode (this p)
    /\ mReceiveFunc (this p') = mReceiveFunc (this p)
    /\ brk p' = brk p.
Proof.
  intros [HK Hg] Hlen. rewrite (update_set t p Hg). eexists. split; [reflexivity |].
  unfold hosts. cbn [this mKcp mOutputFunc mAsyncMode mReceiveFunc brk trace].
  rewrite HK, core_update_fst. repeat split; try assumption.
  erewrite added_app by reflexivity.
  rewrite core_update_snd. apply outputs_sink_calls. exact Hlen.
Qed.

(** [input] of a process in polling mode. *)
Lemma feed_polling (g : callable) (l : list bytes) : forall (K : Core.kcb) (p : @process core),
  hosts g K p -> mAsyncMode (this p) = false ->
  Forall (fun b => len b < 2 ^ 31) l ->
  exists p',
    feed (Core.emit l) p = (Returns tt, p')
    /\ hosts g (inputs K l) p'
    /\ mAsyncMode (this p') = false
    /\ mReceiveFunc (this p') = mReceiveFunc (this p)
    /\ brk p' = brk p /\ trace p' = trace p.
Proof.
  induction l as [| d l IH]; intros K p [HK Hg] Hmode Hlen.
  - exists p. repeat split; assumption.
  - inversion Hlen as [| ? ? Hd Hl]; subst.
    cbn [Core.emit map feed]. unfold bind at 1.
    rewrite (input_sync d (len d) p Hg Hmode).
    rewrite core_input_snd. unfold sink_calls. cbn [map]. rewrite app_nil_r.
    rewrite core_input_fst, (@firstn_len d Hd).
    match goal with |- context [feed _ ?q] =>
      destruct (IH (fst (Core.input (mKcp (this p)) d)) q) as (p' & Hfeed & Hh & Hm & Hr & Hb & Ht)
    end; [split; [reflexivity | exact Hg] | exact Hmode | exact Hl |].
    exists p'. split; [exact Hfeed |]. rewrite inputs_cons.
    repeat split; try assumption; apply Hh.
Qed.


Lemma firstn_snoc_nth {A} (d : A) (l : list A) (k : nat) :
  (k < length l)%nat -> firstn k l ++ [nth k l d] = firstn (S k) l.
Proof.
  revert k. induction l as [| a l IH]; intros k H; simpl in H; [lia |].
  destruct k as [| k]; [reflexivity |].
  simpl. f_equal. apply IH. lia.
Qed.

Lemma skipn_repeat_all {A} (x : A) (n : nat) : skipn n (repeat x n) = [].
Proof. apply skipn_all2. rewrite repeat_length. apply Nat.le_refl. Qed.

Lemma idle_peeksize (K : Core.kcb) :
  Core.rx K = idle_receiver -> Core.peeksize K = -1.
Proof. intros H. unfold Core.peeksize. rewrite H. reflexivity. Qed.

Lemma stamp_sender (A : Core.kcb) (t : Z) (s : Core.segment) :
  Core.rx A = idle_receiver -> Core.cfg A = Core.default_config ->
  Core.stamp (Core.with_current A t) s
  = {| Core.conv := Core.conv s; Core.cmd := Core.cmd s; Core.frg := Core.frg s;
       Core.wnd := 128; Core.ts := t; Core.sn := Core.sn s; Core.una := 0;
       Core.payload := Core.payload s |}.
Proof.
  intros Hrx Hcfg. unfold Core.stamp, Core.wnd_unused. simpl.
  rewrite Hrx, Hcfg. reflexivity.
Qed.

Section TripBasics.
Variables (c : Z) (m : bytes).

Lemma pieces_bounded (i : nat) : len (nth i (pieces m) []) <= 1376.
Proof.
  destruct (Nat.lt_ge_cases i (length (pieces m))) as [Hi | Hi].
  - pose proof (chunks_bounded (Z.to_nat (Core.fragment_count 1376 m)) (Z.to_nat 1376) m) as H.
    rewrite Forall_forall in H.
    specialize (H (nth i (pieces m) []) (nth_In _ _ Hi)).
    unfold len. lia.
  - rewrite nth_overflow by exact Hi. unfold len. simpl. lia.
Qed.

Lemma count_pos : (1 <= count m)%nat.
Proof.
  unfold count, pieces, Core.fragments. rewrite length_chunks.
  pose proof (@fragment_count_pos 1376 m ltac:(lia)). simpl Core.mss. lia.
Qed.

Lemma concat_pieces : concat (pieces m) = m.
Proof. unfold pieces. apply concat_fragments. simpl. lia. Qed.

Lemma sender_starts : sender_at c m 0 (Core.send (Core.create c) m).
Proof.
  unfold sender_at, sender_mid, Core.send, Core.create.
  cbn [Core.conv_id Core.cfg Core.tx Core.rx Core.probe_tell Core.with_tx Core.snd_nxt
       Core.snd_queue Core.snd_buf Core.cwnd Core.snd_una Core.rmt_wnd app].
  repeat split; try reflexivity; try lia; try constructor.
  rewrite tag_seq. rewrite Nat.sub_0_r. reflexivity.
Qed.

Lemma receiver_starts : receiver_at c m 0 [] (Core.create c).
Proof.
  unfold receiver_at, Core.create.
  cbn [Core.conv_id Core.cfg Core.tx Core.rx Core.probe_tell Core.snd_queue Core.snd_buf
       Core.rmt_wnd Core.rcv_nxt Core.rcv_buf Core.acklist Core.rcv_frags Core.rcv_queue].
  repeat split; try reflexivity; try lia.
  left. pose proof count_pos. repeat split. lia.
Qed.

Lemma sender_flush (k : nat) (A : Core.kcb) (t : Z) :
  sender_at c m k A -> (k <= count m)%nat ->
  exists A' j,
    Core.update A t
    = (A', map (fun i => Core.header (data_segment c m t i)
                         ++ Core.payload (data_segment c m t i)) (seq k j))
    /\ sender_mid c m (k + j) A'
    /\ (j = 0%nat -> sender_at c m k A')
    /\ ((k < count m)%nat -> (1 <= j)%nat)
    /\ (k + j <= count m)%nat.
Proof.
  intros ((Hc & Hcfg & Hrx & Htell & Hnxt & Hq & Hbuf & Hcw) & Hb & Huna & Hrw) Hk.
  unfold Core.update.
  set (K := Core.with_current A t).
  destruct (@flush_quiet K) as (A' & Hflush & Hconv & Hcfg' & Htell' & Hcur & Hrn & Hrb
                                   & Hrf & Hrq & Hal & Hnxt' & Hq' & Hbuf' & Hrw' & Hcw' & Huna');
    [exact Htell | simpl; lia | exact Hb |].
  set (r := Z.to_nat (Core.snd_una (Core.tx K) + Core.window (Core.cfg K) (Core.tx K)
                      - Core.snd_nxt (Core.tx K))) in *.
  assert (Hr : (1 <= r)%nat).
  { subst r K. simpl. rewrite Hcfg, Huna, Hnxt. unfold Core.window. simpl. lia. }
  set (j := Nat.min r (count m - k)).
  assert (Hprom : promoted K
    = map (fun i => {| Core.seg := {| Core.conv := c; Core.cmd := Core.PUSH;
                                      Core.frg := Z.of_nat (count m - 1 - i);
                                      Core.wnd := 0; Core.ts := 0; Core.sn := Z.of_nat i;
                                      Core.una := 0;
                                      Core.payload := nth i (pieces m) [] |};
                       Core.resendts := 0; Core.rto := 0; Core.fastack := 0;
                       Core.xmit := 0 |}) (seq k j)).
  { unfold promoted. fold r. subst K. simpl Core.tx. rewrite Hnxt, Hq.
    rewrite firstn_map, firstn_seq. fold j. rewrite (number_seq (queued c m)). reflexivity. }
  exists A', j. split; [| split; [| split; [| split]]].
  - rewrite Hflush. rewrite Hprom.
    replace (Core.acklist (Core.rx K)) with (@nil (Z * Z))
      by (subst K; simpl; rewrite Hrx; reflexivity).
    replace (Core.mss (Core.cfg K)) with 1376
      by (subst K; simpl; rewrite Hcfg; reflexivity).
    cbn [map Core.wire flat_map app].
    rewrite map_map. fold (Core.wire 1376). rewrite wire_all.
    + rewrite map_map. f_equal. apply map_ext. intros i. subst K.
      rewrite (@stamp_sender A t _ Hrx Hcfg). reflexivity.
    + apply Forall_forall. intros s Hs. apply in_map_iff in Hs.
      destruct Hs as (i & <- & _). subst K.
      rewrite (@stamp_sender A t _ Hrx Hcfg). apply pieces_bounded.
  - unfold sender_mid. rewrite Hconv, Hcfg', Htell', Hnxt', Hq', Hbuf', Hcw'.
    subst K. simpl. rewrite Hprom, length_map, length_seq.
    repeat split; try assumption.
    + destruct A' as [? ? ? rx' ? ? ? ?]. destruct rx'. simpl in *.
      unfold idle_receiver. rewrite Hrx in *. simpl in *. congruence.
    + lia.
    + rewrite Hq, skipn_map, skipn_seq. f_equal. fold r.
      subst j. destruct (Nat.le_ge_cases r (count m - k)).
      * rewrite Nat.min_l by assumption. f_equal. lia.
      * rewrite Nat.min_r by assumption.
        replace (count m - k - r)%nat with 0%nat by lia.
        replace (count m - (k + (count m - k)))%nat with 0%nat by lia. reflexivity.
    + apply Forall_forall. intros e He. apply in_map_iff in He.
      destruct He as (e0 & <- & He0). rewrite resend_sn.
      apply in_map_iff in He0. destruct He0 as (i & <- & Hi). apply in_seq in Hi.
      simpl. lia.
  - intros Hj. assert (Hp0 : promoted K = []) by (rewrite Hprom, Hj; reflexivity).
    unfold sender_at, sender_mid.
    rewrite Hconv, Hcfg', Htell', Hnxt', Hq', Hbuf', Hcw', Hrw', (Huna' Hp0).
    rewrite Hp0. subst K. simpl.
    assert (Hq0 : skipn r (Core.snd_queue (Core.tx A)) = Core.snd_queue (Core.tx A)).
    { rewrite Hq, skipn_map, skipn_seq. 
      assert (count m - k = 0)%nat by (subst j; lia).
      replace (count m - k - r)%nat with 0%nat by lia. rewrite H. reflexivity. }
    fold r. rewrite Hq0.
    repeat split; try assumption; try lia; try constructor.
    destruct A' as [? ? ? rx' ? ? ? ?]. destruct rx'. simpl in *.
    unfold idle_receiver. rewrite Hrx in *. simpl in *. congruence.
  - intros Hlt. subst j. lia.
  - subst j. lia.
Qed.

Lemma sender_quiescent (g : callable) (p : @process core) :
  sending c m (count m) g p -> quiescent p.
Proof.
  intros [Hg HA] t Ht. unfold is_IUINT32 in Ht.
  destruct (@sender_flush (count m) (mKcp (this p)) t HA (Nat.le_refl _))
    as (A1 & j & Hup & _ & _ & _ & Hj).
  assert (j = 0)%nat by lia. subst j. cbn [seq map] in Hup.
  rewrite (update_set t p Hg). eexists. split; [reflexivity |].
  apply added_app. cbn [trace]. rewrite core_update_snd, Hup. reflexivity.
Qed.

Lemma polling_receives (g : callable) (p : @process core) :
  len m < 2 ^ 31 ->
  polling c m (count m) g p ->
  exists p',
    receive p = (Returns {| data := Some {| block := brk p; contents := m |};
                            size := len m |}, p')
    /\ receive p' = (Returns {| data := None; size := 0 |}, p').
Proof.
  intros Hlen (Hg & Hmode & HB).
  destruct HB as (_ & _ & _ & _ & _ & _ & _ & _ & _ & Hfr).
  destruct Hfr as [(Hlt & _) | (_ & Hf & Hq)]; [lia |].
  assert (Hpeek : @ikcp_peeksize core (mKcp (this p)) = len m).
  { cbn [ikcp_peeksize core]. unfold Core.peeksize. rewrite Hq. reflexivity. }
  assert (Hrecv : @ikcp_recv core (mKcp (this p))
                    (repeat Byte.x00 (Z.to_nat (ikcp_peeksize (mKcp (this p)))))
                    (ikcp_peeksize (mKcp (this p)))
                  = (fst (Core.recv (mKcp (this p))), m, len m)).
  { rewrite Hpeek. cbn [ikcp_recv core]. unfold Core.recv_into. rewrite Hq.
    rewrite Z.ltb_irrefl. unfold len. rewrite Nat2Z.id, skipn_repeat_all, app_nil_r.
    reflexivity. }
  assert (H0 : 0 <= len m) by (unfold len; lia).
  rewrite (@receive_some core p _ _ _ ltac:(rewrite Hpeek; lia) Hrecv).
  rewrite Hpeek, to_SizeType_id, Z.eqb_refl by lia.
  eexists. split; [reflexivity |].
  apply receive_none. cbn [after_recv this mKcp ikcp_peeksize core].
  unfold Core.peeksize, Core.recv. rewrite Hq. cbn. lia.
Qed.

End TripBasics.

Section TripWindow.
Variables (c : Z) (m : bytes).
Hypothesis m_fits : (count m <= 128)%nat.

Lemma advertised_range (k : nat) : (k <= count m)%nat -> 1 <= advertised m k < 2 ^ 16.
Proof.
  intros Hk. unfold advertised. destruct (Nat.ltb_spec k (count m)); lia.
Qed.

Lemma receiver_flush (k : nat) (acks : list (Z * Z)) (B : Core.kcb) (t : Z) :
  receiver_at c m k acks B -> (k <= count m)%nat ->
  exists B',
    Core.update B t
    = (B', map (fun a => enc (ack_of c (advertised m k) (Z.of_nat k) a)) acks)
    /\ receiver_at c m k [] B'.
Proof.
  intros (Hc & Hcfg & Htell & Hq & Hbuf & Hrw & Hnxt & Hrb & Hal & Hfr) Hk.
  unfold Core.update. set (K := Core.with_current B t).
  destruct (@flush_quiet K) as (B' & Hflush & Hconv & Hcfg' & Htell' & Hcur & Hrn & Hrb'
                                   & Hrf & Hrq & Hal' & Hnxt' & Hq' & Hbuf' & Hrw' & Hcw' & Huna');
    [exact Htell | exact Hrw | exact Hbuf |].
  assert (Hprom : promoted K = []).
  { unfold promoted. subst K. simpl Core.tx. rewrite Hq, firstn_nil. reflexivity. }
  assert (Hw : Core.wnd_unused K = advertised m k).
  { unfold Core.wnd_unused, advertised. subst K. cbn [Core.cfg Core.rx Core.with_current].
    rewrite Hcfg. cbn [Core.rcv_wnd Core.default_config].
    destruct Hfr as [(Hlt & Hfr & Hqu) | (Heq & Hfr & Hqu)].
    - rewrite <- (length_map Core.payload), Hfr, Hqu, length_firstn.
      destruct (Nat.ltb_spec k (count m)); [| lia]. unfold count in *. simpl length. lia.
    - rewrite Hfr, Hqu. destruct (Nat.ltb_spec k (count m)); [lia |]. simpl. lia. }
  exists B'. split.
  - rewrite Hflush, Hprom. cbn [map Core.wire flat_map]. rewrite app_nil_r.
    fold (Core.wire (Core.mss (Core.cfg K))).
    rewrite wire_all.
    + rewrite map_map. subst K. cbn [Core.rx Core.with_current]. rewrite Hal.
      f_equal. apply map_ext. intros a. unfold enc, Core.ack_segment, ack_of.
      rewrite Hw. cbn [Core.conv_id Core.rx Core.with_current]. rewrite Hc, Hnxt. reflexivity.
    + apply Forall_forall. intros s Hs. apply in_map_iff in Hs.
      destruct Hs as (a & <- & _). subst K. simpl. rewrite Hcfg. simpl. unfold len. simpl. lia.
  - unfold receiver_at.
    rewrite Hconv, Hcfg', Htell', Hq', Hbuf', Hrw', Hrn, Hrb', Hal', Hrf, Hrq, Hprom.
    subst K. cbn [Core.conv_id Core.cfg Core.tx Core.rx Core.with_current map].
    rewrite Hq, skipn_nil. repeat split; assumption.
Qed.

Lemma receiver_quiescent (k : nat) (g : callable) (p : @process core) :
  (k <= count m)%nat -> polling c m k g p -> quiescent p.
Proof.
  intros Hk (Hg & _ & HB) t Ht.
  destruct (@receiver_flush k [] (mKcp (this p)) t HB Hk) as (B' & Hup & _).
  cbn [map] in Hup.
  rewrite (update_set t p Hg). eexists. split; [reflexivity |].
  apply added_app. cbn [trace]. rewrite core_update_snd, Hup. reflexivity.
Qed.

End TripWindow.

Section TripFacts.
Variables (c : Z) (m : bytes).
Hypothesis c_range : 0 <= c < 2 ^ 32.
Hypothesis m_fits : (count m <= 128)%nat.

Lemma data_segment_wire_ok (t : Z) (k : nat) :
  0 <= t < 2 ^ 32 -> (k < count m)%nat -> wire_ok (data_segment c m t k).
Proof.
  intros Ht Hk. unfold wire_ok. simpl.
  pose proof (pieces_bounded m k). unfold len in *. lia.
Qed.

Lemma receiver_takes (k : nat) (acks : list (Z * Z)) (B : Core.kcb) (t : Z) :
  receiver_at c m k acks B -> (k < count m)%nat -> 0 <= t < 2 ^ 32 ->
  exists B',
    Core.input B (Core.header (data_segment c m t k) ++ Core.payload (data_segment c m t k))
    = (B', 0)
    /\ receiver_at c m (S k) (acks ++ [(Z.of_nat k, t)]) B'.
Proof.
  intros (Hc & Hcfg & Htell & Hq & Hbuf & Hrw & Hnxt & Hrb & Hal & Hfr) Hk Ht.
  destruct Hfr as [(_ & Hfr & Hqu) | (Heq & _)]; [| lia].
  unfold Core.input. rewrite Hc.
  change c with (Core.conv (data_segment c m t k)) at 1.
  rewrite (decode_encode (data_segment_wire_ok Ht Hk)).
  cbn [Core.cmd Core.wnd Core.una data_segment].
  set (B1 := Core.with_tx B _).
  assert (Hlen : length (Core.rcv_frags (Core.rx B)) = k).
  { rewrite <- (length_map Core.payload), Hfr, length_firstn. unfold count in Hk. lia. }
  assert (Hw : Core.wnd_unused B1 = 128 - Z.of_nat k).
  { unfold Core.wnd_unused. subst B1. cbn [Core.cfg Core.rx Core.with_tx].
    rewrite Hcfg, Hlen, Hqu. cbn [Core.rcv_wnd Core.default_config length]. lia. }
  destruct (on_push_frame B1 (data_segment c m t k)) as (Hpc & Hpcfg & Hptx & Hptell).
  pose proof (@on_push_next B1 (data_segment c m t k)) as Hrx.
  subst B1. cbn [Core.rx Core.with_tx Core.conv_id Core.cfg Core.tx Core.probe_tell
                 Core.sn Core.ts Core.frg data_segment] in *.
  specialize (Hrx (eq_sym Hnxt) Hrb ltac:(lia)).
  eexists. split; [reflexivity |].
  rewrite Hptx, Hpcfg.
  match goal with |- context [Core.ack_cumulative 0 ?s] =>
    destruct (@ack_cumulative_idle 0 s Hbuf) as (Haq & Hab & Har & _)
  end.
  match goal with |- context [Core.grow ?cf ?a ?s] =>
    destruct (grow_frame cf a s) as (_ & _ & Hgq & Hgb & Hgr & _)
  end.
  unfold receiver_at.
  cbn [Core.conv_id Core.cfg Core.tx Core.rx Core.probe_tell Core.with_tx].
  rewrite Hpc, Hpcfg, Hptell, Hgq, Hgb, Hgr, Haq, Hab, Har, Hrx.
  cbn [Core.rcv_nxt Core.rcv_buf Core.rcv_frags Core.rcv_queue Core.acklist Core.snd_queue
       Core.rmt_wnd].
  rewrite Hnxt, Hal, Hqu.
  repeat split; try assumption; try lia.
  destruct (Z.eqb_spec (Z.of_nat (count m - 1 - k)) 0) as [Hlast | Hmore].
  - right. repeat split; [lia |].
    rewrite map_app, Hfr. cbn [map Core.payload data_segment app].
    rewrite firstn_snoc_nth by (unfold count in *; lia).
    rewrite firstn_all2 by (unfold count in *; lia).
    rewrite concat_pieces. reflexivity.
  - left. repeat split; [lia |].
    rewrite map_app, Hfr. cbn [map Core.payload data_segment app].
    apply firstn_snoc_nth. unfold count in *. lia.
Qed.

Lemma receiver_takes_run (t : Z) (j : nat) : forall (k : nat) (acks : list (Z * Z)) (B : Core.kcb),
  0 <= t < 2 ^ 32 ->
  receiver_at c m k acks B -> (k + j <= count m)%nat ->
  receiver_at c m (k + j) (acks ++ map (fun i => (Z.of_nat i, t)) (seq k j))
    (inputs B (map (fun i => enc (data_segment c m t i)) (seq k j))).
Proof.
  induction j as [| j IH]; intros k acks B Ht HB Hk.
  - cbn [seq map inputs fold_left]. rewrite app_nil_r, Nat.add_0_r. exact HB.
  - cbn [seq map]. rewrite inputs_cons.
    destruct (@receiver_takes k acks B t HB ltac:(lia) Ht) as (B' & Hin & HB').
    unfold enc at 1. rewrite Hin. cbn [fst].
    specialize (IH (S k) _ B' Ht HB' ltac:(lia)).
    rewrite <- app_assoc in IH. cbn [app] in IH.
    replace (k + S j)%nat with (S k + j)%nat by lia. exact IH.
Qed.

Lemma ack_wire_ok (w u : Z) (a : Z * Z) :
  0 <= w < 2 ^ 16 -> 0 <= u < 2 ^ 32 -> 0 <= fst a < 2 ^ 32 -> 0 <= snd a < 2 ^ 32 ->
  wire_ok (ack_of c w u a).
Proof. intros. unfold wire_ok. simpl. unfold len. simpl. lia. Qed.

Lemma sender_takes_ack (k : nat) (A : Core.kcb) (w : Z) (a : Z * Z) :
  sender_mid c m k A -> (k <= count m)%nat ->
  1 <= w < 2 ^ 16 -> 0 <= fst a < 2 ^ 32 -> 0 <= snd a < 2 ^ 32 ->
  exists A',
    Core.input A (enc (ack_of c w (Z.of_nat k) a)) = (A', 0) /\ sender_at c m k A'.
Proof.
  intros (Hc & Hcfg & Hrx & Htell & Hnxt & Hq & Hbuf & Hcw) Hk Hw Ha1 Ha2.
  unfold Core.input, enc. rewrite Hc.
  change c with (Core.conv (ack_of c w (Z.of_nat k) a)) at 1.
  rewrite decode_encode by (apply ack_wire_ok; lia).
  cbn [Core.cmd Core.wnd Core.una Core.sn ack_of].
  set (A1 := Core.with_tx A _).
  destruct (on_ack_frame A1 (ack_of c w (Z.of_nat k) a)) as (Hoc & Hocfg & Horx & Hotell & Hotx).
  fold (ack_of c w (Z.of_nat k) a).
  eexists. split; [reflexivity |].
  rewrite Hotx, Hocfg.
  destruct (ack_selective_frame (Core.sn (ack_of c w (Z.of_nat k) a)) (Z.of_nat k) (Core.tx A1))
    as (Hsn & Hsq & Hsr & Hsc & Hsf).
  specialize (Hsf Hbuf).
  match goal with |- context [Core.ack_cumulative ?u ?s] =>
    destruct (@ack_cumulative_all u s Hsf) as (Haq & Hab & Har & Han & Hau & Hac)
  end.
  match goal with |- context [Core.grow ?cf ?x ?s] =>
    destruct (grow_frame cf x s) as (Hgu & Hgn & Hgq & Hgb & Hgr & Hgc)
  end.
  unfold sender_at, sender_mid.
  cbn [Core.conv_id Core.cfg Core.tx Core.rx Core.probe_tell Core.with_tx].
  rewrite Hoc, Hocfg, Horx, Hotell, Hgu, Hgn, Hgq, Hgb, Hgr, Haq, Hab, Har, Han, Hau,
    Hsn, Hsq, Hsr.
  assert (Hcw' : 1 <= Core.cwnd (Core.tx A1)) by (subst A1; exact Hcw).
  rewrite <- Hsc, <- Hac in Hcw'.
  subst A1. cbn [Core.conv_id Core.cfg Core.tx Core.rx Core.probe_tell Core.with_tx
                 Core.snd_nxt Core.snd_queue Core.rmt_wnd Core.cwnd] in *.
  repeat split; try assumption; try lia; try constructor.
  apply grow_frame. exact Hcw'.
Qed.

Lemma sender_takes_acks (k : nat) (w : Z) (acks : list (Z * Z)) : forall A,
  (k <= count m)%nat -> 1 <= w < 2 ^ 16 ->
  Forall (fun a => 0 <= fst a < 2 ^ 32 /\ 0 <= snd a < 2 ^ 32) acks ->
  sender_mid c m k A -> (acks = [] -> sender_at c m k A) ->
  sender_at c m k (inputs A (map (fun a => enc (ack_of c w (Z.of_nat k) a)) acks)).
Proof.
  induction acks as [| a acks IH]; intros A Hk Hw Hacks Hmid Hnil.
  - simpl. auto.
  - inversion Hacks as [| ? ? [Ha1 Ha2] Hrest]; subst.
    destruct (@sender_takes_ack k A w a Hmid Hk Hw Ha1 Ha2) as (A' & Hin & HA').
    cbn [map]. rewrite inputs_cons, Hin. cbn [fst].
    apply IH; auto. exact (proj1 HA').
Qed.

Lemma feed_acks (g : callable) (k : nat) (w : Z) (acks : list (Z * Z)) :
  forall p : @process core,
  mOutputFunc (this p) = Some g ->
  sender_mid c m k (mKcp (this p)) -> (k <= count m)%nat -> 1 <= w < 2 ^ 16 ->
  Forall (fun a => 0 <= fst a < 2 ^ 32 /\ 0 <= snd a < 2 ^ 32) acks ->
  exists p',
    feed (Core.emit (map (fun a => enc (ack_of c w (Z.of_nat k) a)) acks)) p
    = (Returns tt, p')
    /\ mOutputFunc (this p') = Some g
    /\ mKcp (this p')
       = inputs (mKcp (this p)) (map (fun a => enc (ack_of c w (Z.of_nat k) a)) acks).
Proof.
  induction acks as [| a acks IH]; intros p Hg Hmid Hk Hw Hacks.
  - exists p. repeat split; assumption.
  - inversion Hacks as [| ? ? [Ha1 Ha2] Hrest]; subst.
    destruct (@sender_takes_ack k (mKcp (this p)) w a Hmid Hk Hw Ha1 Ha2) as (A' & Hin & HA').
    assert (Hd : len (enc (ack_of c w (Z.of_nat k) a)) < 2 ^ 31).
    { unfold enc. rewrite len_app, len_header. unfold len. cbn [Core.payload ack_of length]. lia. }
    cbn [Core.emit map feed]. unfold bind at 1.
    rewrite (input_unfold _ (len (enc (ack_of c w (Z.of_nat k) a))) p Hg).
    cbv zeta. rewrite core_input_snd, core_input_fst, (@firstn_len _ Hd), Hin.
    cbn [fst]. unfold sink_calls. cbn [map]. rewrite app_nil_r.
    unfold hasReceivablePacket. cbn [this mKcp].
    change (@ikcp_peeksize core A') with (Core.peeksize A').
    rewrite (@idle_peeksize A') by (apply HA').
    rewrite andb_false_r.
    match goal with |- context [feed _ ?q] =>
      destruct (IH q) as (p' & Hfeed & Hg' & HK')
    end; [exact Hg | exact (proj1 HA') | exact Hk | exact Hw | exact Hrest |].
    exists p'. split; [exact Hfeed |]. split; [exact Hg' |].
    rewrite inputs_cons, Hin. exact HK'.
Qed.

Lemma round_progress (k : nat) (ga gb : callable) (a b : @process core) (t : Z) :
  0 <= t < 2 ^ 32 -> (k <= count m)%nat ->
  sending c m k ga a -> polling c m k gb b ->
  exists k' a' b',
    round t (a, b) = Some (a', b')
    /\ sending c m k' ga a' /\ polling c m k' gb b'
    /\ (k' <= count m)%nat /\ (k <= k')%nat /\ ((k < count m)%nat -> (k < k')%nat).
Proof.
  intros Ht Hk [Hga HA] (Hgb & Hmode & HB).
  destruct (@sender_flush c m k (mKcp (this a)) t HA Hk) as (A1 & j & HupA & HA1 & HA10 & Hj & Hkj).
  assert (HlenA : Forall (fun d => len d < 2 ^ 31) (snd (Core.update (mKcp (this a)) t))).
  { rewrite HupA. cbn [snd]. apply Forall_forall. intros d Hd. apply in_map_iff in Hd.
    destruct Hd as (i & <- & _). rewrite len_app, len_header.
    pose proof (pieces_bounded m i). cbn [Core.payload data_segment]. lia. }
  destruct (@update_hosts ga (mKcp (this a)) a t (conj eq_refl Hga) HlenA)
    as (a1 & Hupa & [HK1 Hg1] & Hout1 & _).
  unfold round. rewrite Hupa, Hout1.
  destruct (@feed_polling gb _ (mKcp (this b)) b (conj eq_refl Hgb) Hmode HlenA)
    as (b1 & Hfeedb & [HKb1 Hgb1] & Hmode1 & _).
  rewrite Hfeedb.
  rewrite HupA in HKb1, HK1. cbn [fst snd] in HKb1, HK1.
  pose proof (@receiver_takes_run t j k [] (mKcp (this b)) Ht HB Hkj) as HB1.
  fold (enc) in *.
  change (map (fun i => Core.header (data_segment c m t i) ++ Core.payload (data_segment c m t i)))
    with (map (fun i => enc (data_segment c m t i))) in HKb1.
  rewrite <- HKb1 in HB1.
  destruct (@receiver_flush c m m_fits (k + j) _ (mKcp (this b1)) t HB1 Hkj) as (B2 & HupB & HB2).
  assert (HlenB : Forall (fun d => len d < 2 ^ 31) (snd (Core.update (mKcp (this b1)) t))).
  { rewrite HupB. cbn [snd]. apply Forall_forall. intros d Hd. apply in_map_iff in Hd.
    destruct Hd as (x & <- & _). unfold enc. rewrite len_app, len_header.
    unfold len. cbn [Core.payload ack_of length]. lia. }
  destruct (@update_hosts gb (mKcp (this b1)) b1 t (conj eq_refl Hgb1) HlenB)
    as (b2 & Hupb & [HK2 Hg2] & Hout2 & Hmode2 & _).
  rewrite Hupb, Hout2. rewrite HupB in HK2 |- *. cbn [fst snd] in HK2 |- *.
  assert (Hacks : Forall (fun x => 0 <= fst x < 2 ^ 32 /\ 0 <= snd x < 2 ^ 32)
                    ([] ++ map (fun i => (Z.of_nat i, t)) (seq k j))).
  { apply Forall_forall. intros x Hx. cbn [app] in Hx. apply in_map_iff in Hx.
    destruct Hx as (i & <- & Hi). apply in_seq in Hi. cbn [fst snd]. lia. }
  rewrite <- HK1 in HA1.
  destruct (@feed_acks ga (k + j) (advertised m (k + j)) _ a1 Hg1 HA1 Hkj
              (@advertised_range m m_fits (k + j) Hkj) Hacks) as (a2 & Hfeeda & Hg2a & HK2a).
  rewrite Hfeeda.
  exists (k + j)%nat, a2, b2. split; [reflexivity |].
  split; [| split; [| split; [exact Hkj | split; [lia | lia]]]].
  - split; [exact Hg2a |]. rewrite HK2a.
    apply sender_takes_acks; auto.
    + apply (@advertised_range m m_fits). exact Hkj.
    + intros Hnil. cbn [app] in Hnil.
      destruct j; [| discriminate]. rewrite Nat.add_0_r. rewrite HK1. apply HA10. reflexivity.
  - split; [exact Hg2 |]. split; [congruence |]. rewrite HK2. exact HB2.
Qed.

Lemma rounds_progress (ga gb : callable) (ticks : list Z) :
  forall (k : nat) (a b : @process core),
  Forall (fun t => 0 <= t < 2 ^ 32) ticks -> (k <= count m)%nat ->
  sending c m k ga a -> polling c m k gb b ->
  exists k' a' b',
    rounds ticks (a, b) = Some (a', b')
    /\ sending c m k' ga a' /\ polling c m k' gb b'
    /\ (k' <= count m)%nat /\ (Nat.min (count m) (k + length ticks) <= k')%nat.
Proof.
  induction ticks as [| t ticks IH]; intros k a b Hticks Hk Ha Hb.
  - exists k, a, b. repeat split; try assumption; try apply Ha; try apply Hb.
    cbn [length]. lia.
  - inversion Hticks as [| ? ? Ht Hrest]; subst.
    destruct (@round_progress k ga gb a b t Ht Hk Ha Hb)
      as (k1 & a1 & b1 & Hround & Ha1 & Hb1 & Hk1 & Hle & Hlt).
    destruct (IH k1 a1 b1 Hrest Hk1 Ha1 Hb1) as (k2 & a2 & b2 & Hrounds & Ha2 & Hb2 & Hk2 & Hmin).
    exists k2, a2, b2. cbn [rounds]. rewrite Hround.
    repeat split; try assumption; try apply Ha2; try apply Hb2.
    cbn [length]. lia.
Qed.

End TripFacts.


Lemma within_limits_count (m : bytes) : within_limits m -> (count m <= 128)%nat.
Proof.
  unfold within_limits, count, pieces, Core.fragments. rewrite length_chunks.
  cbn [Core.mss Core.rcv_wnd Core.default_config]. lia.
Qed.

Lemma within_limits_len (m : bytes) : within_limits m -> len m < 2 ^ 31.
Proof.
  unfold within_limits. cbn [Core.mss Core.rcv_wnd Core.default_config].
  intros H. pose proof (@fragment_count_covers (1400 - Core.OVERHEAD) m) as Hc.
  unfold Core.OVERHEAD in *. specialize (Hc ltac:(lia)). lia.
Qed.

Lemma send_within_int (d : bytes) (p : @process core) :
  len d <= INT_MAX ->
  send d (len d) p = (Returns tt, with_mKcp p (Core.send (mKcp (this p)) d)).
Proof.
  intros Hn. unfold INT_MAX in Hn.
  assert (H0 : 0 <= len d) by (unfold len; lia).
  unfold send, bind, get_this. rewrite to_int_id by (unfold is_int; lia).
  change (ikcp_send (mKcp (this p)) d (len d))
    with (Core.send_from (mKcp (this p)) d (len d)).
  unfold Core.send_from.
  destruct (Z.ltb_spec (len d) 0); [lia |].
  unfold len. rewrite Nat2Z.id, firstn_all. reflexivity.
Qed.


(** ** The round trip into a receive callback *)

Lemma sink_calls_no_receive (g : callable) (out : list emission) :
  filter is_receive (sink_calls g out) = [].
Proof. unfold sink_calls. induction out as [| e out IH]; simpl; auto. Qed.

Section TripAsyncFacts.
Variables (c : Z) (m : bytes).
Hypothesis c_range : 0 <= c < 2 ^ 32.
Hypothesis m_fits : (count m <= 128)%nat.
Hypothesis m_len : len m < 2 ^ 31.

(** [receive] of the message the engine has reassembled. *)
Lemma receive_queued (p : @process core) :
  Core.rcv_queue (Core.rx (mKcp (this p))) = [m] ->
  receive p
  = (Returns (carries m (brk p)), after_recv p (fst (Core.recv (mKcp (this p))))).
Proof.
  intros Hq.
  assert (Hpeek : @ikcp_peeksize core (mKcp (this p)) = len m).
  { cbn [ikcp_peeksize core]. unfold Core.peeksize. rewrite Hq. reflexivity. }
  assert (Hrecv : @ikcp_recv core (mKcp (this p))
                    (repeat Byte.x00 (Z.to_nat (ikcp_peeksize (mKcp (this p)))))
                    (ikcp_peeksize (mKcp (this p)))
                  = (fst (Core.recv (mKcp (this p))), m, len m)).
  { rewrite Hpeek. cbn [ikcp_recv core]. unfold Core.recv_into. rewrite Hq.
    rewrite Z.ltb_irrefl. unfold len. rewrite Nat2Z.id, skipn_repeat_all, app_nil_r.
    reflexivity. }
  assert (H0 : 0 <= len m) by (unfold len; lia).
  rewrite (@receive_some core p _ _ _ ltac:(rewrite Hpeek; lia) Hrecv).
  rewrite Hpeek, to_SizeType_id, Z.eqb_refl by lia. reflexivity.
Qed.

(** [input] of the next fragment in async mode: the last one completes
    the message, which goes to the callback. *)
Lemma calling_takes (k : nat) (acks : list (Z * Z)) (g f : callable) (b0 : nat)
    (p : @process core) (t : Z) :
  0 <= t < 2 ^ 32 -> (k < count m)%nat ->
  calling c m k acks g f b0 p ->
  exists p',
    input (enc (data_segment c m t k)) (len (enc (data_segment c m t k))) p
    = (Returns tt, p')
    /\ calling c m (S k) (acks ++ [(Z.of_nat k, t)]) g f b0 p'.
Proof.
  intros Ht Hk (Hg & Hmode & Hf & [(_ & HB & Hbrk & Hdel) | (Heq & _)]); [| lia].
  destruct (@receiver_takes c m c_range m_fits k acks (mKcp (this p)) t HB Hk Ht)
    as (B' & Hin & HB').
  assert (Hd : len (enc (data_segment c m t k)) < 2 ^ 31).
  { unfold enc. rewrite len_app, len_header.
    pose proof (pieces_bounded m k). cbn [Core.payload data_segment]. lia. }
  rewrite (input_unfold _ (len (enc (data_segment c m t k))) p Hg).
  cbv zeta. rewrite core_input_snd, core_input_fst, (@firstn_len _ Hd).
  unfold enc. rewrite Hin. cbn [fst].
  unfold sink_calls. cbn [map]. rewrite app_nil_r. rewrite Hmode, Hf.
  unfold hasReceivablePacket. cbn [this mKcp].
  change (@ikcp_peeksize core B') with (Core.peeksize B').
  pose proof HB' as (Hc' & Hcfg' & Htell' & Hq' & Hbuf' & Hrw' & Hnxt' & Hrb' & Hal' & Hfr').
  destruct Hfr' as [(Hlt & Hfrags & Hqu) | (Heq & Hfrags & Hqu)].
  - unfold Core.peeksize. rewrite Hqu. cbn [andb Z.leb Z.compare].
    eexists. split; [reflexivity |].
    unfold calling. cbn [this mKcp mOutputFunc mAsyncMode mReceiveFunc brk trace].
    split; [exact Hg |]. split; [reflexivity |]. split; [reflexivity |].
    left. split; [exact Hlt |]. split; [exact HB' |]. split; [exact Hbrk | exact Hdel].
  - unfold Core.peeksize. rewrite Hqu.
    assert (H0 : (0 <=? len m) = true) by (apply Z.leb_le; unfold len; lia).
    rewrite H0. cbn [andb]. unfold bind.
    match goal with |- context [receive ?q] =>
      rewrite (@receive_queued q) by exact Hqu
    end.
    cbn [call_receive]. unfold log.
    eexists. split; [reflexivity |].
    unfold calling.
    cbn [this mKcp mOutputFunc mAsyncMode mReceiveFunc after_recv brk trace].
    split; [exact Hg |]. split; [reflexivity |]. split; [reflexivity |].
    right. split; [lia |]. split.
    + unfold receiver_done, Core.recv. rewrite Hqu.
      cbn [fst Core.conv_id Core.cfg Core.tx Core.rx Core.probe_tell Core.with_rx
           Core.rcv_nxt Core.rcv_buf Core.rcv_frags Core.rcv_queue Core.acklist].
      rewrite Heq in Hnxt'. repeat split; assumption.
    + unfold delivered in *. cbn [trace]. rewrite filter_app, Hdel, Hbrk. reflexivity.
Qed.

Lemma calling_feed (g f : callable) (b0 : nat) (t : Z) (j : nat) :
  forall (k : nat) (acks : list (Z * Z)) (p : @process core),
  0 <= t < 2 ^ 32 -> (k + j <= count m)%nat ->
  calling c m k acks g f b0 p ->
  exists p',
    feed (Core.emit (map (fun i => enc (data_segment c m t i)) (seq k j))) p
    = (Returns tt, p')
    /\ calling c m (k + j) (acks ++ map (fun i => (Z.of_nat i, t)) (seq k j)) g f b0 p'.
Proof.
  induction j as [| j IH]; intros k acks p Ht Hk Hp.
  - exists p. cbn [seq map Core.emit feed]. rewrite app_nil_r, Nat.add_0_r.
    split; [reflexivity | exact Hp].
  - destruct (@calling_takes k acks g f b0 p t Ht ltac:(lia) Hp) as (p1 & Hin & Hp1).
    destruct (IH (S k) _ p1 Ht ltac:(lia) Hp1) as (p' & Hfeed & Hp').
    exists p'. cbn [seq map Core.emit feed]. unfold bind at 1. rewrite Hin.
    split; [exact Hfeed |].
    rewrite <- app_assoc in Hp'. cbn [app] in Hp'.
    replace (k + S j)%nat with (S k + j)%nat by lia. exact Hp'.
Qed.

(** A tick of the receiver once the message is out: the pending
    acknowledgments leave, advertising the whole window. *)
Lemma receiver_done_flush (acks : list (Z * Z)) (B : Core.kcb) (t : Z) :
  receiver_done c m acks B ->
  exists B',
    Core.update B t
    = (B', map (fun a => enc (ack_of c 128 (Z.of_nat (count m)) a)) acks)
    /\ receiver_done c m [] B'.
Proof.
  intros (Hc & Hcfg & Htell & Hq & Hbuf & Hrw & Hnxt & Hrb & Hal & Hfr & Hqu).
  unfold Core.update. set (K := Core.with_current B t).
  destruct (@flush_quiet K) as (B' & Hflush & Hconv & Hcfg' & Htell' & Hcur & Hrn & Hrb'
                                   & Hrf & Hrq & Hal' & Hnxt' & Hq' & Hbuf' & Hrw' & Hcw' & Huna');
    [exact Htell | exact Hrw | exact Hbuf |].
  assert (Hprom : promoted K = []).
  { unfold promoted. subst K. simpl Core.tx. rewrite Hq, firstn_nil. reflexivity. }
  assert (Hw : Core.wnd_unused K = 128).
  { unfold Core.wnd_unused. subst K. cbn [Core.cfg Core.rx Core.with_current].
    rewrite Hcfg, Hfr, Hqu. reflexivity. }
  exists B'. split.
  - rewrite Hflush, Hprom. cbn [map Core.wire flat_map]. rewrite app_nil_r.
    fold (Core.wire (Core.mss (Core.cfg K))).
    rewrite wire_all.
    + rewrite map_map. subst K. cbn [Core.rx Core.with_current]. rewrite Hal.
      f_equal. apply map_ext. intros a. unfold enc, Core.ack_segment, ack_of.
      rewrite Hw. cbn [Core.conv_id Core.rx Core.with_current]. rewrite Hc, Hnxt. reflexivity.
    + apply Forall_forall. intros s Hs. apply in_map_iff in Hs.
      destruct Hs as (a & <- & _). subst K. simpl. rewrite Hcfg. simpl. unfold len. simpl. lia.
  - unfold receiver_done.
    rewrite Hconv, Hcfg', Htell', Hq', Hbuf', Hrw', Hrn, Hrb', Hal', Hrf, Hrq, Hprom.
    subst K. cbn [Core.conv_id Core.cfg Core.tx Core.rx Core.with_current map].
    rewrite Hq, skipn_nil. repeat split; assumption.
Qed.

(** A tick of session B in async mode. *)
Lemma calling_update (k : nat) (acks : list (Z * Z)) (g f : callable) (b0 : nat)
    (p : @process core) (t : Z) :
  (k <= count m)%nat ->
  calling c m k acks g f b0 p ->
  exists p' w,
    update t p = (Returns tt, p')
    /\ 1 <= w < 2 ^ 16
    /\ added p p'
       = sink_calls g (Core.emit (map (fun a => enc (ack_of c w (Z.of_nat k) a)) acks))
    /\ calling c m k [] g f b0 p'.
Proof.
  intros Hk (Hg & Hmode & Hf & [(Hlt & HB & Hbrk & Hdel) | (Heq & HB & Hdel)]).
  - destruct (@receiver_flush c m m_fits k acks (mKcp (this p)) t HB Hk) as (B' & Hup & HB').
    rewrite (update_set t p Hg). rewrite core_update_fst, core_update_snd, Hup.
    eexists. exists (advertised m k). split; [reflexivity |].
    split; [apply (@advertised_range m m_fits k Hk) |].
    split; [apply added_app; reflexivity |].
    cbn [fst snd]. unfold calling. cbn [this mKcp mOutputFunc mAsyncMode mReceiveFunc brk].
    split; [exact Hg |]. split; [exact Hmode |]. split; [exact Hf |].
    left. split; [exact Hlt |]. split; [exact HB' |]. split; [exact Hbrk |].
    unfold delivered in *. cbn [trace]. rewrite filter_app, sink_calls_no_receive, app_nil_r.
    exact Hdel.
  - subst k.
    destruct (@receiver_done_flush acks (mKcp (this p)) t HB) as (B' & Hup & HB').
    rewrite (update_set t p Hg). rewrite core_update_fst, core_update_snd, Hup.
    eexists. exists 128. split; [reflexivity |].
    split; [lia |].
    split; [apply added_app; reflexivity |].
    cbn [fst snd]. unfold calling. cbn [this mKcp mOutputFunc mAsyncMode mReceiveFunc brk].
    split; [exact Hg |]. split; [exact Hmode |]. split; [exact Hf |].
    right. split; [reflexivity |]. split; [exact HB' |].
    unfold delivered in *. cbn [trace]. rewrite filter_app, sink_calls_no_receive, app_nil_r.
    exact Hdel.
Qed.

Lemma round_progress_async (k : nat) (ga gb f : callable) (b0 : nat)
    (a b : @process core) (t : Z) :
  0 <= t < 2 ^ 32 -> (k <= count m)%nat ->
  sending c m k ga a -> calling c m k [] gb f b0 b ->
  exists k' a' b',
    round t (a, b) = Some (a', b')
    /\ sending c m k' ga a' /\ calling c m k' [] gb f b0 b'
    /\ (k' <= count m)%nat /\ (k <= k')%nat /\ ((k < count m)%nat -> (k < k')%nat).
Proof.
  intros Ht Hk [Hga HA] Hb.
  destruct (@sender_flush c m k (mKcp (this a)) t HA Hk) as (A1 & j & HupA & HA1 & HA10 & Hj & Hkj).
  assert (HlenA : Forall (fun d => len d < 2 ^ 31) (snd (Core.update (mKcp (this a)) t))).
  { rewrite HupA. cbn [snd]. apply Forall_forall. intros d Hd. apply in_map_iff in Hd.
    destruct Hd as (i & <- & _). rewrite len_app, len_header.
    pose proof (pieces_bounded m i). cbn [Core.payload data_segment]. lia. }
  destruct (@update_hosts ga (mKcp (this a)) a t (conj eq_refl Hga) HlenA)
    as (a1 & Hupa & [HK1 Hg1] & Hout1 & _).
  unfold round. rewrite Hupa, Hout1. rewrite HupA in HK1 |- *. cbn [fst snd] in HK1 |- *.
  destruct (@calling_feed gb f b0 t j k [] b Ht Hkj Hb) as (b1 & Hfeedb & Hb1).
  change (map (fun i => Core.header (data_segment c m t i) ++ Core.payload (data_segment c m t i)))
    with (map (fun i => enc (data_segment c m t i))).
  rewrite Hfeedb.
  destruct (@calling_update (k + j) _ gb f b0 b1 t Hkj Hb1) as (b2 & w & Hupb & Hw & Hadd & Hb2).
  rewrite Hupb, Hadd.
  rewrite outputs_sink_calls.
  2:{ apply Forall_forall. intros d Hd. apply in_map_iff in Hd.
      destruct Hd as (x & <- & _). unfold enc. rewrite len_app, len_header.
      unfold len. cbn [Core.payload ack_of length]. lia. }
  assert (Hacks : Forall (fun x => 0 <= fst x < 2 ^ 32 /\ 0 <= snd x < 2 ^ 32)
                    ([] ++ map (fun i => (Z.of_nat i, t)) (seq k j))).
  { apply Forall_forall. intros x Hx. cbn [app] in Hx. apply in_map_iff in Hx.
    destruct Hx as (i & <- & Hi). apply in_seq in Hi. cbn [fst snd]. lia. }
  rewrite <- HK1 in HA1.
  destruct (@feed_acks c m c_range m_fits ga (k + j) w _ a1 Hg1 HA1 Hkj Hw Hacks)
    as (a2 & Hfeeda & Hg2a & HK2a).
  rewrite Hfeeda.
  exists (k + j)%nat, a2, b2. split; [reflexivity |].
  split; [| split; [exact Hb2 | split; [exact Hkj | split; [lia | lia]]]].
  split; [exact Hg2a |]. rewrite HK2a.
  apply (@sender_takes_acks c m c_range m_fits); auto.
  intros Hnil. cbn [app] in Hnil.
  destruct j; [| discriminate]. rewrite Nat.add_0_r. rewrite HK1. apply HA10. reflexivity.
Qed.

Lemma rounds_progress_async (ga gb f : callable) (b0 : nat) (ticks : list Z) :
  forall (k : nat) (a b : @process core),
  Forall (fun t => 0 <= t < 2 ^ 32) ticks -> (k <= count m)%nat ->
  sending c m k ga a -> calling c m k [] gb f b0 b ->
  exists k' a' b',
    rounds ticks (a, b) = Some (a', b')
    /\ sending c m k' ga a' /\ calling c m k' [] gb f b0 b'
    /\ (k' <= count m)%nat /\ (Nat.min (count m) (k + length ticks) <= k')%nat.
Proof.
  induction ticks as [| t ticks IH]; intros k a b Hticks Hk Ha Hb.
  - exists k, a, b. repeat split; try assumption; try apply Ha; try apply Hb.
    cbn [length]. lia.
  - inversion Hticks as [| ? ? Ht Hrest]; subst.
    destruct (@round_progress_async k ga gb f b0 a b t Ht Hk Ha Hb)
      as (k1 & a1 & b1 & Hround & Ha1 & Hb1 & Hk1 & Hle & Hlt).
    destruct (IH k1 a1 b1 Hrest Hk1 Ha1 Hb1) as (k2 & a2 & b2 & Hrounds & Ha2 & Hb2 & Hk2 & Hmin).
    exists k2, a2, b2. cbn [rounds]. rewrite Hround.
    repeat split; try assumption; try apply Ha2; try apply Hb2.
    cbn [length]. lia.
Qed.

(** Session B once the message has gone to the callback. *)
Lemma calling_done (g f : callable) (b0 : nat) (p : @process core) :
  calling c m (count m) [] g f b0 p ->
  quiescent p
  /\ delivered p = [Receive f (carries m b0)]
  /\ receive p = (Returns {| data := None; size := 0 |}, p).
Proof.
  intros Hp. split; [| split].
  - intros t Ht.
    destruct (@calling_update (count m) [] g f b0 p t (Nat.le_refl _) Hp)
      as (p' & w & Hup & _ & Hadd & _).
    exists p'. split; [exact Hup | exact Hadd].
  - destruct Hp as (_ & _ & _ & [(Hlt & _) | (_ & _ & Hdel)]); [lia | exact Hdel].
  - destruct Hp as (_ & _ & _ & [(Hlt & _) | (_ & HB & _)]); [lia |].
    apply receive_none. cbn [ikcp_peeksize core]. unfold Core.peeksize.
    destruct HB as (_ & _ & _ & _ & _ & _ & _ & _ & _ & _ & Hqu). rewrite Hqu. lia.
Qed.

End TripAsyncFacts.

(** A message within the limits, sent from session A to a session B in
    async mode with the receive callback [f]: after as many exchanges as
    the message has fragments, or more, both sessions are quiescent, the
    callback has been handed the message, once, and [receive] on B
    returns the empty packet. *)
Lemma round_trip_async (conv : Z) (message : bytes) (ga gb f : callable) (ia ib : bool)
    (ticks : list Z) :
  is_IUINT32 conv ->
  within_limits message ->
  Forall is_IUINT32 ticks ->
  Core.fragment_count (Core.mss Core.default_config) message <= Z.of_nat (length ticks) ->
  exists a b,
    rounds ticks (snd (send message (len message) (sender_session conv ia ga)),
                  async_session conv ib gb f) = Some (a, b)
    /\ quiescent a /\ quiescent b
    /\ delivered b = [Receive f {| data := Some {| block := 0; contents := message |};
                                   size := len message |}]
    /\ receive b = (Returns {| data := None; size := 0 |}, b).
Proof.
  intros Hc Hlim Hticks Hfuel. unfold is_IUINT32 in Hc.
  pose proof (within_limits_count Hlim) as Hcount.
  pose proof (within_limits_len Hlim) as Hlen.
  assert (Ha0 : sending conv message 0 ga
                  (snd (send message (len message) (sender_session conv ia ga)))).
  { rewrite send_within_int by (unfold INT_MAX; lia).
    split; [reflexivity |]. apply sender_starts. }
  assert (Hb0 : calling conv message 0 [] gb f 0 (async_session conv ib gb f)).
  { split; [reflexivity |]. split; [reflexivity |]. split; [reflexivity |].
    left. pose proof (count_pos message).
    split; [lia |]. split; [apply receiver_starts |]. split; reflexivity. }
  destruct (@rounds_progress_async conv message Hc Hcount Hlen ga gb f 0%nat ticks 0%nat _ _
              Hticks ltac:(lia) Ha0 Hb0)
    as (k & a & b & Hrounds & Ha & Hb & Hk & Hmin).
  assert (k = count message).
  { assert (count message <= length ticks)%nat; [| lia].
    unfold count, pieces, Core.fragments. rewrite length_chunks. lia. }
  subst k.
  destruct (@calling_done conv message Hcount gb f 0%nat b Hb) as (Hq & Hdel & Hrecv).
  exists a, b. split; [exact Hrounds |].
  split; [exact (@sender_quiescent conv message ga a Ha) |].
  split; [exact Hq |]. split; assumption.
Qed.




(** * The session across its methods *)

Section SessionFacts.
Context {E : Engine}.

(** ** What each method leaves behind *)

Lemma output_calls_eq (out : list emission) (q : process) :
  output_calls out q =
  match mOutputFunc (this q), out with
  | None, _ :: _ => (Aborts, q)
  | _, _ => (Returns tt, {| this := this q; brk := brk q;
                            trace := trace q ++ handed (this q) out |})
  end.
Proof.
  unfold handed. destruct (mOutputFunc (this q)) as [g |] eqn:H.
  - rewrite (output_calls_set out q H). reflexivity.
  - destruct out as [| e out].
    + simpl. unfold ret. rewrite app_nil_r, process_eta. reflexivity.
    + apply output_calls_unset; [exact H | discriminate].
Qed.

(** [update] and [flush]: the engine runs, then its emissions go to the
    sink. *)
Lemma engine_call_eq (f : KCPSession -> ikcpcb * list emission) (p : process) :
  (s <- get_this ;; let '(k, out) := f s in set_mKcp k ;;; output_calls out) p =
  match mOutputFunc (this p), snd (f (this p)) with
  | None, _ :: _ => (Aborts, with_mKcp p (fst (f (this p))))
  | _, _ => (Returns tt,
             {| this := this (with_mKcp p (fst (f (this p)))); brk := brk p;
                trace := trace p ++ handed (this p) (snd (f (this p))) |})
  end.
Proof.
  unfold bind at 1, get_this. cbv beta iota.
  destruct (f (this p)) as [k out].
  unfold bind, set_mKcp, put_this. rewrite output_calls_eq.
  unfold handed, with_mKcp. simpl.
  destruct (mOutputFunc (this p)); destruct out; reflexivity.
Qed.

(** The methods that hand the engine an argument and discard what it
    reports. *)
Lemma setter_eq {A} (f : KCPSession -> ikcpcb * A) (p : process) :
  (s <- get_this ;; let '(k, _) := f s in set_mKcp k) p
  = (Returns tt, with_mKcp p (fst (f (this p)))).
Proof.
  unfold bind, get_this. destruct (f (this p)) as [k r]. reflexivity.
Qed.

Lemma setPropertiesPrivate_eq (n i r c : Z) (p : process) :
  setPropertiesPrivate n i r c p
  = (Returns tt, with_mKcp p (fst (ikcp_nodelay (mKcp (this p)) n i r c))).
Proof.
  unfold setPropertiesPrivate.
  apply (setter_eq (fun s => ikcp_nodelay (mKcp s) n i r c)).
Qed.

Lemma setProperties_eq (b : bool) (i r : Z) (c : bool) (p : process) :
  setProperties b i r c p
  = (Returns tt, with_mKcp p (after_setProperties (mKcp (this p)) b i r c)).
Proof.
  unfold setProperties, setNodelay, setInternalInterval, setFastResendThreshold,
    setCongestionControl, after_setProperties.
  unfold bind. rewrite !setPropertiesPrivate_eq. reflexivity.
Qed.

(** [receive], whatever the engine does. *)
Lemma receive_eq (p : process) :
  receive p =
  if hasReceivablePacket (this p) then
    let '(k, stored, r) :=
      ikcp_recv (mKcp (this p))
        (repeat Byte.x00 (Z.to_nat (nextPacketSize (this p))))
        (to_int (nextPacketSize (this p))) in
    (if to_SizeType r =? nextPacketSize (this p)
     then Returns {| data := Some {| block := brk p; contents := stored |};
                     size := nextPacketSize (this p) |}
     else Throws (runtime_error Messages.inconsistency),
     after_recv p k)
  else (Returns {| data := None; size := 0 |}, p).
Proof.
  unfold receive, bind at 1, get_this. cbv beta iota.
  destruct (hasReceivablePacket (this p)); [| reflexivity].
  unfold bind at 1, new_array. cbv beta iota. cbn [contents block].
  destruct (ikcp_recv _ _ _) as [[k stored] r].
  unfold bind, set_mKcp, put_this, throw, ret, after_recv. cbv beta iota.
  destruct (to_SizeType r =? nextPacketSize (this p)); reflexivity.
Qed.

(** [receive] touches neither the callbacks nor the mode nor the trace,
    and no assertion is in its way. *)
Lemma receive_frame (p : process) :
  mOutputFunc (this (snd (receive p))) = mOutputFunc (this p)
  /\ mAsyncMode (this (snd (receive p))) = mAsyncMode (this p)
  /\ mReceiveFunc (this (snd (receive p))) = mReceiveFunc (this p)
  /\ trace (snd (receive p)) = trace p
  /\ fst (receive p) <> Aborts.
Proof.
  rewrite receive_eq.
  destruct (hasReceivablePacket (this p)).
  - destruct (ikcp_recv _ _ _) as [[k stored] r].
    destruct (to_SizeType r =? nextPacketSize (this p)); simpl;
      repeat split; discriminate.
  - simpl. repeat split; discriminate.
Qed.

(** [mReceiveFunc(std::move(receive()))], as [input] has it. *)
Lemma deliver_cases (f : receiveCallback) (q : process) :
  exists o q' y,
    (packet <- receive ;; call_receive f packet) q = (o, q')
    /\ o <> Aborts
    /\ mOutputFunc (this q') = mOutputFunc (this q)
    /\ mAsyncMode (this q') = mAsyncMode (this q)
    /\ mReceiveFunc (this q') = mReceiveFunc (this q)
    /\ trace q' = trace q ++ y
    /\ (y = [] \/ exists c packet, f = Some c /\ y = [Receive c packet]).
Proof.
  unfold bind. destruct (receive_frame q) as (H1 & H2 & H3 & H4 & H5).
  destruct (receive q) as [[packet | e |] q1]; simpl in *.
  - destruct f as [c |]; simpl.
    + unfold log. exists (Returns tt). eexists. exists [Receive c packet].
      simpl. rewrite H4.
      repeat split; try assumption; try discriminate. right. eauto.
    + unfold throw. exists (Throws bad_function_call), q1, []. rewrite app_nil_r.
      repeat split; try assumption; try discriminate. left. reflexivity.
  - exists (Throws e), q1, []. rewrite app_nil_r.
    repeat split; try assumption; try discriminate. left. reflexivity.
  - congruence.
Qed.

(** [input]: the engine applies the datagram, its emissions go to the
    sink, and in async mode a receivable message goes to the callback. *)
Lemma input_eq (d : bytes) (n : Z) (p : process) :
  input d n p =
  match mOutputFunc (this p), snd (fst (ikcp_input (mKcp (this p)) d (to_long n))) with
  | None, _ :: _ =>
      (Aborts, with_mKcp p (fst (fst (ikcp_input (mKcp (this p)) d (to_long n)))))
  | _, _ =>
      (if mAsyncMode (this p)
          && (0 <=? ikcp_peeksize (fst (fst (ikcp_input (mKcp (this p)) d (to_long n)))))
       then packet <- receive ;; call_receive (mReceiveFunc (this p)) packet
       else ret tt)
        {| this := this (with_mKcp p (fst (fst (ikcp_input (mKcp (this p)) d (to_long n)))));
           brk := brk p;
           trace := trace p
                    ++ handed (this p)
                         (snd (fst (ikcp_input (mKcp (this p)) d (to_long n)))) |}
  end.
Proof.
  unfold input, bind at 1, get_this. cbv beta iota.
  destruct (ikcp_input _ _ _) as [[k out] r].
  unfold bind at 1, set_mKcp, put_this. unfold bind at 1.
  rewrite output_calls_eq. unfold handed, with_mKcp. simpl.
  destruct (mOutputFunc (this p)); destruct out; simpl; try reflexivity;
    unfold bind at 1, get_this; simpl; unfold hasReceivablePacket; simpl;
    destruct (mAsyncMode (this p) && _); reflexivity.
Qed.

Lemma send_eq (d : bytes) (n : Z) (p : process) :
  send d n p = (Returns tt, with_mKcp p (fst (ikcp_send (mKcp (this p)) d (to_int n)))).
Proof. exact (setter_eq (fun s => ikcp_send (mKcp s) d (to_int n)) p). Qed.

Lemma setMTU_eq (mtu : Z) (p : process) :
  setMTU mtu p = (Returns tt, with_mKcp p (fst (ikcp_setmtu (mKcp (this p)) mtu))).
Proof. exact (setter_eq (fun s => ikcp_setmtu (mKcp s) mtu) p). Qed.

Lemma setMaxSendWindowSize_eq (w : Z) (p : process) :
  setMaxSendWindowSize w p
  = (Returns tt, with_mKcp p (fst (ikcp_wndsize (mKcp (this p)) w 0))).
Proof. exact (setter_eq (fun s => ikcp_wndsize (mKcp s) w 0) p). Qed.

Lemma setMaxReceiveWindowSize_eq (w : Z) (p : process) :
  setMaxReceiveWindowSize w p
  = (Returns tt, with_mKcp p (fst (ikcp_wndsize (mKcp (this p)) 0 w))).
Proof. exact (setter_eq (fun s => ikcp_wndsize (mKcp s) 0 w) p). Qed.

Lemma update_eq (t : Z) (p : process) :
  update t p =
  match mOutputFunc (this p), snd (ikcp_update (mKcp (this p)) t) with
  | None, _ :: _ => (Aborts, with_mKcp p (fst (ikcp_update (mKcp (this p)) t)))
  | _, _ => (Returns tt,
             {| this := this (with_mKcp p (fst (ikcp_update (mKcp (this p)) t)));
                brk := brk p;
                trace := trace p ++ handed (this p) (snd (ikcp_update (mKcp (this p)) t)) |})
  end.
Proof. exact (engine_call_eq (fun s => ikcp_update (mKcp s) t) p). Qed.

Lemma flush_eq (p : process) :
  flush p =
  match mOutputFunc (this p), snd (ikcp_flush (mKcp (this p))) with
  | None, _ :: _ => (Aborts, with_mKcp p (fst (ikcp_flush (mKcp (this p)))))
  | _, _ => (Returns tt,
             {| this := this (with_mKcp p (fst (ikcp_flush (mKcp (this p)))));
                brk := brk p;
                trace := trace p ++ handed (this p) (snd (ikcp_flush (mKcp (this p)))) |})
  end.
Proof. exact (engine_call_eq (fun s => ikcp_flush (mKcp s)) p). Qed.

(** ** The failed assertion *)

Lemma perform_aborts_inv (c : call) (p : process) :
  fst (perform c p) = Aborts ->
  mOutputFunc (this p) = None /\ engine_output c (this p) <> [].
Proof.
  destruct c; simpl.
  - discriminate.
  - discriminate.
  - discriminate.
  - rewrite input_eq.
    destruct (mOutputFunc (this p)) as [g |];
      destruct (snd (fst (ikcp_input (mKcp (this p)) data0 (to_long size0))))
        as [| e out];
      try (intros _; split; [reflexivity | discriminate]);
      (destruct (mAsyncMode (this p) && _); [| discriminate]);
      match goal with |- context [bind receive ?k ?q] =>
        destruct (deliver_cases (mReceiveFunc (this p)) q)
          as (o & q' & y & Heq & Hno & _)
      end; rewrite Heq; simpl; intros; contradiction.
  - unfold bind. destruct (receive_frame p) as (_ & _ & _ & _ & H).
    destruct (receive p) as [[packet | e |] q]; simpl in *;
      intros; try discriminate; congruence.
  - rewrite send_eq. discriminate.
  - rewrite update_eq.
    destruct (mOutputFunc (this p)); destruct (snd (ikcp_update _ _));
      try discriminate.
    intros _. split; [reflexivity | discriminate].
  - rewrite flush_eq.
    destruct (mOutputFunc (this p)); destruct (snd (ikcp_flush _));
      try discriminate.
    intros _. split; [reflexivity | discriminate].
  - rewrite setMTU_eq. discriminate.
  - rewrite setMaxSendWindowSize_eq. discriminate.
  - rewrite setMaxReceiveWindowSize_eq. discriminate.
  - rewrite setProperties_eq. discriminate.
Qed.

(** X1.  A method ends in the failed assertion of the adapter exactly
    when no sink is installed and the engine emits during it; with a sink
    installed, or an engine that has nothing to emit, every method returns
    or throws. *)
Theorem assertion_fails_exactly_on_emission_without_sink (c : call) (p : process) :
  fst (perform c p) = Aborts
  <-> mOutputFunc (this p) = None /\ engine_output c (this p) <> [].
Proof.
  split.
  - apply perform_aborts_inv.
  - intros [H1 H2]. apply perform_unset_aborts; assumption.
Qed.

Lemma sink_stays_installed (c : call) (p : process) :
  uninstalls_output c = false ->
  is_set (mOutputFunc (this p)) = true ->
  is_set (mOutputFunc (this (snd (perform c p)))) = true.
Proof.
  intros Hc Hp. destruct (installs_output c) eqn:Hi.
  - destruct c; try discriminate. destruct f; [reflexivity | discriminate].
  - destruct (sink_untouched_perform c Hi p) as [H _]. rewrite H. exact Hp.
Qed.

(** X2.  Once a sink is installed, no sequence of calls that does not
    reset it to [nullptr] ends in the failed assertion, and the sink is
    still installed afterwards. *)
Theorem no_abort_while_sink_installed (calls : list call) (p : process) :
  forallb (fun c => negb (uninstalls_output c)) calls = true ->
  is_set (mOutputFunc (this p)) = true ->
  fst (run calls p) = Returns tt
  /\ is_set (mOutputFunc (this (snd (run calls p)))) = true.
Proof.
  revert p. induction calls as [| c calls IH]; simpl; intros p H Hp.
  - split; [reflexivity | exact Hp].
  - apply andb_true_iff in H. destruct H as [Hc Hrest]. apply negb_true_iff in Hc.
    pose proof (sink_stays_installed c p Hc Hp) as Hq.
    pose proof (perform_aborts_inv c p) as Hab.
    destruct (perform c p) as [[[] | e |] q]; simpl in *.
    + apply IH; assumption.
    + apply IH; assumption.
    + destruct (Hab eq_refl) as [Hnone _]. rewrite Hnone in Hp. discriminate.
Qed.

(** ** Polling mode *)

Lemma sync_kept_perform_any (c : call) :
  sets_mode c = false -> preserves sync_kept (perform c).
Proof.
  intros Hc. destruct (transfers c) eqn:Ht; [apply sync_kept_perform; exact Ht |].
  destruct c; try discriminate; intros p Hsync; simpl.
  - split; [exact Hsync | reflexivity].
  - split; [exact Hsync | reflexivity].
  - unfold bind. destruct (receive_frame p) as (_ & H2 & _ & H4 & _).
    destruct (receive p) as [[packet | e |] q]; simpl in *; rewrite H2, H4; auto.
  - rewrite setMTU_eq. simpl. auto.
  - rewrite setMaxSendWindowSize_eq. simpl. auto.
  - rewrite setMaxReceiveWindowSize_eq. simpl. auto.
  - rewrite setProperties_eq. simpl. auto.
Qed.

(** X3.  With async mode off, no sequence of calls that leaves
    [setAsyncMode] out invokes the receive callback, whatever arrives and
    whichever callbacks are installed meanwhile; the mode is still off
    afterwards. *)
Theorem polling_mode_never_invokes_callback (calls : list call) (p : process) :
  forallb (fun c => negb (sets_mode c)) calls = true ->
  mAsyncMode (this p) = false ->
  mAsyncMode (this (snd (run calls p))) = false
  /\ filter is_receive (trace (snd (run calls p))) = filter is_receive (trace p).
Proof.
  revert p. induction calls as [| c calls IH]; simpl; intros p H Hp.
  - split; [exact Hp | reflexivity].
  - apply andb_true_iff in H. destruct H as [Hc Hrest]. apply negb_true_iff in Hc.
    destruct (sync_kept_perform_any c Hc p Hp) as [Hq Hqt].
    destruct (perform c p) as [[[] | e |] q]; simpl in *.
    + destruct (IH q Hrest Hq) as [Hr Hrt]. split; [exact Hr | congruence].
    + destruct (IH q Hrest Hq) as [Hr Hrt]. split; [exact Hr | congruence].
    + split; assumption.
Qed.

(** ** The callbacks a session invokes *)

Lemma invokes_ext (s s' : KCPSession) (e : event) :
  mOutputFunc s' = mOutputFunc s ->
  mAsyncMode s' = mAsyncMode s ->
  mReceiveFunc s' = mReceiveFunc s ->
  invokes s' e -> invokes s e.
Proof.
  intros H1 H2 H3. destruct e; simpl.
  - congruence.
  - intros [A B]. split; congruence.
Qed.

Lemma configured_refl (p : process) : configured p p.
Proof.
  repeat split. exists []. rewrite app_nil_r. split; [reflexivity | constructor].
Qed.

Lemma configured_trans (p q r : process) :
  configured p q -> configured q r -> configured p r.
Proof.
  intros (A1 & A2 & A3 & x & Hx & Fx) (B1 & B2 & B3 & y & Hy & Fy).
  repeat split; try congruence.
  exists (x ++ y). split; [rewrite Hy, Hx, app_assoc; reflexivity |].
  apply Forall_app. split; [exact Fx |].
  eapply Forall_impl; [| exact Fy]. intros e. apply invokes_ext; assumption.
Qed.

Lemma handed_invokes (s : KCPSession) (out : list emission) :
  Forall (invokes s) (handed s out).
Proof.
  unfold handed. destruct (mOutputFunc s) as [g |] eqn:H; [| constructor].
  apply Forall_forall. intros e He. unfold sink_calls in He.
  apply in_map_iff in He. destruct He as (x & Hx & _). subst e. simpl. exact H.
Qed.

Lemma handed_no_receive (s : KCPSession) (out : list emission) :
  filter is_receive (handed s out) = [].
Proof.
  unfold handed. destruct (mOutputFunc s) as [g |]; [| reflexivity].
  unfold sink_calls. induction out as [| e out IH]; simpl; auto.
Qed.

Lemma configured_with_mKcp (p : process) (k : ikcpcb) : configured p (with_mKcp p k).
Proof.
  repeat split. exists []. simpl. rewrite app_nil_r. split; [reflexivity | constructor].
Qed.

Lemma configured_handed (p : process) (k : ikcpcb) (out : list emission) :
  configured p {| this := this (with_mKcp p k); brk := brk p;
                  trace := trace p ++ handed (this p) out |}.
Proof.
  repeat split. exists (handed (this p) out). split; [reflexivity |].
  apply handed_invokes.
Qed.

Lemma configured_deliver (p q : process) (b : bool) :
  configured p q ->
  configured p
    (snd ((if mAsyncMode (this p) && b
           then packet <- receive ;; call_receive (mReceiveFunc (this p)) packet
           else ret tt) q)).
Proof.
  intros Hpq. destruct (mAsyncMode (this p)) eqn:Hm; simpl; [| exact Hpq].
  destruct b; simpl; [| exact Hpq].
  destruct (deliver_cases (mReceiveFunc (this p)) q)
    as (o & q' & y & Heq & _ & H1 & H2 & H3 & Ht & Hy).
  rewrite Heq. simpl. eapply configured_trans; [exact Hpq |].
  destruct Hpq as (A1 & A2 & A3 & _).
  repeat split; try assumption. exists y. split; [exact Ht |].
  destruct Hy as [Hy | (c & packet & Hf & Hy)]; subst y; constructor; [| constructor].
  simpl. split; congruence.
Qed.

Lemma configured_perform (c : call) (p : process) :
  configures c = false -> configured p (snd (perform c p)).
Proof.
  destruct c; simpl; intros Hc; try discriminate.
  - rewrite input_eq.
    destruct (mOutputFunc (this p)) as [g |] eqn:Hg;
      destruct (snd (fst (ikcp_input (mKcp (this p)) data0 (to_long size0))))
        as [| e out] eqn:Hout;
      try (apply configured_deliver; rewrite <- Hout; apply configured_handed).
    apply configured_with_mKcp.
  - unfold bind. destruct (receive_frame p) as (H1 & H2 & H3 & H4 & _).
    destruct (receive p) as [[packet | e |] q]; simpl in *;
      repeat split; try assumption;
      exists []; rewrite app_nil_r; (split; [assumption | constructor]).
  - rewrite send_eq. apply configured_with_mKcp.
  - rewrite update_eq.
    destruct (mOutputFunc (this p)) as [g |] eqn:Hg;
      destruct (snd (ikcp_update (mKcp (this p)) currentTimestamp))
        as [| e out] eqn:Hout;
      try (simpl snd; rewrite <- Hout; apply configured_handed).
    apply configured_with_mKcp.
  - rewrite flush_eq.
    destruct (mOutputFunc (this p)) as [g |] eqn:Hg;
      destruct (snd (ikcp_flush (mKcp (this p)))) as [| e out] eqn:Hout;
      try (simpl snd; rewrite <- Hout; apply configured_handed).
    apply configured_with_mKcp.
  - rewrite setMTU_eq. apply configured_with_mKcp.
  - rewrite setMaxSendWindowSize_eq. apply configured_with_mKcp.
  - rewrite setMaxReceiveWindowSize_eq. apply configured_with_mKcp.
  - rewrite setProperties_eq. apply configured_with_mKcp.
Qed.

Lemma configured_run (calls : list call) :
  forallb (fun c => negb (configures c)) calls = true ->
  forall p, configured p (snd (run calls p)).
Proof.
  induction calls as [| c calls IH]; simpl; intros H p.
  - apply configured_refl.
  - apply andb_true_iff in H. destruct H as [Hc Hrest]. apply negb_true_iff in Hc.
    pose proof (configured_perform c p Hc) as Hp.
    destruct (perform c p) as [[[] | e |] q]; simpl in *.
    + eapply configured_trans; [exact Hp | apply IH; exact Hrest].
    + eapply configured_trans; [exact Hp | apply IH; exact Hrest].
    + exact Hp.
Qed.

(** X4.  Over any sequence of calls that leaves the three configuring
    setters out, every callback invocation is one the session is
    configured for: an output goes to the installed sink, and a packet
    goes to the installed receive callback and only in async mode. *)
Theorem callbacks_invoked_as_configured (calls : list call) (p : process) :
  forallb (fun c => negb (configures c)) calls = true ->
  Forall (invokes (this p)) (added p (snd (run calls p))).
Proof.
  intros H. destruct (configured_run calls H p) as (_ & _ & _ & x & Hx & Fx).
  erewrite added_app by exact Hx. exact Fx.
Qed.

Lemma perform_members (c : call) (p : process) :
  (installs_output c = false ->
   mOutputFunc (this (snd (perform c p))) = mOutputFunc (this p))
  /\ (sets_mode c = false ->
      mAsyncMode (this (snd (perform c p))) = mAsyncMode (this p))
  /\ (sets_callback c = false ->
      mReceiveFunc (this (snd (perform c p))) = mReceiveFunc (this p)).
Proof.
  destruct (configures c) eqn:Hc.
  - destruct c; try discriminate; simpl;
      repeat split; intros; try discriminate; reflexivity.
  - destruct (configured_perform c p Hc) as (H1 & H2 & H3 & _). auto.
Qed.

(** X5.  Each of the members [mOutputFunc], [mAsyncMode] and
    [mReceiveFunc] changes only through its own setter: over any sequence
    of calls that leaves [setOutputFunction] out the sink is the same
    afterwards, and likewise the mode without [setAsyncMode] and the
    receive callback without [setReceiveCallback]. *)
Theorem members_change_only_through_their_setters (calls : list call) (p : process) :
  (forallb (fun c => negb (installs_output c)) calls = true ->
   mOutputFunc (this (snd (run calls p))) = mOutputFunc (this p))
  /\ (forallb (fun c => negb (sets_mode c)) calls = true ->
      mAsyncMode (this (snd (run calls p))) = mAsyncMode (this p))
  /\ (forallb (fun c => negb (sets_callback c)) calls = true ->
      mReceiveFunc (this (snd (run calls p))) = mReceiveFunc (this p)).
Proof.
  revert p. induction calls as [| c calls IH]; simpl; intros p.
  - auto.
  - destruct (perform_members c p) as (F1 & F2 & F3).
    destruct (perform c p) as [[[] | e |] q]; simpl in *;
      try destruct (IH q) as (I1 & I2 & I3);
      repeat split; intros H; apply andb_true_iff in H; destruct H as [Hc Hr];
      apply negb_true_iff in Hc;
      try (rewrite I1 by exact Hr; auto);
      try (rewrite I2 by exact Hr; auto);
      try (rewrite I3 by exact Hr; auto); auto.
Qed.

(** X6.  One call of [input] invokes the receive callback at most once,
    however many messages the engine holds. *)
Theorem input_invokes_callback_at_most_once (d : bytes) (n : Z) (p : process) :
  exists x,
    trace (snd (input d n p)) = trace p ++ x
    /\ (length (filter is_receive x) <= 1)%nat.
Proof.
  rewrite input_eq.
  assert (Hq : forall k out,
    exists x,
      trace (snd ((if mAsyncMode (this p) && (0 <=? ikcp_peeksize k)
                   then packet <- receive ;; call_receive (mReceiveFunc (this p)) packet
                   else ret tt)
                    {| this := this (with_mKcp p k); brk := brk p;
                       trace := trace p ++ handed (this p) out |}))
      = trace p ++ x
      /\ (length (filter is_receive x) <= 1)%nat).
  { intros k out. destruct (mAsyncMode (this p) && _).
    - match goal with |- context [bind receive ?f ?q] =>
        destruct (deliver_cases (mReceiveFunc (this p)) q)
          as (o & q' & y & Heq & _ & _ & _ & _ & Ht & Hy)
      end.
      rewrite Heq. simpl in *. exists (handed (this p) out ++ y).
      split; [rewrite Ht, app_assoc; reflexivity |].
      rewrite filter_app, handed_no_receive.
      destruct Hy as [Hy | (c & packet & _ & Hy)]; subst y; simpl; lia.
    - exists (handed (this p) out). simpl. split; [reflexivity |].
      rewrite handed_no_receive. simpl. lia. }
  destruct (mOutputFunc (this p)) as [g |] eqn:Hg;
    destruct (snd (fst (ikcp_input (mKcp (this p)) d (to_long n)))) as [| e out] eqn:Hout;
    try (rewrite <- Hout; apply Hq).
  exists []. simpl. rewrite app_nil_r. split; [reflexivity | lia].
Qed.

(** X13.  With async mode off, [input] hands the datagram to the engine
    and takes nothing out of it: afterwards the session holds the control
    block [ikcp_input] left, no buffer has been allocated, and a message
    the datagram completed waits for [receive]. *)
Theorem polling_input_leaves_message (d : bytes) (n : Z) (p : process) :
  mAsyncMode (this p) = false ->
  mKcp (this (snd (input d n p))) = (fst (fst (ikcp_input (mKcp (this p)) d (to_long n))))
  /\ brk (snd (input d n p)) = brk p
  /\ hasReceivablePacket (this (snd (input d n p)))
     = (0 <=? ikcp_peeksize ((fst (fst (ikcp_input (mKcp (this p)) d (to_long n)))))).
Proof.
  intros Hmode. rewrite input_eq. rewrite Hmode. simpl andb. cbv iota.
  destruct (mOutputFunc (this p)) as [g |];
    destruct (snd (fst (ikcp_input (mKcp (this p)) d (to_long n)))) as [| e out];
    repeat split.
Qed.

(** ** Async mode *)

(** [input] in async mode once a message is receivable. *)
Lemma input_async_eq (d : bytes) (n : Z) (p : process) :
  mAsyncMode (this p) = true ->
  (mOutputFunc (this p) = None -> snd (fst (ikcp_input (mKcp (this p)) d (to_long n))) = []) ->
  0 <= ikcp_peeksize (fst (fst (ikcp_input (mKcp (this p)) d (to_long n)))) ->
  input d n p =
  (packet <- receive ;; call_receive (mReceiveFunc (this p)) packet)
    {| this := this (with_mKcp p (fst (fst (ikcp_input (mKcp (this p)) d (to_long n)))));
       brk := brk p;
       trace := trace p ++ handed (this p) (snd (fst (ikcp_input (mKcp (this p)) d (to_long n)))) |}.
Proof.
  intros Hmode Hsink Hn. rewrite input_eq. rewrite Hmode.
  rewrite (proj2 (Z.leb_le _ _) Hn). simpl andb.
  destruct (mOutputFunc (this p)) as [g |];
    destruct (snd (fst (ikcp_input (mKcp (this p)) d (to_long n)))) as [| e out];
    try reflexivity.
  specialize (Hsink eq_refl). discriminate.
Qed.

(** X7.  In async mode with no receive callback installed, [input] of a
    datagram that leaves a message receivable takes the message out of
    the engine with [receive] and then throws [std::bad_function_call]:
    the message is gone and nobody was handed it. *)
Theorem async_input_without_callback_loses_message (d : bytes) (n : Z) (p : process) :
  mAsyncMode (this p) = true ->
  mReceiveFunc (this p) = None ->
  (mOutputFunc (this p) = None -> snd (fst (ikcp_input (mKcp (this p)) d (to_long n))) = []) ->
  0 <= ikcp_peeksize (fst (fst (ikcp_input (mKcp (this p)) d (to_long n)))) < 2 ^ 31 ->
  consistent (fst (fst (ikcp_input (mKcp (this p)) d (to_long n)))) ->
  exists p',
    input d n p = (Throws bad_function_call, p')
    /\ mKcp (this p')
       = fst (fst (ikcp_recv (fst (fst (ikcp_input (mKcp (this p)) d (to_long n))))
                     (repeat Byte.x00 (Z.to_nat (ikcp_peeksize (fst (fst (ikcp_input (mKcp (this p)) d (to_long n)))))))
                     (ikcp_peeksize (fst (fst (ikcp_input (mKcp (this p)) d (to_long n)))))))
    /\ added p p' = handed (this p) (snd (fst (ikcp_input (mKcp (this p)) d (to_long n)))).
Proof.
  intros Hmode Hcb Hsink Hn Hcons.
  rewrite input_async_eq by (try assumption; lia). rewrite Hcb.
  set (q := {| this := _; brk := brk p; trace := _ |}).
  destruct (receive_consistent q) as (k & stored & Hrecv & Hreceive);
    [exact Hn | exact Hcons |].
  unfold bind. rewrite Hreceive. simpl call_receive. unfold throw.
  eexists. split; [reflexivity |]. split.
  - change (mKcp (this q)) with (fst (fst (ikcp_input (mKcp (this p)) d (to_long n)))) in Hrecv. rewrite Hrecv. reflexivity.
  - apply added_app. reflexivity.
Qed.

(** X8.  In async mode, when [receive] finds the engine inconsistent,
    [input] throws the same runtime error and the receive callback is not
    invoked. *)
Theorem async_input_propagates_inconsistency (d : bytes) (n : Z) (p : process) :
  mAsyncMode (this p) = true ->
  (mOutputFunc (this p) = None -> snd (fst (ikcp_input (mKcp (this p)) d (to_long n))) = []) ->
  0 <= ikcp_peeksize (fst (fst (ikcp_input (mKcp (this p)) d (to_long n)))) < 2 ^ 31 ->
  is_int (snd (ikcp_recv (fst (fst (ikcp_input (mKcp (this p)) d (to_long n))))
                 (repeat Byte.x00 (Z.to_nat (ikcp_peeksize (fst (fst (ikcp_input (mKcp (this p)) d (to_long n)))))))
                 (ikcp_peeksize (fst (fst (ikcp_input (mKcp (this p)) d (to_long n))))))) ->
  snd (ikcp_recv (fst (fst (ikcp_input (mKcp (this p)) d (to_long n))))
         (repeat Byte.x00 (Z.to_nat (ikcp_peeksize (fst (fst (ikcp_input (mKcp (this p)) d (to_long n)))))))
         (ikcp_peeksize (fst (fst (ikcp_input (mKcp (this p)) d (to_long n))))))
  <> ikcp_peeksize (fst (fst (ikcp_input (mKcp (this p)) d (to_long n)))) ->
  exists p',
    input d n p = (Throws (runtime_error Messages.inconsistency), p')
    /\ added p p' = handed (this p) (snd (fst (ikcp_input (mKcp (this p)) d (to_long n)))).
Proof.
  intros Hmode Hsink Hn Hr Hne.
  rewrite input_async_eq by (try assumption; lia).
  set (q := {| this := _; brk := brk p; trace := _ |}).
  destruct (ikcp_recv (fst (fst (ikcp_input (mKcp (this p)) d (to_long n)))) _ _) as [[k stored] r] eqn:Hrecv.
  simpl in Hr, Hne.
  unfold bind. rewrite (receive_some q) with (k := k) (stored := stored) (r := r)
    by (try exact Hn; exact Hrecv).
  change (mKcp (this q)) with (fst (fst (ikcp_input (mKcp (this p)) d (to_long n)))).
  rewrite to_SizeType_eqb by (try assumption; lia).
  destruct (Z.eqb_spec r (ikcp_peeksize (fst (fst (ikcp_input (mKcp (this p)) d (to_long n)))))); [contradiction |].
  eexists. split; [reflexivity |]. apply added_app. reflexivity.
Qed.

(** ** Polling with [receive] *)

(** X9.  On a session whose engine is consistent, the two probes predict
    what [receive] returns: the packet carries a buffer exactly when
    [hasReceivablePacket] says so, and its size is what [nextPacketSize]
    reports. *)
Theorem probes_predict_receive (p : process) :
  is_int (ikcp_peeksize (mKcp (this p))) ->
  consistent (mKcp (this p)) ->
  exists packet p',
    receive p = (Returns packet, p')
    /\ has_data packet = hasReceivablePacket (this p)
    /\ size packet = nextPacketSize (this p).
Proof.
  intros Hint Hcons. unfold is_int in Hint.
  destruct (Z_lt_le_dec (ikcp_peeksize (mKcp (this p))) 0) as [Hneg | Hpos].
  - rewrite receive_none by exact Hneg.
    rewrite hasReceivablePacket_false, nextPacketSize_none by exact Hneg.
    eexists. eexists. split; [reflexivity |]. split; reflexivity.
  - destruct (receive_consistent p) as (k & stored & _ & Hreceive);
      [lia | exact Hcons |].
    rewrite Hreceive.
    rewrite hasReceivablePacket_true, nextPacketSize_some by lia.
    eexists. eexists. split; [reflexivity |]. split; reflexivity.
Qed.

(** ** The sizes [send] hands on *)

Lemma to_int_wraps (n q : Z) : to_int (n + q * 2 ^ 32) = to_int n.
Proof.
  unfold to_int.
  replace (n + q * 2 ^ 32 + 2 ^ 31) with (n + 2 ^ 31 + q * 2 ^ 32) by lia.
  rewrite Z_mod_plus_full. reflexivity.
Qed.

Lemma to_int_high (n : Z) : 2 ^ 31 <= n < 2 ^ 32 -> to_int n = n - 2 ^ 32.
Proof.
  intros H. unfold to_int.
  replace (n + 2 ^ 31) with (n - 2 ^ 31 + 1 * 2 ^ 32) by lia.
  rewrite Z_mod_plus_full. rewrite Z.mod_small by lia. lia.
Qed.

(** X11.  [send] hands the engine its size cut to an [int]: two sizes
    that differ by a multiple of [2^32] are sent alike, and a size from
    [2^31] up to [2^32] reaches the engine as the negative number
    [size - 2^32]. *)
Theorem send_size_wraps_at_int (d : bytes) (n q : Z) (p : process) :
  send d (n + q * 2 ^ 32) p = send d n p
  /\ (2 ^ 31 <= n < 2 ^ 32 ->
      send d n p
      = (Returns tt, with_mKcp p (fst (ikcp_send (mKcp (this p)) d (n - 2 ^ 32))))).
Proof.
  split.
  - rewrite !send_eq, to_int_wraps. reflexivity.
  - intros H. rewrite send_eq, to_int_high by exact H. reflexivity.
Qed.

End SessionFacts.

Section PropertiesFacts.
Context {E : Engine} {T : Tunables E}.

(** X12.  Over an engine that leaves a tunable as it is when handed the
    "not changed" argument and puts the others in force, [setProperties]
    returns with all of its arguments in force: none of its four calls of
    [ikcp_nodelay] undoes an earlier one.  Nodelay is 1 or 0 as asked,
    congestion control off is [nc = 1] and on is [nc = 0], the interval
    is the one given when it is within the engine's bounds and the old
    one when it is negative, the fast-resend threshold is the one given
    when it is not negative and the old one otherwise. *)
Theorem setProperties_sets_each_tunable
    (p : process) (nodelay : bool) (i r : Z) (cc : bool) :
  keeps_unchanged T ->
  fst (setProperties nodelay i r cc p) = Returns tt
  /\ get_nodelay (engine_after (setProperties nodelay i r cc) p)
     = (if nodelay then 1 else 0)
  /\ get_nocwnd (engine_after (setProperties nodelay i r cc) p)
     = (if cc then 0 else 1)
  /\ (0 <= r -> get_fastresend (engine_after (setProperties nodelay i r cc) p) = r)
  /\ (r < 0 -> get_fastresend (engine_after (setProperties nodelay i r cc) p)
               = get_fastresend (mKcp (this p)))
  /\ (i < 0 -> get_interval (engine_after (setProperties nodelay i r cc) p)
               = get_interval (mKcp (this p)))
  /\ (interval_min <= i <= interval_max ->
      get_interval (engine_after (setProperties nodelay i r cc) p) = i).
Proof.
  intros [Hn Hi Hr Hc Hns Hrs Hcs Hsw Hrw His].
  unfold engine_after. rewrite setProperties_eq. simpl fst. simpl snd.
  unfold with_mKcp. cbn [this mKcp]. unfold after_setProperties. cbv zeta.
  assert (Hneg : NotChanged < 0) by (unfold NotChanged; lia).
  split; [reflexivity |]. split; [| split; [| split; [| split; [| split]]]].
  - rewrite !Hn by exact Hneg. apply Hns. destruct nodelay; lia.
  - apply Hcs. destruct cc; lia.
  - intros H0. rewrite Hr by exact Hneg. apply Hrs. exact H0.
  - intros H0. rewrite Hr by exact Hneg. rewrite Hr by exact H0.
    rewrite !Hr by exact Hneg. reflexivity.
  - intros H0. rewrite !Hi by exact Hneg. rewrite Hi by exact H0.
    rewrite Hi by exact Hneg. reflexivity.
  - intros H0. rewrite !Hi by exact Hneg. apply His. exact H0.
Qed.

End PropertiesFacts.

(** ** The session over the modelled engine *)

Lemma no_abort_while_sink_installed_witness :
  fst (run [CallSend abc 3; CallUpdate 10] (sender_session 7 false sink)) = Returns tt
  /\ is_set (mOutputFunc
               (this (snd (run [CallSend abc 3; CallUpdate 10]
                             (sender_session 7 false sink))))) = true.
Proof.
  exact (@no_abort_while_sink_installed core [CallSend abc 3; CallUpdate 10]
           (sender_session 7 false sink) eq_refl eq_refl).
Defined.

Lemma polling_mode_never_invokes_callback_witness :
  mAsyncMode (this (snd (run [CallInput abc_datagram 27; CallReceive]
                           (polling_session 7 false sink)))) = false
  /\ filter is_receive
       (trace (snd (run [CallInput abc_datagram 27; CallReceive]
                      (polling_session 7 false sink))))
     = filter is_receive (trace (polling_session 7 false sink)).
Proof.
  exact (@polling_mode_never_invokes_callback core [CallInput abc_datagram 27; CallReceive]
           (polling_session 7 false sink) eq_refl eq_refl).
Defined.

Lemma callbacks_invoked_as_configured_witness :
  Forall (invokes (this (async_session 7 false sink callback)))
    (added (async_session 7 false sink callback)
       (snd (run [CallInput abc_datagram 27; CallUpdate 10]
               (async_session 7 false sink callback)))).
Proof.
  exact (@callbacks_invoked_as_configured core [CallInput abc_datagram 27; CallUpdate 10]
           (async_session 7 false sink callback) eq_refl).
Defined.

Lemma polling_input_leaves_message_witness :
  mKcp (this (snd (input abc_datagram 27 (polling_session 7 false sink))))
  = fst (fst (ikcp_input (mKcp (this (polling_session 7 false sink)))
                abc_datagram (to_long 27)))
  /\ brk (snd (input abc_datagram 27 (polling_session 7 false sink)))
     = brk (polling_session 7 false sink)
  /\ hasReceivablePacket (this (snd (input abc_datagram 27 (polling_session 7 false sink))))
     = (0 <=? ikcp_peeksize
                (fst (fst (ikcp_input (mKcp (this (polling_session 7 false sink)))
                             abc_datagram (to_long 27))))).
Proof.
  exact (@polling_input_leaves_message core abc_datagram 27
           (polling_session 7 false sink) eq_refl).
Defined.

Lemma async_input_without_callback_loses_message_witness :
  exists p',
    input abc_datagram 27 deaf_session = (Throws bad_function_call, p')
    /\ mKcp (this p')
       = fst (fst (ikcp_recv
                     (fst (fst (ikcp_input (mKcp (this deaf_session))
                                  abc_datagram (to_long 27))))
                     (repeat Byte.x00
                        (Z.to_nat
                           (ikcp_peeksize
                              (fst (fst (ikcp_input (mKcp (this deaf_session))
                                           abc_datagram (to_long 27)))))))
                     (ikcp_peeksize
                        (fst (fst (ikcp_input (mKcp (this deaf_session))
                                     abc_datagram (to_long 27)))))))
    /\ added deaf_session p'
       = handed (this deaf_session)
           (snd (fst (ikcp_input (mKcp (this deaf_session)) abc_datagram (to_long 27)))).
Proof.
  refine (@async_input_without_callback_loses_message core abc_datagram 27 deaf_session
            eq_refl eq_refl _ _ _).
  - intros _. reflexivity.
  - vm_compute. split; [discriminate | reflexivity].
  - apply core_consistent.
Defined.

Lemma async_input_propagates_inconsistency_witness :
  exists p',
    @input torn [] 0 torn_async_session
    = (Throws (runtime_error Messages.inconsistency), p')
    /\ @added torn torn_async_session p'
       = @handed torn (this torn_async_session)
           (snd (fst (@ikcp_input torn (mKcp (this torn_async_session)) [] (to_long 0)))).
Proof.
  refine (@async_input_propagates_inconsistency torn [] 0 torn_async_session
            eq_refl _ _ _ _).
  - intros _. reflexivity.
  - vm_compute. split; [discriminate | reflexivity].
  - vm_compute. split; [discriminate | reflexivity].
  - vm_compute. discriminate.
Defined.

Lemma probes_predict_receive_witness :
  exists packet p',
    receive abc_arrived = (Returns packet, p')
    /\ has_data packet = hasReceivablePacket (this abc_arrived)
    /\ size packet = nextPacketSize (this abc_arrived).
Proof.
  refine (@probes_predict_receive core abc_arrived _ _).
  - vm_compute. split; [discriminate | reflexivity].
  - apply core_consistent.
Defined.

Lemma setProperties_sets_each_tunable_witness :
  get_nodelay (engine_after (setProperties true 20 2 true) (sender_session 7 false sink)) = 1
  /\ get_nocwnd (engine_after (setProperties true 20 2 true) (sender_session 7 false sink)) = 0
  /\ get_fastresend (engine_after (setProperties true 20 2 true) (sender_session 7 false sink))
     = 2
  /\ get_interval (engine_after (setProperties true 20 2 true) (sender_session 7 false sink))
     = 20.
Proof.
  pose proof (@setProperties_sets_each_tunable core core_tunables
                (sender_session 7 false sink) true 20 2 true core_keeps_unchanged)
    as (_ & Hn & Hc & Hr & _ & _ & Hi).
  split; [exact Hn |]. split; [exact Hc |]. split; [apply Hr; lia |].
  apply Hi. change (0 <= 20 <= INT_MAX). unfold INT_MAX. lia.
Defined.
